(** * Runtime model loader, skeletal animation sampler and <source> parser
    of the COLLADA converter

    A shallow embedding of
    - [RMXMaterial.hash], [RMXBoneMatrixTexture.capacity]/[optimalSize],
      [RMXSkeletalAnimation.exportPose]/[resetPose]/[sampleAnimation]
      (examples/convert-renderer-rmx.ts), and
    - [COLLADA.Loader.Source.parse] with its accessor helpers,
    - the constructors of [RMXBoneMatrixTexture] and [RMXPose],
    - [COLLADA.Loader.ColladaLoader._loadFromXML],
    - the functions of gl-matrix's [mat4] the exporter computes with, and
    - [COLLADA.Converter.Node]: [getLocalMatrix], [getWorldMatrix],
      [isAnimatedBy], [pruneNodes], [forEachNode] and [extractGeometries].

    JavaScript numbers are modelled as exact rationals plus [NaN]: IEEE
    rounding, the single-precision rounding of stores into a [Float32Array]
    and the infinities are outside the model.  Exceptions are explicit
    ([completion]); objects mutated in place (the pose, the destination
    buffer, the static scratch registers, the log) are threaded as state. *)

From Stdlib Require Import QArith Qcanon Qround ZArith Lia String Ascii.
From stdpp Require Import base option list strings gmap pretty.

Local Open Scope Z_scope.

(** ** JavaScript numbers *)

Module JS.

Inductive number : Type :=
| NaN
| Fin (q : Qc).

Definition of_Z (z : Z) : number := Fin (Qc_of_Z z).
Definition of_nat (n : nat) : number := of_Z (Z.of_nat n).

Definition lift2 (f : Qc -> Qc -> Qc) (a b : number) : number :=
  match a, b with
  | Fin x, Fin y => Fin (f x y)
  | _, _ => NaN
  end.

Definition add : number -> number -> number := lift2 Qcplus.
Definition sub : number -> number -> number := lift2 Qcminus.
Definition mul : number -> number -> number := lift2 Qcmult.

(** [a / b]; a zero divisor would give an infinity, which the model does not
    have: the program only ever divides by the constant 4. *)
Definition div (a b : number) : number :=
  match a, b with
  | Fin x, Fin y => if decide (y = Qc_of_Z 0) then NaN else Fin (Qcdiv x y)
  | _, _ => NaN
  end.

(** Comparisons with [NaN] are false. *)
Definition ltb (a b : number) : bool :=
  match a, b with
  | Fin x, Fin y => bool_decide (Qclt x y)
  | _, _ => false
  end.

Definition gtb (a b : number) : bool := ltb b a.

Definition geb (a b : number) : bool :=
  match a, b with
  | Fin x, Fin y => bool_decide (Qcle y x)
  | _, _ => false
  end.

(** [Math.floor], [Math.ceil] *)
Definition floor (a : number) : number :=
  match a with
  | Fin x => of_Z (Qfloor x)
  | NaN => NaN
  end.

Definition ceil (a : number) : number :=
  match a with
  | Fin x => of_Z (Qceiling x)
  | NaN => NaN
  end.

(** Rounding towards zero, as used by the remainder. *)
Definition trunc (x : Qc) : Z :=
  if bool_decide (Qcle (Qc_of_Z 0) x) then Qfloor x else Qceiling x.

(** [a % b]: the result takes the sign of the dividend; [NaN] when the
    divisor is zero. *)
Definition rem (a b : number) : number :=
  match a, b with
  | Fin x, Fin y =>
      if decide (y = Qc_of_Z 0) then NaN
      else Fin (Qcminus x (Qcmult y (Qc_of_Z (trunc (Qcdiv x y)))))
  | _, _ => NaN
  end.

(** [Math.min], [Math.max] *)
Definition min (a b : number) : number :=
  match a, b with
  | Fin x, Fin y => if bool_decide (Qcle x y) then a else b
  | _, _ => NaN
  end.

Definition max (a b : number) : number :=
  match a, b with
  | Fin x, Fin y => if bool_decide (Qcle x y) then b else a
  | _, _ => NaN
  end.

(** The array index a number denotes, if it is a non-negative integer. *)
Definition to_index (a : number) : option nat :=
  match a with
  | Fin x =>
      let z := Qfloor x in
      if decide (x = Qc_of_Z z) then
        if decide (0 <= z) then Some (Z.to_nat z) else None
      else None
  | NaN => None
  end.

(** Reading a typed array: an index that is out of range (or not an index)
    reads [undefined], which every use in the program converts to [NaN]. *)
Definition read (arr : list number) (i : nat) : number :=
  match arr !! i with
  | Some v => v
  | None => NaN
  end.

Definition read_at (arr : list number) (i : number) : number :=
  match to_index i with
  | Some n => read arr n
  | None => NaN
  end.

(** Writing a typed array: a store past the end is ignored. *)
Definition write (arr : list number) (i : nat) (v : number) : list number :=
  <[i := v]> arr.

(** The order on numbers that are not [NaN]. *)
Definition le (a b : number) : Prop :=
  match a, b with
  | Fin x, Fin y => Qcle x y
  | _, _ => False
  end.

Definition lt (a b : number) : Prop :=
  match a, b with
  | Fin x, Fin y => Qclt x y
  | _, _ => False
  end.

(** How a statement (or a call) completes. *)
Inductive completion (A : Type) : Type :=
| Normal (a : A)
| Throw (msg : string).
Arguments Normal {A} a.
Arguments Throw {A} msg.

#[global] Instance number_eq_dec : EqDecision number.
Proof. solve_decision. Defined.

#[global] Instance completion_eq_dec {A} `{EqDecision A} : EqDecision (completion A).
Proof. solve_decision. Defined.

End JS.

Import JS.

(** ** Materials *)

Module RMXMaterial.

Record t : Type := mk {
  diffuse : option string;
  specular : option string;
  normal : option string
}.

(** [new RMXMaterial]: all three references are [null]. *)
Definition create : t := mk None None None.

(** [x || d] on a string-or-null: [null] and the empty string are falsy. *)
Definition or_else (x : option string) (d : string) : string :=
  match x with
  | Some s => if decide (s = "") then d else s
  | None => d
  end.

Definition hash (this : t) : string :=
  "material|" +:+ or_else (diffuse this) "" +:+ "|" +:+
  or_else (specular this) "" +:+ "|" +:+ or_else (normal this) "".

End RMXMaterial.

(** ** Bone matrix texture *)

Module RMXBoneMatrixTexture.

(** Number of bones a texture of the given width can store. *)
Definition capacity (size : number) : number :=
  let texels := mul size size in
  let texels_per_matrix := of_Z 4 in
  div texels texels_per_matrix.

(** The [while] loop of [optimalSize]; [None] when [fuel] iterations did not
    finish it. *)
Fixpoint optimalSize_loop (fuel : nat) (bones result : number)
  : option (completion number) :=
  match fuel with
  | O => None
  | S fuel' =>
      if ltb (capacity result) bones then
        let result := mul result (of_Z 2) in
        if gtb result (of_Z 2048) then Some (Throw "Too many bones")
        else optimalSize_loop fuel' bones result
      else Some (Normal result)
  end.

Definition optimalSize (fuel : nat) (bones : number) : option (completion number) :=
  optimalSize_loop fuel bones (of_Z 2).

End RMXBoneMatrixTexture.


(** ** Vectors, quaternions and the matrix library *)

(** A [Float32Array] of length 3 ([vec3.create]). *)
Record Vec3 : Type := mkVec3 { v0 : number; v1 : number; v2 : number }.

(** A [Float32Array] of length 4 ([quat.create]). *)
Record Quat : Type := mkQuat { q0 : number; q1 : number; q2 : number; q3 : number }.

(** The functions of gl-matrix the sampler calls.  The library is external:
    its matrices are kept abstract, [mat4_get m i] being the [i]-th of the 16
    floats of [m].  Every function returns the value it stores in its [out]
    argument ([mat4.copy], [vec3.set] and [quat.set] store their argument). *)
Class GLMatrix : Type := {
  Mat4 : Type;
  mat4_get : Mat4 -> nat -> number;
  mat4_fromRotationTranslation : Quat -> Vec3 -> Mat4;
  mat4_scale : Mat4 -> Vec3 -> Mat4;
  mat4_multiply : Mat4 -> Mat4 -> Mat4;
  quat_slerp : Quat -> Quat -> number -> Quat
}.

(** ** Skeleton, pose and animation *)

Module RMXBone.
Record t `{GLMatrix} : Type := mk {
  name : string;
  (** Parent bone index *)
  parent : number;
  (** Indicates whether this bone is used by the geometry *)
  skinned : bool;
  (** Inverse bind matrix *)
  inv_bind_mat : Mat4;
  (** Rest pose position, rotation and scale *)
  pos : Vec3;
  rot : Quat;
  scl : Vec3
}.
Arguments mk {_} _ _ _ _ _ _ _.
End RMXBone.

Module RMXSkeleton.
(** A skeleton whose bones are all objects; [Loaded.Skeleton] is what the
    loader can leave ([null], or bones that are [null]). *)
Record t `{GLMatrix} : Type := mk { bones : list RMXBone.t }.
Arguments mk {_} _.
End RMXSkeleton.

Module RMXPose.
Record t `{GLMatrix} : Type := mk {
  pos : list number;
  rot : list number;
  scl : list number;
  world_matrices : list Mat4
}.
Arguments mk {_} _ _ _ _.
End RMXPose.

Module RMXAnimationTrack.
(** The three channels are [null] until the loader fills them. *)
Record t : Type := mk {
  bone : number;
  pos : option (list number);
  rot : option (list number);
  scl : option (list number)
}.
Definition create : t := mk (of_Z 0) None None None.
End RMXAnimationTrack.

Module RMXAnimation.
(** [loadAnimationTrack] returns [null] for a [null] track description, so an
    entry of [tracks] is a track or [null]. *)
Record t : Type := mk {
  name : string;
  frames : number;
  fps : number;
  tracks : list (option RMXAnimationTrack.t)
}.
Definition create : t := mk "" (of_Z 0) (of_Z 0) [].
End RMXAnimation.

(** ** Loading animations *)

Module RMXModelLoader.

(** The descriptions the loader reads ([COLLADA.Exporter.*JSON]); only the
    fields the loader uses.  A description may be [null]. *)
Record DataChunkJSON : Type := mkChunk {
  byte_offset : number;
  count : number;
  stride : number
}.

Record AnimationTrackJSON : Type := mkTrackJSON {
  track_bone : number;
  track_pos : option DataChunkJSON;
  track_rot : option DataChunkJSON;
  track_scl : option DataChunkJSON
}.

Record AnimationJSON : Type := mkAnimationJSON {
  animation_name : string;
  animation_frames : number;
  animation_fps : number;
  animation_tracks : list (option AnimationTrackJSON)
}.

Section Loader.
(** [new Float32Array(data, byteOffset, length)]: the view of the binary
    payload, which is outside the model. *)
Variable ArrayBuffer : Type.
Variable Float32Array_view : ArrayBuffer -> number -> number -> list number.

Definition loadFloatData (json : option DataChunkJSON) (data : ArrayBuffer)
  : option (list number) :=
  match json with
  | Some json =>
      Some (Float32Array_view data (byte_offset json) (mul (count json) (stride json)))
  | None => None
  end.

Definition loadAnimationTrack (json : option AnimationTrackJSON) (data : ArrayBuffer)
  : option RMXAnimationTrack.t :=
  match json with
  | None => None
  | Some json =>
      Some (RMXAnimationTrack.mk (track_bone json)
              (loadFloatData (track_pos json) data)
              (loadFloatData (track_rot json) data)
              (loadFloatData (track_scl json) data))
  end.

Definition loadAnimation (json : option AnimationJSON) (data : ArrayBuffer)
  : option RMXAnimation.t :=
  match json with
  | None => None
  | Some json =>
      Some (RMXAnimation.mk (animation_name json) (animation_frames json)
              (animation_fps json)
              (map (fun track => loadAnimationTrack track data) (animation_tracks json)))
  end.

End Loader.
End RMXModelLoader.

(** ** Skeletal animation *)

Module RMXSkeletalAnimation.
Section Sampler.
Context `{GL : GLMatrix}.

(** The static scratch registers of the class. *)
Record Scratch : Type := mkScratch {
  mat1 : Mat4;
  mat2 : Mat4;
  vec1 : Vec3;
  vec2 : Vec3;
  quat1 : Quat;
  quat2 : Quat
}.

Definition set_mat1 (m : Mat4) (s : Scratch) : Scratch :=
  mkScratch m (mat2 s) (vec1 s) (vec2 s) (quat1 s) (quat2 s).
Definition set_vec1 (v : Vec3) (s : Scratch) : Scratch :=
  mkScratch (mat1 s) (mat2 s) v (vec2 s) (quat1 s) (quat2 s).
Definition set_quat1 (q : Quat) (s : Scratch) : Scratch :=
  mkScratch (mat1 s) (mat2 s) (vec1 s) (vec2 s) q (quat2 s).
Definition set_quat2 (q : Quat) (s : Scratch) : Scratch :=
  mkScratch (mat1 s) (mat2 s) (vec1 s) (vec2 s) (quat1 s) q.

Definition set_world_matrices (w : list Mat4) (p : RMXPose.t) : RMXPose.t :=
  RMXPose.mk (RMXPose.pos p) (RMXPose.rot p) (RMXPose.scl p) w.

(** What a call leaves behind: the scratch registers, the pose and the
    destination buffer. *)
Definition ExportState : Type := (Scratch * RMXPose.t * list number)%type.

(** [for (var i = 0; i < 16; ++i) dest[b * 16 + i] = mat1[i]] *)
Definition write_matrix (dest : list number) (b : nat) (m : Mat4) : list number :=
  foldl (fun d i => write d (b * 16 + i) (mat4_get m i)) dest (seq 0 16).

(** The body of the loop of [exportPose] for bone number [b]. *)
Definition exportPose_bone (b : nat) (bone : RMXBone.t) (st : ExportState)
  : completion unit * ExportState :=
  let '(scr, pose, dest) := st in
  let world_matrices := RMXPose.world_matrices pose in
  let world_matrix := world_matrices !! b in
  let pos := RMXPose.pos pose in
  let rot := RMXPose.rot pose in
  let scl := RMXPose.scl pose in
  (* Local matrix *)
  let scr := set_vec1 (mkVec3 (read pos (b * 3 + 0)) (read pos (b * 3 + 1))
                              (read pos (b * 3 + 2))) scr in
  let scr := set_quat1 (mkQuat (read rot (b * 4 + 0)) (read rot (b * 4 + 1))
                               (read rot (b * 4 + 2)) (read rot (b * 4 + 3))) scr in
  let scr := set_mat1 (mat4_fromRotationTranslation (quat1 scr) (vec1 scr)) scr in
  let scr := set_vec1 (mkVec3 (read scl (b * 3 + 0)) (read scl (b * 3 + 1))
                              (read scl (b * 3 + 2))) scr in
  let scr := set_mat1 (mat4_scale (mat1 scr) (vec1 scr)) scr in
  (* World matrix *)
  let new_world : option Mat4 :=
    if geb (RMXBone.parent bone) (of_Z 0) then
      match to_index (RMXBone.parent bone) ≫= (world_matrices !!.) with
      | Some parent_world => Some (mat4_multiply parent_world (mat1 scr))
      | None => None
      end
    else Some (mat1 scr) in
  match world_matrix, new_world with
  | Some _, Some w =>
      let pose := set_world_matrices (<[b := w]> world_matrices) pose in
      (* Bone matrices raw data *)
      let scr := set_mat1 (mat4_multiply w (RMXBone.inv_bind_mat bone)) scr in
      (Normal (), (scr, pose, write_matrix dest b (mat1 scr)))
  | _, _ => (Throw "TypeError", (scr, pose, dest))
  end.

(** The loop over all bones, from bone number [b] on. *)
Fixpoint exportPose_loop (bones : list RMXBone.t) (b : nat) (st : ExportState)
  : completion unit * ExportState :=
  match bones with
  | [] => (Normal (), st)
  | bone :: bones' =>
      match exportPose_bone b bone st with
      | (Normal _, st') => exportPose_loop bones' (S b) st'
      | thrown => thrown
      end
  end.

Definition exportPose (skeleton : RMXSkeleton.t) (scr : Scratch)
    (pose : RMXPose.t) (dest : list number) : completion unit * ExportState :=
  exportPose_loop (RMXSkeleton.bones skeleton) 0 (scr, pose, dest).

(** Three (four) consecutive stores into a typed array. *)
Definition write_vec3 (dest : list number) (i : nat) (v : Vec3) : list number :=
  write (write (write dest (i + 0) (v0 v)) (i + 1) (v1 v)) (i + 2) (v2 v).

Definition write_quat (dest : list number) (i : nat) (q : Quat) : list number :=
  write (write (write (write dest (i + 0) (q0 q)) (i + 1) (q1 q)) (i + 2) (q2 q))
        (i + 3) (q3 q).

Definition resetPose_bone (b : nat) (bone : RMXBone.t) (pose : RMXPose.t) : RMXPose.t :=
  let b3 := (b * 3)%nat in
  let b4 := (b * 4)%nat in
  RMXPose.mk (write_vec3 (RMXPose.pos pose) b3 (RMXBone.pos bone))
             (write_quat (RMXPose.rot pose) b4 (RMXBone.rot bone))
             (write_vec3 (RMXPose.scl pose) b3 (RMXBone.scl bone))
             (RMXPose.world_matrices pose).

Fixpoint resetPose_loop (bones : list RMXBone.t) (b : nat) (pose : RMXPose.t) : RMXPose.t :=
  match bones with
  | [] => pose
  | bone :: bones' => resetPose_loop bones' (S b) (resetPose_bone b bone pose)
  end.

Definition resetPose (skeleton : RMXSkeleton.t) (pose : RMXPose.t) : RMXPose.t :=
  resetPose_loop (RMXSkeleton.bones skeleton) 0 pose.

(** The frame indices and weights computed before the loop of
    [sampleAnimation]. *)
Record Sample : Type := mkSample {
  f13 : number; f14 : number; f23 : number; f24 : number;
  s1 : number; s2 : number
}.

Definition sample_frame (frames frame : number) : Sample :=
  let looped := true in
  let frame :=
    if looped then rem frame frames
    else max (min frame (sub frames (of_Z 1))) (of_Z 0) in
  let f1 := floor frame in
  let f1 := rem f1 frames in
  let f2 := ceil frame in
  let f2 := rem f2 frames in
  let s2 := sub frame (floor frame) in
  let s1 := sub (of_Z 1) s2 in
  mkSample (mul f1 (of_Z 3)) (mul f1 (of_Z 4)) (mul f2 (of_Z 3)) (mul f2 (of_Z 4)) s1 s2.

(** [s1 * track[f13 + k] + s2 * track[f23 + k]] *)
Definition lerp_at (sm : Sample) (track : list number) (k : Z) : number :=
  add (mul (s1 sm) (read_at track (add (f13 sm) (of_Z k))))
      (mul (s2 sm) (read_at track (add (f23 sm) (of_Z k)))).

Definition quat_at (track : list number) (f : number) : Quat :=
  mkQuat (read_at track (add f (of_Z 0))) (read_at track (add f (of_Z 1)))
         (read_at track (add f (of_Z 2))) (read_at track (add f (of_Z 3))).

Definition SampleState : Type := (Scratch * RMXPose.t)%type.

(** The body of the loop of [sampleAnimation] for bone number [b];
    [track] is [tracks[b]]: [None] when it is [undefined], [Some None] when
    it is [null]. *)
Definition sampleAnimation_bone (sm : Sample) (b : nat)
    (track : option (option RMXAnimationTrack.t)) (bone : RMXBone.t)
    (st : SampleState) : completion unit * SampleState :=
  let '(scr, pose) := st in
  let b3 := (b * 3)%nat in
  let b4 := (b * 4)%nat in
  match track with
  | Some (Some track) =>
      let track_pos := RMXAnimationTrack.pos track in
      let track_rot := RMXAnimationTrack.rot track in
      let track_scl := RMXAnimationTrack.scl track in
      let bone_pos := RMXBone.pos bone in
      let bone_rot := RMXBone.rot bone in
      let bone_scl := RMXBone.scl bone in
      (* Position (linear interpolation) *)
      let dest_pos :=
        match track_pos with
        | Some track_pos =>
            write_vec3 (RMXPose.pos pose) b3
              (mkVec3 (lerp_at sm track_pos 0) (lerp_at sm track_pos 1)
                      (lerp_at sm track_pos 2))
        | None => write_vec3 (RMXPose.pos pose) b3 bone_pos
        end in
      (* Rotation (quaternion spherical interpolation) *)
      let '(scr, dest_rot) :=
        match track_rot with
        | Some track_rot =>
            let scr := set_quat1 (quat_at track_rot (f14 sm)) scr in
            let scr := set_quat2 (quat_at track_rot (f24 sm)) scr in
            let scr := set_quat1 (quat_slerp (quat1 scr) (quat2 scr) (s2 sm)) scr in
            (scr, write_quat (RMXPose.rot pose) b4 (quat1 scr))
        | None => (scr, write_quat (RMXPose.rot pose) b4 bone_rot)
        end in
      (* Scale (linear interpolation) *)
      let dest_scl :=
        match track_scl with
        | Some track_scl =>
            write_vec3 (RMXPose.scl pose) b3
              (mkVec3 (lerp_at sm track_scl 0) (lerp_at sm track_scl 1)
                      (lerp_at sm track_scl 2))
        | None => write_vec3 (RMXPose.scl pose) b3 bone_scl
        end in
      (Normal (),
       (scr, RMXPose.mk dest_pos dest_rot dest_scl (RMXPose.world_matrices pose)))
  | _ => (Throw "TypeError", (scr, pose))
  end.

Fixpoint sampleAnimation_loop (sm : Sample)
    (tracks : list (option RMXAnimationTrack.t)) (bones : list RMXBone.t)
    (b : nat) (st : SampleState) : completion unit * SampleState :=
  match bones with
  | [] => (Normal (), st)
  | bone :: bones' =>
      match sampleAnimation_bone sm b (tracks !! b) bone st with
      | (Normal _, st') => sampleAnimation_loop sm tracks bones' (S b) st'
      | thrown => thrown
      end
  end.

(** Sample the animation, store the result in pose *)
Definition sampleAnimation (animation : RMXAnimation.t) (skeleton : RMXSkeleton.t)
    (frame : number) (scr : Scratch) (pose : RMXPose.t)
  : completion unit * SampleState :=
  let sm := sample_frame (RMXAnimation.frames animation) frame in
  sampleAnimation_loop sm (RMXAnimation.tracks animation)
    (RMXSkeleton.bones skeleton) 0 (scr, pose).

End Sampler.
End RMXSkeletalAnimation.

(** ** The <source> parser *)

Module Loader.

Inductive LogLevel : Type := Warning | Error | Exception.

#[local] Set Warnings "-register-all".

(** An element of the already parsed document: name, attributes, text
    content and element children. *)
Inductive Node : Type :=
| mkNode (nodeName : string) (attributes : list (string * string))
         (textContent : string) (childNodes : list Node).

Definition nodeName (n : Node) : string := let '(mkNode x _ _ _) := n in x.
Definition attributes (n : Node) : list (string * string) :=
  let '(mkNode _ x _ _) := n in x.
Definition textContent (n : Node) : string := let '(mkNode _ _ x _) := n in x.
Definition childNodes (n : Node) : list Node := let '(mkNode _ _ _ x) := n in x.

(** The loader context (loader/context.ts) and its log are not part of the
    sources at hand: the parser is written against this interface.  A call
    either returns a value or throws, and leaves a new context. *)
Class ContextOps : Type := {
  Context : Type;
  SourceData : Type;
  log_write : string -> LogLevel -> Context -> Context;
  getAttributeAsString :
    Node -> string -> option string -> bool -> Context ->
    completion (option string) * Context;
  getAttributeAsInt :
    Node -> string -> number -> bool -> Context -> completion number * Context;
  registerUrlTarget : option string -> bool -> Context -> completion unit * Context;
  getBoolsContent : Node -> Context -> completion SourceData * Context;
  getFloatsContent : Node -> Context -> completion SourceData * Context;
  getIntsContent : Node -> Context -> completion SourceData * Context;
  getStringsContent : Node -> Context -> completion SourceData * Context;
  reportUnhandledChild : Node -> Context -> completion unit * Context;
  reportUnexpectedChild : Node -> Context -> completion unit * Context
}.

Section Parser.
Context `{Ops : ContextOps}.

(** Computations that read and update the context and may throw. *)
Definition M (A : Type) : Type := Context -> completion A * Context.

#[global] Instance M_ret : MRet M := fun A a c => (Normal a, c).

#[global] Instance M_bind : MBind M := fun A B k m c =>
  match m c with
  | (Normal a, c') => k a c'
  | (Throw msg, c') => (Throw msg, c')
  end.

Definition write_log (msg : string) (level : LogLevel) : M unit :=
  fun c => (Normal (), log_write msg level c).

(** [Utils.forEachChild]: the callback runs on every child in document
    order; here it threads the object it mutates. *)
Fixpoint forEach {A} (children : list Node) (fn : Node -> A -> M A) (a : A) : M A :=
  match children with
  | [] => mret a
  | child :: rest => a' ← fn child a; forEach rest fn a'
  end.

Definition forEachChild {A} (node : Node) (fn : Node -> A -> M A) (a : A) : M A :=
  forEach (childNodes node) fn a.

(** String concatenation with a value that may be [null]. *)
Definition str (s : option string) : string := default "null" s.

Record Source : Type := mkSource {
  id : option string;
  name : option string;
  sourceId : option string;
  count : option number;
  stride : option number;
  offset : option number;
  data : option SourceData;
  params : gmap string string
}.

(** [new COLLADA.Loader.Source()] *)
Definition Source_new : Source := mkSource None None None None None None None ∅.

Definition set_id (i n : option string) (s : Source) : Source :=
  mkSource i n (sourceId s) (count s) (stride s) (offset s) (data s) (params s).

Definition set_array (sid : option string) (d : SourceData) (s : Source) : Source :=
  mkSource (id s) (name s) sid (count s) (stride s) (offset s) (Some d) (params s).

Definition set_accessor (c st o : number) (s : Source) : Source :=
  mkSource (id s) (name s) (sourceId s) (Some c) (Some st) (Some o) (data s) (params s).

(** [source.params[key] = type] on the plain object [params].  The key
    "__proto__" names the accessor every object inherits, whose setter
    ignores a string: no key is stored. *)
Definition set_param (key type : string) (s : Source) : Source :=
  if decide (key = "__proto__") then s
  else mkSource (id s) (name s) (sourceId s) (count s) (stride s) (offset s) (data s)
                (<[key := type]> (params s)).

(** Parses a <source>/<technique_common>/<accessor>/<param> element *)
Definition parseAccessorParam (node : Node) (source : Source) : M Source :=
  name ← getAttributeAsString node "name" None false;
  semantic ← getAttributeAsString node "semantic" None false;
  type ← getAttributeAsString node "type" None true;
  sid ← getAttributeAsString node "sid" None false;
  match name, semantic, type with
  | Some name, _, Some type => mret (set_param name type source)
  | None, Some semantic, Some type => mret (set_param semantic type source)
  | None, None, Some type =>
      (* Both name and semantic are optional *)
      mret (set_param ("unnamed param #" +:+ pretty (size (params source))) type source)
  | _, _, None =>
      (* Type is required *)
      write_log ("Accessor param for source " +:+ str (id source) +:+
                 " ignored due to missing type") Warning ;;
      mret source
  end.

Definition nonlocal_message (source : Source) : string :=
  "Source " +:+ str (id source) +:+
  " uses a non-local data source, this is not supported".

(** Parses a <source>/<technique_common>/<accessor> element *)
Definition parseAccessor (node : Node) (source : Source) : M Source :=
  sourceId' ← getAttributeAsString node "source" None true;
  c ← getAttributeAsInt node "count" (of_Z 0) true;
  st ← getAttributeAsInt node "stride" (of_Z 1) false;
  o ← getAttributeAsInt node "offset" (of_Z 0) false;
  let source := set_accessor c st o source in
  (if decide (sourceId' = Some ("#" +:+ str (sourceId source))) then mret ()
   else write_log (nonlocal_message source) Error) ;;
  forEachChild node (fun child source =>
    if decide (nodeName child = "param") then parseAccessorParam child source
    else (reportUnexpectedChild child ;; mret source)) source.

(** Parses a <source>/<technique_common> element *)
Definition parseSourceTechniqueCommon (node : Node) (source : Source) : M Source :=
  forEachChild node (fun child source =>
    if decide (nodeName child = "accessor") then parseAccessor child source
    else (reportUnexpectedChild child ;; mret source)) source.

Definition parse_array (content : Node -> M SourceData) (child : Node)
    (result : Source) : M Source :=
  sid ← getAttributeAsString child "id" None false;
  d ← content child;
  mret (set_array sid d result).

Definition parse_child (child : Node) (result : Source) : M Source :=
  let n := nodeName child in
  if decide (n = "bool_array") then parse_array getBoolsContent child result
  else if decide (n = "float_array") then parse_array getFloatsContent child result
  else if decide (n = "int_array") then parse_array getIntsContent child result
  else if decide (n = "IDREF_array" \/ n = "Name_array") then
    parse_array getStringsContent child result
  else if decide (n = "technique_common") then parseSourceTechniqueCommon child result
  else if decide (n = "technique") then (reportUnhandledChild child ;; mret result)
  else (reportUnexpectedChild child ;; mret result).

(** Parses a <source> element *)
Definition parse (node : Node) : M Source :=
  id ← getAttributeAsString node "id" None true;
  name ← getAttributeAsString node "name" None false;
  let result := set_id id name Source_new in
  registerUrlTarget id true ;;
  forEachChild node parse_child result.

(** The last statement of [parseAccessor]: the loop over the children of
    the accessor. *)
Definition parseAccessor_children (node : Node) (source : Source) : M Source :=
  forEachChild node (fun child source =>
    if decide (nodeName child = "param") then parseAccessorParam child source
    else (reportUnexpectedChild child ;; mret source)) source.

End Parser.
End Loader.

(** ** Reference instances of the two interfaces *)

Module Reference.

(** Modelled from the spec: gl-matrix, which is not among the sources.
    Matrices are the 16 floats of the upload contract, row-major: [entry a r c]
    is row [r], column [c].  The library itself holds a matrix column by
    column ([glMatrix]); this instance serves the statements that hold for
    every matrix library. *)
Definition entry (a : list number) (r c : nat) : number := read a (r * 4 + c).

(** Modelled from the spec: [mat4.multiply], the matrix product [a . b]. *)
Definition multiply (a b : list number) : list number :=
  map (fun i =>
         let r := (i / 4)%nat in
         let c := (i mod 4)%nat in
         add (add (mul (entry a r 0) (entry b 0 c)) (mul (entry a r 1) (entry b 1 c)))
             (add (mul (entry a r 2) (entry b 2 c)) (mul (entry a r 3) (entry b 3 c))))
      (seq 0 16).

(** Modelled from the spec: [mat4.fromRotationTranslation], the rotation of
    quaternion [q] with translation [v] in the fourth column. *)
Definition fromRotationTranslation (q : Quat) (v : Vec3) : list number :=
  let x := q0 q in let y := q1 q in let z := q2 q in let w := q3 q in
  let x2 := add x x in let y2 := add y y in let z2 := add z z in
  let xx := mul x x2 in let xy := mul x y2 in let xz := mul x z2 in
  let yy := mul y y2 in let yz := mul y z2 in let zz := mul z z2 in
  let wx := mul w x2 in let wy := mul w y2 in let wz := mul w z2 in
  let one := of_Z 1 in let zero := of_Z 0 in
  [ sub one (add yy zz); sub xy wz; add xz wy; v0 v;
    add xy wz; sub one (add xx zz); sub yz wx; v1 v;
    sub xz wy; add yz wx; sub one (add xx yy); v2 v;
    zero; zero; zero; one ].

(** Modelled from the spec: [mat4.scale], the product of [a] with the
    diagonal scale of [v]. *)
Definition scale (a : list number) (v : Vec3) : list number :=
  map (fun i =>
         let c := (i mod 4)%nat in
         let f := match c with
                  | O => v0 v | 1%nat => v1 v | 2%nat => v2 v | _ => of_Z 1
                  end in
         mul (read a i) f)
      (seq 0 16).

(** Modelled from the spec: [quat.slerp].  The spherical interpolation needs
    a sine and an arc cosine, which rationals do not have: this is the
    linear blend with weights [1 - t] and [t]. *)
Definition blend (a b : Quat) (t : number) : Quat :=
  let scale0 := sub (of_Z 1) t in
  let scale1 := t in
  mkQuat (add (mul scale0 (q0 a)) (mul scale1 (q0 b)))
         (add (mul scale0 (q1 a)) (mul scale1 (q1 b)))
         (add (mul scale0 (q2 a)) (mul scale1 (q2 b)))
         (add (mul scale0 (q3 a)) (mul scale1 (q3 b))).

(** Modelled from the spec: the gl-matrix functions above as an instance of
    the interface. *)
Definition gl : GLMatrix := {|
  Mat4 := list number;
  mat4_get := read;
  mat4_fromRotationTranslation := fromRotationTranslation;
  mat4_scale := scale;
  mat4_multiply := multiply;
  quat_slerp := blend
|}.

(** [mat4.create]: the identity. *)
Definition identity : list number :=
  map of_Z [1; 0; 0; 0;  0; 1; 0; 0;  0; 0; 1; 0;  0; 0; 0; 1].

Import Loader.

(** Modelled from the spec: the loader context of loader/context.ts and the
    log of log.ts, which are not among the sources.  The context keeps the
    log and the registered ids. *)
Record Ctx : Type := mkCtx {
  log : list (string * LogLevel);
  targets : list string
}.

(** Modelled from the spec: [log.write], appending to the log. *)
Definition ctx_log (msg : string) (level : LogLevel) (c : Ctx) : Ctx :=
  mkCtx (log c ++ [(msg, level)]) (targets c).

Definition lookup_attr (node : Node) (name : string) : option string :=
  (snd ∘ snd) <$> list_find (fun kv => fst kv = name) (attributes node).

(** Modelled from the spec: [getAttributeAsString]; a missing required
    attribute is a fatal parse error (section 7). *)
Definition attr_string (node : Node) (name : string) (d : option string)
    (required : bool) (c : Ctx) : completion (option string) * Ctx :=
  match lookup_attr node name with
  | Some v => (Normal (Some v), c)
  | None =>
      if required then
        (Throw ("Element " +:+ nodeName node +:+
                " is missing the required attribute " +:+ name), c)
      else (Normal d, c)
  end.

Definition digit (a : ascii) : option Z :=
  let n := Z.of_nat (nat_of_ascii a) in
  if decide (48 <= n <= 57) then Some (n - 48) else None.

Fixpoint digits (s : string) (acc : Z) : option Z :=
  match s with
  | EmptyString => Some acc
  | String a s' =>
      match digit a with
      | Some d => digits s' (10 * acc + d)
      | None => None
      end
  end.

(** A decimal integer; anything else reads as [NaN]. *)
Definition read_int (s : string) : number :=
  match s with
  | EmptyString => NaN
  | String "-" s' =>
      match s' with
      | EmptyString => NaN
      | _ => match digits s' 0 with Some z => of_Z (- z) | None => NaN end
      end
  | _ => match digits s 0 with Some z => of_Z z | None => NaN end
  end.

(** Modelled from the spec: [getAttributeAsInt], as [getAttributeAsString]. *)
Definition attr_int (node : Node) (name : string) (d : number)
    (required : bool) (c : Ctx) : completion number * Ctx :=
  match lookup_attr node name with
  | Some v => (Normal (read_int v), c)
  | None =>
      if required then
        (Throw ("Element " +:+ nodeName node +:+
                " is missing the required attribute " +:+ name), c)
      else (Normal d, c)
  end.

(** Modelled from the spec: [registerUrlTarget], recording the declared id. *)
Definition register (id : option string) (needsId : bool) (c : Ctx)
  : completion unit * Ctx :=
  match id with
  | Some i => (Normal (), mkCtx (log c) (targets c ++ [i]))
  | None => (Normal (), c)
  end.

(** Modelled from the spec: the readers of array contents; the decoded
    array is kept as the text of the element. *)
Definition content (node : Node) (c : Ctx) : completion string * Ctx :=
  (Normal (textContent node), c).

(** Modelled from the spec: an unrecognised child element is logged as a
    warning and skipped (section 7). *)
Definition report (what : string) (node : Node) (c : Ctx) : completion unit * Ctx :=
  (Normal (), ctx_log (what +:+ " child element " +:+ nodeName node) Warning c).

(** Modelled from the spec: the context functions above as an instance of
    the interface. *)
Definition ops : ContextOps := {|
  Context := Ctx;
  SourceData := string;
  log_write := ctx_log;
  getAttributeAsString := attr_string;
  getAttributeAsInt := attr_int;
  registerUrlTarget := register;
  getBoolsContent := content;
  getFloatsContent := content;
  getIntsContent := content;
  getStringsContent := content;
  reportUnhandledChild := report "Unhandled";
  reportUnexpectedChild := report "Unexpected"
|}.

End Reference.

(** ** Vocabulary of the specification *)

Module Spec.

(** The [k]-th power of two, as a texture side. *)
Definition side (k : nat) : number := of_Z (2 ^ Z.of_nat k).

(** The identity of a material as the hash sees it: [null] and the empty
    string are the same reference. *)
Definition key (m : RMXMaterial.t) : string * string * string :=
  (RMXMaterial.or_else (RMXMaterial.diffuse m) "",
   RMXMaterial.or_else (RMXMaterial.specular m) "",
   RMXMaterial.or_else (RMXMaterial.normal m) "").

(** No occurrence of the separator of the hash. *)
Fixpoint bar_free (s : string) : Prop :=
  match s with
  | EmptyString => True
  | String a s' => a <> "|"%char /\ bar_free s'
  end.

(** The hash lists the references in the order diffuse, specular, normal:
    only the first two are followed by a separator. *)
Definition sep_free (m : RMXMaterial.t) : Prop :=
  bar_free (RMXMaterial.or_else (RMXMaterial.diffuse m) "") /\
  bar_free (RMXMaterial.or_else (RMXMaterial.specular m) "").

Section Skeleton.
Context `{GL : GLMatrix}.

(** Parent-before-child order: the parent index of bone [b] is -1 or the
    index of an earlier bone. *)
Definition topological (bones : list RMXBone.t) : Prop :=
  forall b bone, bones !! b = Some bone ->
    RMXBone.parent bone = of_Z (-1) \/
    exists p, RMXBone.parent bone = of_nat p /\ (p < b)%nat.

(** The local matrix of bone [b]: built from the translation, rotation and
    scale the pose holds for it. *)
Definition local_matrix (pose : RMXPose.t) (b : nat) : Mat4 :=
  let pos := RMXPose.pos pose in
  let rot := RMXPose.rot pose in
  let scl := RMXPose.scl pose in
  mat4_scale
    (mat4_fromRotationTranslation
       (mkQuat (read rot (b * 4 + 0)) (read rot (b * 4 + 1)) (read rot (b * 4 + 2))
               (read rot (b * 4 + 3)))
       (mkVec3 (read pos (b * 3 + 0)) (read pos (b * 3 + 1)) (read pos (b * 3 + 2))))
    (mkVec3 (read scl (b * 3 + 0)) (read scl (b * 3 + 1)) (read scl (b * 3 + 2))).

(** The world matrix of a bone: its local matrix for a root, the parent's
    world matrix times its local matrix otherwise. *)
Inductive world (bones : list RMXBone.t) (pose : RMXPose.t) : nat -> Mat4 -> Prop :=
| world_root b bone :
    bones !! b = Some bone ->
    RMXBone.parent bone = of_Z (-1) ->
    world bones pose b (local_matrix pose b)
| world_child b bone p wp :
    bones !! b = Some bone ->
    RMXBone.parent bone = of_nat p ->
    world bones pose p wp ->
    world bones pose b (mat4_multiply wp (local_matrix pose b)).

(** What [exportPose] has established for the bones below [n] once its loop
    has passed them. *)
Definition exported (bones : list RMXBone.t) (pose0 : RMXPose.t) (n : nat)
    (pose : RMXPose.t) (dest : list number) : Prop :=
  forall b bone, (b < n)%nat -> bones !! b = Some bone ->
    exists w, world bones pose0 b w /\
      RMXPose.world_matrices pose !! b = Some w /\
      forall i, (i < 16)%nat ->
        dest !! (b * 16 + i)%nat =
        Some (mat4_get (mat4_multiply w (RMXBone.inv_bind_mat bone)) i).

(** The components of a vector and of a quaternion, by index. *)
Definition vec3_get (v : Vec3) (k : nat) : number :=
  match k with O => v0 v | 1%nat => v1 v | _ => v2 v end.

Definition quat_get (q : Quat) (k : nat) : number :=
  match k with O => q0 q | 1%nat => q1 q | 2%nat => q2 q | _ => q3 q end.

(** The quaternion read from a rotation channel at a frame that is [NaN]. *)
Definition nanq : Quat := mkQuat NaN NaN NaN NaN.

(** What [sampleAnimation] is to store for a bone with the given track:
    the interpolated keyframes of a channel that is present, the rest value
    of the bone for a channel that is [null]. *)
Definition sampled_pos (sm : RMXSkeletalAnimation.Sample)
    (track : RMXAnimationTrack.t) (bone : RMXBone.t) : Vec3 :=
  match RMXAnimationTrack.pos track with
  | Some a => mkVec3 (RMXSkeletalAnimation.lerp_at sm a 0)
                     (RMXSkeletalAnimation.lerp_at sm a 1)
                     (RMXSkeletalAnimation.lerp_at sm a 2)
  | None => RMXBone.pos bone
  end.

Definition sampled_rot (sm : RMXSkeletalAnimation.Sample)
    (track : RMXAnimationTrack.t) (bone : RMXBone.t) : Quat :=
  match RMXAnimationTrack.rot track with
  | Some a =>
      quat_slerp (RMXSkeletalAnimation.quat_at a (RMXSkeletalAnimation.f14 sm))
                 (RMXSkeletalAnimation.quat_at a (RMXSkeletalAnimation.f24 sm))
                 (RMXSkeletalAnimation.s2 sm)
  | None => RMXBone.rot bone
  end.

Definition sampled_scl (sm : RMXSkeletalAnimation.Sample)
    (track : RMXAnimationTrack.t) (bone : RMXBone.t) : Vec3 :=
  match RMXAnimationTrack.scl track with
  | Some a => mkVec3 (RMXSkeletalAnimation.lerp_at sm a 0)
                     (RMXSkeletalAnimation.lerp_at sm a 1)
                     (RMXSkeletalAnimation.lerp_at sm a 2)
  | None => RMXBone.scl bone
  end.

(** The scratch registers after the body of the loop of [sampleAnimation]. *)
Definition scratch_after (sm : RMXSkeletalAnimation.Sample)
    (track : RMXAnimationTrack.t) (bone : RMXBone.t)
    (scr : RMXSkeletalAnimation.Scratch) : RMXSkeletalAnimation.Scratch :=
  match RMXAnimationTrack.rot track with
  | Some a =>
      RMXSkeletalAnimation.set_quat1 (sampled_rot sm track bone)
        (RMXSkeletalAnimation.set_quat2
           (RMXSkeletalAnimation.quat_at a (RMXSkeletalAnimation.f24 sm)) scr)
  | None => scr
  end.

(** Every bone of the skeleton has a track that is not [null]. *)
Definition tracks_cover (tracks : list (option RMXAnimationTrack.t))
    (bones : list RMXBone.t) : Prop :=
  forall b, (b < length bones)%nat -> exists t, tracks !! b = Some (Some t).

(** The pose has room for the bones, as [new RMXPose(bones)] allocates it. *)
Definition pose_fits (pose : RMXPose.t) (bones : list RMXBone.t) : Prop :=
  (length bones * 3 <= length (RMXPose.pos pose))%nat /\
  (length bones * 4 <= length (RMXPose.rot pose))%nat /\
  (length bones * 3 <= length (RMXPose.scl pose))%nat /\
  (length bones <= length (RMXPose.world_matrices pose))%nat.

End Skeleton.

(** Two tracks with the same channels; the [bone] fields are not compared. *)
Definition same_channels (t1 t2 : RMXAnimationTrack.t) : Prop :=
  RMXAnimationTrack.pos t1 = RMXAnimationTrack.pos t2 /\
  RMXAnimationTrack.rot t1 = RMXAnimationTrack.rot t2 /\
  RMXAnimationTrack.scl t1 = RMXAnimationTrack.scl t2.

(** Two animations that differ at most in the [bone] fields of their
    tracks. *)
Definition same_up_to_bone (a1 a2 : RMXAnimation.t) : Prop :=
  RMXAnimation.name a1 = RMXAnimation.name a2 /\
  RMXAnimation.frames a1 = RMXAnimation.frames a2 /\
  RMXAnimation.fps a1 = RMXAnimation.fps a2 /\
  Forall2 (option_Forall2 same_channels)
          (RMXAnimation.tracks a1) (RMXAnimation.tracks a2).

End Spec.

(** ** The matrix library *)

Module glMatrix.

(** gl-matrix, the library behind [mat4], [vec3] and [quat], is not among
    the sources (src/external/gl-matrix.i.ts declares its types).  These
    are the three functions of [mat4] the exporter computes with, as the
    library defines them.  A matrix is a [Float32Array] of 16 floats that
    holds its columns one after the other: float [4 c + r] is row [r] of
    column [c]. *)

Section Arithmetic.
(** The arithmetic the library computes with: [+], [-] and [*], and the
    rounding of a computed number that is stored into a [Float32Array].
    They are parameters: [JS.add], [JS.sub], [JS.mul] and no rounding are
    the exact instance. *)
Variable plus minus times : number -> number -> number.
Variable store : number -> number.

(** [mat4.fromRotationTranslation(out, q, v)] *)
Definition fromRotationTranslation (q : Quat) (v : Vec3) : list number :=
  (* Quaternion math *)
  let x := q0 q in let y := q1 q in let z := q2 q in let w := q3 q in
  let x2 := plus x x in let y2 := plus y y in let z2 := plus z z in
  let xx := times x x2 in let xy := times x y2 in let xz := times x z2 in
  let yy := times y y2 in let yz := times y z2 in let zz := times z z2 in
  let wx := times w x2 in let wy := times w y2 in let wz := times w z2 in
  [ store (minus (of_Z 1) (plus yy zz)); store (plus xy wz); store (minus xz wy);
    of_Z 0;
    store (minus xy wz); store (minus (of_Z 1) (plus xx zz)); store (plus yz wx);
    of_Z 0;
    store (plus xz wy); store (minus yz wx); store (minus (of_Z 1) (plus xx yy));
    of_Z 0;
    v0 v; v1 v; v2 v; of_Z 1 ].

(** [mat4.scale(out, a, v)] *)
Definition scale (a : list number) (v : Vec3) : list number :=
  let x := v0 v in let y := v1 v in let z := v2 v in
  [ store (times (read a 0) x); store (times (read a 1) x);
    store (times (read a 2) x); store (times (read a 3) x);
    store (times (read a 4) y); store (times (read a 5) y);
    store (times (read a 6) y); store (times (read a 7) y);
    store (times (read a 8) z); store (times (read a 9) z);
    store (times (read a 10) z); store (times (read a 11) z);
    read a 12; read a 13; read a 14; read a 15 ].

(** One column of [mat4.multiply]: [b0 .. b3] is the column of [b]. *)
Definition multiply_column (a : list number) (b0 b1 b2 b3 : number) : list number :=
  let a00 := read a 0 in let a01 := read a 1 in
  let a02 := read a 2 in let a03 := read a 3 in
  let a10 := read a 4 in let a11 := read a 5 in
  let a12 := read a 6 in let a13 := read a 7 in
  let a20 := read a 8 in let a21 := read a 9 in
  let a22 := read a 10 in let a23 := read a 11 in
  let a30 := read a 12 in let a31 := read a 13 in
  let a32 := read a 14 in let a33 := read a 15 in
  [ store (plus (plus (plus (times b0 a00) (times b1 a10)) (times b2 a20))
                (times b3 a30));
    store (plus (plus (plus (times b0 a01) (times b1 a11)) (times b2 a21))
                (times b3 a31));
    store (plus (plus (plus (times b0 a02) (times b1 a12)) (times b2 a22))
                (times b3 a32));
    store (plus (plus (plus (times b0 a03) (times b1 a13)) (times b2 a23))
                (times b3 a33)) ].

(** [mat4.multiply(out, a, b)] *)
Definition multiply (a b : list number) : list number :=
  multiply_column a (read b 0) (read b 1) (read b 2) (read b 3) ++
  multiply_column a (read b 4) (read b 5) (read b 6) (read b 7) ++
  multiply_column a (read b 8) (read b 9) (read b 10) (read b 11) ++
  multiply_column a (read b 12) (read b 13) (read b 14) (read b 15).

(** The library as an instance of the interface.  [quat.slerp] computes
    with a sine and an arc cosine and stays a parameter. *)
Definition gl (slerp : Quat -> Quat -> number -> Quat) : GLMatrix := {|
  Mat4 := list number;
  mat4_get := read;
  mat4_fromRotationTranslation := fromRotationTranslation;
  mat4_scale := scale;
  mat4_multiply := multiply;
  quat_slerp := slerp
|}.

End Arithmetic.

(** [mat4.create()] and [mat4.identity] *)
Definition identity : list number :=
  map of_Z [1; 0; 0; 0;  0; 1; 0; 0;  0; 0; 1; 0;  0; 0; 0; 1].

End glMatrix.

(** ** Matrices as the specification has them *)

Module Layout.

(** A 4x4 matrix: the entry of row [r] and column [c]. *)
Definition Matrix : Type := nat -> nat -> number.

(** The matrix that 16 floats hold column by column, and row by row. *)
Definition column_major (a : list number) : Matrix := fun r c => read a (c * 4 + r).
Definition row_major (a : list number) : Matrix := fun r c => read a (r * 4 + c).

(** The rotation matrix of a quaternion [(x, y, z, w)], in exact
    arithmetic. *)
Definition rotation_matrix (q : Quat) : Matrix := fun r c =>
  let x := q0 q in let y := q1 q in let z := q2 q in let w := q3 q in
  let one := of_Z 1 in let two := of_Z 2 in
  match r, c with
  | 0, 0 => sub one (mul two (add (mul y y) (mul z z)))
  | 0, 1 => mul two (sub (mul x y) (mul w z))
  | 0, 2 => mul two (add (mul x z) (mul w y))
  | 1, 0 => mul two (add (mul x y) (mul w z))
  | 1, 1 => sub one (mul two (add (mul x x) (mul z z)))
  | 1, 2 => mul two (sub (mul y z) (mul w x))
  | 2, 0 => mul two (sub (mul x z) (mul w y))
  | 2, 1 => mul two (add (mul y z) (mul w x))
  | 2, 2 => sub one (mul two (add (mul x x) (mul y y)))
  | _, _ => of_Z 0
  end%nat.

Section Arithmetic.
(** The arithmetic of the machine, as in [glMatrix]. *)
Variable plus minus times : number -> number -> number.
Variable store : number -> number.

(** The matrix product: every entry is a sum of four products, rounded
    when it is stored. *)
Definition product (A B : Matrix) : Matrix := fun r c =>
  store (plus (plus (plus (times (A r 0%nat) (B 0%nat c))
                          (times (A r 1%nat) (B 1%nat c)))
                    (times (A r 2%nat) (B 2%nat c)))
              (times (A r 3%nat) (B 3%nat c))).

(** The rotation matrix of a quaternion [(x, y, z, w)] with its entries
    [1 - 2 (y y + z z)], [2 (x y - w z)], ... computed as [1 - (y (y + y)
    + z (z + z))], [x (y + y) - w (z + z)], ... and rounded when stored. *)
Definition rotation (q : Quat) : Matrix := fun r c =>
  let x := q0 q in let y := q1 q in let z := q2 q in let w := q3 q in
  let twice a b := times a (plus b b) in
  match r, c with
  | 0, 0 => store (minus (of_Z 1) (plus (twice y y) (twice z z)))
  | 0, 1 => store (minus (twice x y) (twice w z))
  | 0, 2 => store (plus (twice x z) (twice w y))
  | 1, 0 => store (plus (twice x y) (twice w z))
  | 1, 1 => store (minus (of_Z 1) (plus (twice x x) (twice z z)))
  | 1, 2 => store (minus (twice y z) (twice w x))
  | 2, 0 => store (minus (twice x z) (twice w y))
  | 2, 1 => store (plus (twice y z) (twice w x))
  | 2, 2 => store (minus (of_Z 1) (plus (twice x x) (twice y y)))
  | _, _ => of_Z 0
  end%nat.

(** The affine matrix of a translation [t], a rotation [q] and a scale [s]:
    the columns of the rotation, each times its scale, and the translation
    as the fourth column. *)
Definition transform (t : Vec3) (q : Quat) (s : Vec3) : Matrix := fun r c =>
  match c with
  | 0 | 1 | 2 => store (times (rotation q r c) (Spec.vec3_get s c))
  | _ => match r with
         | 0 | 1 | 2 => Spec.vec3_get t r
         | _ => of_Z 1
         end
  end%nat.

Section Skeleton.
Context `{GL : GLMatrix}.

(** The local matrix of bone [b]: built from the translation, rotation and
    scale the pose holds for it. *)
Definition local_matrix (pose : RMXPose.t) (b : nat) : Matrix :=
  let pos := RMXPose.pos pose in
  let rot := RMXPose.rot pose in
  let scl := RMXPose.scl pose in
  transform
    (mkVec3 (read pos (b * 3 + 0)) (read pos (b * 3 + 1)) (read pos (b * 3 + 2)))
    (mkQuat (read rot (b * 4 + 0)) (read rot (b * 4 + 1)) (read rot (b * 4 + 2))
            (read rot (b * 4 + 3)))
    (mkVec3 (read scl (b * 3 + 0)) (read scl (b * 3 + 1)) (read scl (b * 3 + 2))).

(** The world matrix of a bone: its local matrix for a root, the parent's
    world matrix times its local matrix otherwise. *)
Inductive world (bones : list RMXBone.t) (pose : RMXPose.t) : nat -> Matrix -> Prop :=
| world_root b bone :
    bones !! b = Some bone ->
    RMXBone.parent bone = of_Z (-1) ->
    world bones pose b (local_matrix pose b)
| world_child b bone p Wp :
    bones !! b = Some bone ->
    RMXBone.parent bone = of_nat p ->
    world bones pose p Wp ->
    world bones pose b (product Wp (local_matrix pose b)).

End Skeleton.
End Arithmetic.
End Layout.

(** ** Concrete models, animations and documents *)

Module Examples.
Import RMXSkeletalAnimation Loader.

#[local] Existing Instance Reference.gl.
#[local] Existing Instance Reference.ops.

Definition unit_quat : Quat := mkQuat (of_Z 0) (of_Z 0) (of_Z 0) (of_Z 1).
Definition zeros : Vec3 := mkVec3 (of_Z 0) (of_Z 0) (of_Z 0).
Definition ones : Vec3 := mkVec3 (of_Z 1) (of_Z 1) (of_Z 1).

(** A chain of two bones: a root and a child five units up. *)
Definition root : RMXBone.t :=
  RMXBone.mk "root" (of_Z (-1)) true Reference.identity zeros unit_quat ones.
Definition child : RMXBone.t :=
  RMXBone.mk "child" (of_nat 0) true Reference.identity
             (mkVec3 (of_Z 0) (of_Z 5) (of_Z 0)) unit_quat ones.
Definition chain : RMXSkeleton.t := RMXSkeleton.mk [root; child].

(** Two frames: the root moves from the origin to (2, 0, 0); the child has a
    track without channels. *)
Definition root_track : RMXAnimationTrack.t :=
  RMXAnimationTrack.mk (of_Z 0) (Some (map of_Z [0; 0; 0; 2; 0; 0])) None None.
Definition child_track : RMXAnimationTrack.t :=
  RMXAnimationTrack.mk (of_Z 1) None None None.
Definition slide : RMXAnimation.t :=
  RMXAnimation.mk "slide" (of_Z 2) (of_Z 30) [Some root_track; Some child_track].

(** The same animation with the [bone] fields of the tracks exchanged. *)
Definition slide_rebound : RMXAnimation.t :=
  RMXAnimation.mk "slide" (of_Z 2) (of_Z 30)
    [Some (RMXAnimationTrack.mk (of_Z 1) (Some (map of_Z [0; 0; 0; 2; 0; 0])) None None);
     Some (RMXAnimationTrack.mk (of_Z 0) None None None)].

(** The same animation as [loadAnimation] builds it when the description of
    the child's track is [null]. *)
Definition slide_null_track : RMXAnimation.t :=
  RMXAnimation.mk "slide" (of_Z 2) (of_Z 30) [Some root_track; None].



(** The same tracks in an animation that has no frames. *)
Definition no_frames : RMXAnimation.t :=
  RMXAnimation.mk "empty" (of_Z 0) (of_Z 30) [Some root_track; Some child_track].

(** [new RMXPose(2)], the registers after [init], and a destination for two
    matrices. *)
Definition pose2 : RMXPose.t :=
  RMXPose.mk (replicate 6 (of_Z 0)) (replicate 8 (of_Z 0)) (replicate 6 (of_Z 0))
             [Reference.identity; Reference.identity].
Definition registers : Scratch :=
  mkScratch Reference.identity Reference.identity zeros zeros unit_quat unit_quat.
Definition dest2 : list number := replicate 32 (of_Z 0).

(** A <source> whose accessor points at "#other" although the sibling array
    is called "arr". *)
Definition accessor : Node :=
  mkNode "accessor" [("source", "#other"); ("count", "2"); ("stride", "3")] ""
    [ mkNode "param" [("name", "X"); ("type", "float")] "" [];
      mkNode "param" [("name", "Y"); ("type", "float")] "" [];
      mkNode "param" [("name", "Z"); ("type", "float")] "" [] ].
Definition source : Node :=
  mkNode "source" [("id", "positions")] ""
    [ mkNode "float_array" [("id", "arr"); ("count", "6")] "0 0 0 2 0 0" [];
      mkNode "technique_common" [] "" [accessor] ].
Definition empty_context : Reference.Ctx := Reference.mkCtx [] [].

(** Two materials that differ in the diffuse and in the specular reference
    only by where the "|" stands, and two that differ in the specular
    reference. *)
Definition bar_left : RMXMaterial.t :=
  RMXMaterial.mk (Some "a|b") (Some "c") (Some "n").
Definition bar_right : RMXMaterial.t :=
  RMXMaterial.mk (Some "a") (Some "b|c") (Some "n").
Definition wood : RMXMaterial.t :=
  RMXMaterial.mk (Some "wood.png") None (Some "wood_n.png").
Definition glossy_wood : RMXMaterial.t :=
  RMXMaterial.mk (Some "wood.png") (Some "gloss.png") (Some "wood_n.png").
Definition parsed_array : Source :=
  mkSource (Some "positions") None (Some "arr") None None None
           (Some "0 0 0 2 0 0") ∅.

End Examples.

(** ** Further vocabulary *)

Module Props.
Section Skeleton.
Context `{GL : GLMatrix}.

(** Every bone of the skeleton has a track, and the track has no channel. *)
Definition tracks_empty (tracks : list (option RMXAnimationTrack.t))
    (bones : list RMXBone.t) : Prop :=
  forall b, (b < length bones)%nat ->
    exists t, tracks !! b = Some (Some t) /\
      RMXAnimationTrack.pos t = None /\ RMXAnimationTrack.rot t = None /\
      RMXAnimationTrack.scl t = None.

(** The local matrix of a bone at rest. *)
Definition rest_matrix (bone : RMXBone.t) : Mat4 :=
  mat4_scale (mat4_fromRotationTranslation (RMXBone.rot bone) (RMXBone.pos bone))
             (RMXBone.scl bone).

(** A bone [exportPose] cannot export into the pose: the pose has no world
    matrix for it, or its parent index is non-negative and not the index of
    a world matrix of the pose. *)
Definition unexportable (pose : RMXPose.t) (b : nat) (bone : RMXBone.t) : Prop :=
  (length (RMXPose.world_matrices pose) <= b)%nat \/
  (geb (RMXBone.parent bone) (of_Z 0) = true /\
   forall i, to_index (RMXBone.parent bone) = Some i ->
             (length (RMXPose.world_matrices pose) <= i)%nat).

(** The world matrix of a bone at rest: its rest matrix for a root, the
    parent's world matrix at rest times its rest matrix otherwise. *)
Inductive rest_world (bones : list RMXBone.t) : nat -> Mat4 -> Prop :=
| rest_world_root b bone :
    bones !! b = Some bone ->
    RMXBone.parent bone = of_Z (-1) ->
    rest_world bones b (rest_matrix bone)
| rest_world_child b bone p wp :
    bones !! b = Some bone ->
    RMXBone.parent bone = of_nat p ->
    rest_world bones p wp ->
    rest_world bones b (mat4_multiply wp (rest_matrix bone)).

End Skeleton.
End Props.

(** ** Allocation *)

Module Alloc.

(** [new Float32Array(length)]: the length is truncated to an integer
    ([NaN] counts as 0), a negative one is a [RangeError]; the floats are 0. *)
Definition Float32Array_new (len : number) : completion (list number) :=
  match len with
  | NaN => Normal []
  | Fin q =>
      let n := trunc q in
      if decide (n < 0) then Throw "RangeError"
      else Normal (replicate (Z.to_nat n) (of_Z 0))
  end.

(** The number of rounds of [for (var i = 0; i < bound; ++i)]. *)
Definition rounds (bound : number) : nat :=
  match bound with
  | NaN => 0%nat
  | Fin q => Z.to_nat (Qceiling q)
  end.

(** [new RMXBoneMatrixTexture(bones)]; the WebGL texture is [null] until
    [init] and is left out. *)
Record BoneMatrixTexture : Type := mkTexture {
  size : number;
  data : list number
}.

Definition RMXBoneMatrixTexture_new (fuel : nat) (bones : number)
  : option (completion BoneMatrixTexture) :=
  match RMXBoneMatrixTexture.optimalSize fuel bones with
  | None => None
  | Some (Throw msg) => Some (Throw msg)
  | Some (Normal size) =>
      match Float32Array_new (mul (mul (of_Z 4) size) size) with
      | Normal data => Some (Normal (mkTexture size data))
      | Throw msg => Some (Throw msg)
      end
  end.

Section Pose.
Context `{GL : GLMatrix}.
(** [mat4.create()] *)
Variable mat4_create : Mat4.

(** [new RMXPose(bones)] *)
Definition RMXPose_new (bones : number) : completion RMXPose.t :=
  match Float32Array_new (mul bones (of_Z 3)) with
  | Throw msg => Throw msg
  | Normal pos =>
      match Float32Array_new (mul bones (of_Z 4)) with
      | Throw msg => Throw msg
      | Normal rot =>
          match Float32Array_new (mul bones (of_Z 3)) with
          | Throw msg => Throw msg
          | Normal scl =>
              Normal (RMXPose.mk pos rot scl (replicate (rounds bones) mat4_create))
          end
      end
  end.

End Pose.
End Alloc.

(** ** More concrete models *)

(** ** The loader's entry point *)

Module ColladaLoader.
Section Load.
Import Loader.
Context `{Ops : ContextOps}.

(** [COLLADA.Loader.Document.parse] and [context.resolveAllLinks] are not
    among the sources at hand; a call of the [onFinished] callback is
    recorded as the id and the document (or [null]) it is given. *)
Variable XMLDocument Document : Type.
Variable Document_parse : XMLDocument -> Context -> completion Document * Context.
Variable resolveAllLinks : Context -> completion unit * Context.

Definition Calls : Type := list (string * option Document).

(** The loader object: whether [onFinished] is set. *)
Record t : Type := mk { onFinished : bool }.

Definition _reportError (this : t) (id : string) (calls : Calls) : Calls :=
  if onFinished this then calls ++ [(id, None)] else calls.

Definition _reportSuccess (this : t) (id : string) (doc : Document) (calls : Calls)
  : Calls :=
  if onFinished this then calls ++ [(id, Some doc)] else calls.

(** The [catch] clause of [_loadFromXML]. *)
Definition caught (this : t) (id : string) (msg : string) (context : Context)
    (calls : Calls) : option Document * (Context * Calls) :=
  (None, (log_write msg Exception context, _reportError this id calls)).

Definition _loadFromXML (this : t) (id : string) (doc : XMLDocument)
    (context : Context) (calls : Calls) : option Document * (Context * Calls) :=
  match Document_parse doc context with
  | (Throw msg, context) => caught this id msg context calls
  | (Normal result, context) =>
      match resolveAllLinks context with
      | (Throw msg, context) => caught this id msg context calls
      | (Normal _, context) =>
          (Some result, (context, _reportSuccess this id result calls))
      end
  end.

End Load.
End ColladaLoader.

(** ** Converter nodes *)

Module Converter.
Section Nodes.
Context `{GL : GLMatrix}.

(** Geometries, transformations, animations and the converter context are
    not among the sources at hand. *)
Variable Geometry Transform Animation Ctx : Type.
(** [transform.isAnimatedBy(animation)]; the animation may be [null] *)
Variable Transform_isAnimatedBy : Transform -> option Animation -> bool.
(** [transform.applyTransformation(mat)]: the matrix it leaves in [mat] *)
Variable applyTransformation : Transform -> Mat4 -> Mat4.
(** [mat4.create()] and [mat4.invert(out, a)]: the matrix left in [out] *)
Variable mat4_create : Mat4.
Variable mat4_invert : Mat4 -> Mat4 -> Mat4.
(** [new Geometry()], the assignment to [geometry.name],
    [geometry.getSkeleton() !== null], [Geometry.transformGeometry] (the
    geometry it leaves) and [Geometry.mergeGeometries] *)
Variable Geometry_new : Geometry.
Variable Geometry_set_name : string -> Geometry -> Geometry.
Variable Geometry_hasSkeleton : Geometry -> bool.
Variable transformGeometry :
  Geometry -> Mat4 -> Ctx -> completion Geometry * Ctx.
Variable mergeGeometries : list Geometry -> Ctx -> completion Geometry * Ctx.
(** [context.log.write] and the three options [extractGeometries] reads:
    [createSkeleton.value], and whether [worldTransformUnitScale] and
    [singleGeometry] are truthy *)
Variable log_write : string -> Loader.LogLevel -> Ctx -> Ctx.
Variable createSkeleton_value : Ctx -> bool.
Variable worldTransformUnitScale_truthy : Ctx -> bool.
Variable singleGeometry_truthy : Ctx -> bool.

(** The fields of a node the functions below read.  The matrices [matrix]
    and [worldMatrix] are caches: [getLocalMatrix] and [getWorldMatrix]
    overwrite them before they return them, and [extractGeometries]
    multiplies into the [worldMatrix] it was returned.  No function here
    reads a cache it has not just written, so the functions return the
    matrix instead and the caches are no fields of the model: what is
    proved of a node is proved of the five fields below.  The [parent] of
    a node is given by its place in the tree: where a function follows it,
    it takes the ancestors, nearest first. *)
Record Fields : Type := mkFields {
  name : string;
  geometries : list Geometry;
  transformations : list Transform;
  transformation_pre : Mat4;
  transformation_post : Mat4
}.

#[local] Set Warnings "-register-all".

Inductive Node : Type :=
| mkNode (fields : Fields) (children : list Node).

Definition fields (n : Node) : Fields := let '(mkNode f _) := n in f.
Definition children (n : Node) : list Node := let '(mkNode _ c) := n in c.

Definition set_geometries (g : list Geometry) (f : Fields) : Fields :=
  mkFields (name f) g (transformations f) (transformation_pre f)
           (transformation_post f).

(** Returns the local transformation matrix of this node *)
Definition getLocalMatrix (this : Fields) : Mat4 :=
  (* Static pre-transform *)
  let matrix := transformation_pre this in
  (* Original transformations *)
  let matrix := foldl (fun m t => applyTransformation t m) matrix (transformations this) in
  (* Static post-transform *)
  mat4_multiply matrix (transformation_post this).

(** Returns the world transformation matrix of this node *)
Fixpoint getWorldMatrix (this : Fields) (ancestors : list Fields) : Mat4 :=
  match ancestors with
  | parent :: ancestors' =>
      mat4_multiply (getWorldMatrix parent ancestors') (getLocalMatrix this)
  | [] => getLocalMatrix this
  end.

(** Returns true if this node contains any scene graph items *)
Definition containsSceneGraphItems (this : Fields) : bool :=
  bool_decide (0 < length (geometries this))%nat.

(** Returns whether the given animation targets the transformation of this
    node *)
Fixpoint isAnimatedBy (this : Fields) (ancestors : list Fields)
    (animation : option Animation) (recursive : bool) : bool :=
  if existsb (fun t => Transform_isAnimatedBy t animation) (transformations this)
  then true
  else
    match ancestors with
    | parent :: ancestors' =>
        if recursive then isAnimatedBy parent ancestors' animation recursive
        else false
    | [] => false
    end.

Definition isAnimated (this : Fields) (ancestors : list Fields) (recursive : bool)
  : bool :=
  isAnimatedBy this ancestors None recursive.

(** [pruneNodes]: the array the caller passed, after the call.  The
    recursive calls act on the [children] arrays; the filtered array is
    bound to the parameter [nodes] and goes no further. *)
Fixpoint pruneNodes_children (node : Node) : Node :=
  let '(mkNode f c) := node in
  let pruned := map pruneNodes_children c in
  let nodes :=
    filter (fun value : Node =>
              containsSceneGraphItems (fields value) = true \/
              (0 < length (children value))%nat) pruned in
  mkNode f pruned.

Definition pruneNodes (nodes : list Node) : list Node :=
  (* Prune all children recursively *)
  let pruned := map pruneNodes_children nodes in
  (* Remove all nodes from the list that are not relevant *)
  let nodes :=
    filter (fun value : Node =>
              containsSceneGraphItems (fields value) = true \/
              (0 < length (children value))%nat) pruned in
  pruned.

(** [forEachNode]: calls the given function for all given nodes and their
    children (recursively).  The function may change the fields of the
    node it is given (and a state of its own), not the tree. *)
Fixpoint forEachNode_node {S : Type}
    (fn : Fields -> list Fields -> S -> Fields * S)
    (ancestors : list Fields) (node : Node) (s : S) : Node * S :=
  let '(mkNode f c) := node in
  let '(f', s) := fn f ancestors s in
  let '(c', s) :=
    (fix each (nodes : list Node) (s : S) : list Node * S :=
       match nodes with
       | [] => ([], s)
       | n :: rest =>
           let '(n', s) := forEachNode_node fn (f' :: ancestors) n s in
           let '(rest', s) := each rest s in
           (n' :: rest', s)
       end) c s in
  (mkNode f' c', s).

Fixpoint forEachNode_from {S : Type}
    (fn : Fields -> list Fields -> S -> Fields * S)
    (ancestors : list Fields) (nodes : list Node) (s : S) : list Node * S :=
  match nodes with
  | [] => ([], s)
  | n :: rest =>
      let '(n', s) := forEachNode_node fn ancestors n s in
      let '(rest', s) := forEachNode_from fn ancestors rest s in
      (n' :: rest', s)
  end.

Definition forEachNode {S : Type} (nodes : list Node)
    (fn : Fields -> list Fields -> S -> Fields * S) (s : S) : list Node * S :=
  forEachNode_from fn [] nodes s.

(** An entry of [result] in [extractGeometries]: the node (its fields and
    ancestors) and the geometry.  The entry refers to the node: when it is
    read, the node has lost its geometries. *)
Record Extracted : Type := mkExtracted {
  node : Fields;
  node_ancestors : list Fields;
  geometry : Geometry
}.

(** The function [extractGeometries] passes to [forEachNode]. *)
Definition detach (node : Fields) (ancestors : list Fields)
    (result : list Extracted) : Fields * list Extracted :=
  let result := result ++ map (mkExtracted (set_geometries [] node) ancestors)
                              (geometries node) in
  (set_geometries [] node, result).

(** Apply the node transformation to static geometries *)
Fixpoint transformAll (result : list Extracted) (context : Ctx)
  : completion (list Extracted) * Ctx :=
  match result with
  | [] => (Normal [], context)
  | element :: rest =>
      let world_matrix := getWorldMatrix (node element) (node_ancestors element) in
      let world_matrix :=
        if worldTransformUnitScale_truthy context then
          let mat := mat4_invert mat4_create (transformation_post (node element)) in
          mat4_multiply world_matrix mat
        else world_matrix in
      match transformGeometry (geometry element) world_matrix context with
      | (Throw msg, context) => (Throw msg, context)
      | (Normal g, context) =>
          match transformAll rest context with
          | (Throw msg, context) => (Throw msg, context)
          | (Normal rest', context) =>
              (Normal (mkExtracted (node element) (node_ancestors element) g :: rest'),
               context)
          end
      end
  end.

Definition count (p : Extracted -> bool) (result : list Extracted) : nat :=
  length (filter (fun e => p e = true) result).

(** Extracts all geometries in the given scene and merges them into a
    single geometry.  The geometries are detached from their original
    nodes in the process. *)
Definition extractGeometries (scene_nodes : list Node) (context : Ctx)
  : completion (list Geometry) * (list Node * Ctx) :=
  (* Collect all geometries and the corresponding nodes *)
  let '(scene_nodes, result) := forEachNode scene_nodes detach [] in
  if decide (length result = 0%nat) then
    let context :=
      log_write "No geometry found in the scene, returning an empty geometry"
                Loader.Warning context in
    let geometry := Geometry_set_name "empty_geometry" Geometry_new in
    (Normal [geometry], (scene_nodes, context))
  else
    (* Check whether the geometries need a skeleton *)
    let skinnedGeometries := count (fun e => Geometry_hasSkeleton (geometry e)) result in
    let animatedNodeGeometries :=
      count (fun e => isAnimated (node e) (node_ancestors e) true) result in
    let '(transformed, context) :=
      if createSkeleton_value context then (Normal result, context)
      else
        let context :=
          if decide (0 < skinnedGeometries)%nat then
            log_write ("Scene contains " +:+ pretty skinnedGeometries +:+
                       " skinned geometries, but skeleton creation is disabled. Static geometry was generated.")
                      Loader.Warning context
          else context in
        let context :=
          if decide (0 < animatedNodeGeometries)%nat then
            log_write ("Scene contains " +:+ pretty animatedNodeGeometries +:+
                       " static geometries attached to animated nodes, but skeleton creation is disabled. Static geometry was generated.")
                      Loader.Warning context
          else context in
        transformAll result context in
    match transformed with
    | Throw msg => (Throw msg, (scene_nodes, context))
    | Normal result =>
        (* Merge all geometries *)
        if singleGeometry_truthy context then
          match mergeGeometries (map geometry result) context with
          | (Normal g, context) => (Normal [g], (scene_nodes, context))
          | (Throw msg, context) => (Throw msg, (scene_nodes, context))
          end
        else (Normal (map geometry result), (scene_nodes, context))
    end.

(** *** Vocabulary for the statements about nodes *)

(** The nodes of a forest with their ancestors, parents before children
    and siblings in order. *)
Fixpoint preorder_node (ancestors : list Fields) (n : Node)
  : list (Fields * list Fields) :=
  let '(mkNode f c) := n in
  (f, ancestors) :: flat_map (preorder_node (f :: ancestors)) c.

Definition preorder (ancestors : list Fields) (nodes : list Node)
  : list (Fields * list Fields) :=
  flat_map (preorder_node ancestors) nodes.

(** The geometries of a scene, in that order. *)
Definition scene_geometries (nodes : list Node) : list Geometry :=
  flat_map (fun e => geometries e.1) (preorder [] nodes).

(** A node without the geometries of its subtree. *)
Fixpoint detached (n : Node) : Node :=
  let '(mkNode f c) := n in mkNode (set_geometries [] f) (map detached c).

(** The fields of the nodes whose transformations the animation targets:
    the node, and its ancestors when [recursive]. *)
Definition animated_by (animation : option Animation) (f : Fields) : bool :=
  existsb (fun t => Transform_isAnimatedBy t animation) (transformations f).

End Nodes.
End Converter.

(** ** Vocabulary for the statements about the <source> parser *)

Module SourceProps.
Section Params.
Import Loader.
Context `{Ops : ContextOps}.

(** The key [parseAccessorParam] gives a parameter without name and
    semantic when the source has [k] parameters. *)
Definition unnamed (k : nat) : string := "unnamed param #" +:+ pretty k.

(** A <param> element with a type and neither name nor semantic, whose
    attributes are read without a change of the context. *)
Definition unnamed_param (child : Node) (type : string) : Prop :=
  nodeName child = "param" /\
  forall c : Context,
    getAttributeAsString child "name" None false c = (Normal None, c) /\
    getAttributeAsString child "semantic" None false c = (Normal None, c) /\
    getAttributeAsString child "type" None true c = (Normal (Some type), c) /\
    exists sid, getAttributeAsString child "sid" None false c = (Normal sid, c).

(** What the array elements of a <source> set, and its identity. *)
Definition same_array (s s' : Source) : Prop :=
  id s' = id s /\ name s' = name s /\ sourceId s' = sourceId s /\ data s' = data s.

End Params.
End SourceProps.

(** ** The sampler on a skeleton as the loader leaves it *)

Module Loaded.
Section Skeleton.
Import RMXSkeletalAnimation.
Context `{GL : GLMatrix}.

(** What [loadSkeleton] returns: [null] for a document without bones, and
    otherwise a skeleton whose [bones] hold [null] where [loadBone] was
    given a bone description that is [null]. *)
Definition Skeleton : Type := option (list (option RMXBone.t)).

(** The loop of [sampleAnimation] over such bones: on a bone that is [null]
    the read of [track.pos] or that of [bone.pos] throws, before anything
    is stored for the bone. *)
Fixpoint sampleAnimation_loop (sm : Sample)
    (tracks : list (option RMXAnimationTrack.t)) (bones : list (option RMXBone.t))
    (b : nat) (st : SampleState) : completion unit * SampleState :=
  match bones with
  | [] => (Normal (), st)
  | None :: _ => (Throw "TypeError", st)
  | Some bone :: bones' =>
      match sampleAnimation_bone sm b (tracks !! b) bone st with
      | (Normal _, st') => sampleAnimation_loop sm tracks bones' (S b) st'
      | thrown => thrown
      end
  end.

(** [sampleAnimation] on such a skeleton; [skeleton.bones] throws on a
    skeleton that is [null]. *)
Definition sampleAnimation (animation : RMXAnimation.t) (skeleton : Skeleton)
    (frame : number) (scr : Scratch) (pose : RMXPose.t)
  : completion unit * SampleState :=
  let sm := sample_frame (RMXAnimation.frames animation) frame in
  match skeleton with
  | None => (Throw "TypeError", (scr, pose))
  | Some bones =>
      sampleAnimation_loop sm (RMXAnimation.tracks animation) bones 0 (scr, pose)
  end.

End Skeleton.
End Loaded.

Module MoreExamples.
Import RMXSkeletalAnimation Examples.

#[local] Existing Instance Reference.gl.

(** An animation of the chain whose two tracks have no channels. *)
Definition still : RMXAnimation.t :=
  RMXAnimation.mk "still" (of_Z 2) (of_Z 30)
    [Some RMXAnimationTrack.create; Some RMXAnimationTrack.create].

(** A chain whose second bone names a parent the pose has no matrix for. *)
Definition stray : RMXBone.t :=
  RMXBone.mk "stray" (of_Z 5) true Reference.identity zeros unit_quat ones.
Definition broken_chain : RMXSkeleton.t := RMXSkeleton.mk [root; stray].

(** A pose for two bones that holds other floats and matrices, other
    registers and another destination. *)
Definition used_pose2 : RMXPose.t :=
  RMXPose.mk (replicate 6 (of_Z 0)) (replicate 8 (of_Z 0)) (replicate 6 (of_Z 0))
             [Reference.multiply Reference.identity Reference.identity; []; []].
Definition used_registers : Scratch :=
  mkScratch [] [] ones ones unit_quat unit_quat.
Definition used_dest : list number := replicate 40 (of_Z 7).

(** An accessor with three parameters that have a type only, and the
    <technique_common> of the source of [Examples.source] with what it
    leaves of the parsed array. *)
Definition float_param : Loader.Node := Loader.mkNode "param" [("type", "float")] "" [].
Definition xyz_accessor : Loader.Node :=
  Loader.mkNode "accessor" [("source", "#arr"); ("count", "2"); ("stride", "3")] ""
    [float_param; float_param; float_param].
Definition technique : Loader.Node :=
  Loader.mkNode "technique_common" [] "" [accessor].
Definition xyz_params : gmap string string :=
  <["Z" := "float"]> (<["Y" := "float"]> (<["X" := "float"]> ∅)).
Definition parsed_source : Loader.Source (Ops := Reference.ops) :=
  Loader.mkSource (Ops := Reference.ops) (Some "positions") None (Some "arr")
    (Some (of_Z 2)) (Some (of_Z 3)) (Some (of_Z 0)) (Some "0 0 0 2 0 0") xyz_params.

(** The description of an animation of the chain, its binary payload, a
    view that shows the whole payload, and the animation the loader makes
    of them. *)
Definition payload : list number := map of_Z [0; 0; 0; 2; 0; 0].
Definition whole_view (data : list number) (byte_offset length : number)
  : list number := data.
Definition slide_json : RMXModelLoader.AnimationJSON :=
  RMXModelLoader.mkAnimationJSON "slide" (of_Z 2) (of_Z 30)
    [Some (RMXModelLoader.mkTrackJSON (of_Z 0)
             (Some (RMXModelLoader.mkChunk (of_Z 0) (of_Z 2) (of_Z 3))) None None);
     Some (RMXModelLoader.mkTrackJSON (of_Z 1) None None None)].
Definition loaded_slide : RMXAnimation.t :=
  RMXAnimation.mk "slide" (of_Z 2) (of_Z 30)
    [Some (RMXAnimationTrack.mk (of_Z 0) (Some payload) None None);
     Some (RMXAnimationTrack.mk (of_Z 1) None None None)].

(** Converter scenes whose geometries are names, without transformations.
    The context is its log; transforming a geometry leaves it, merging
    joins the names. *)
Definition plain (name : string) (geometries : list string)
  : Converter.Fields string unit :=
  Converter.mkFields string unit name geometries [] Reference.identity
                     Reference.identity.
Definition bare_scene : list (Converter.Node string unit) :=
  [Converter.mkNode string unit (plain "root" [])
     [Converter.mkNode string unit (plain "joint" []) []]].
Definition scene : list (Converter.Node string unit) :=
  [Converter.mkNode string unit (plain "body" ["torso"])
     [Converter.mkNode string unit (plain "arm" ["hand"; "glove"]) []];
   Converter.mkNode string unit (plain "prop" ["sword"]) []].
Definition extract_scene (createSkeleton singleGeometry : bool)
    (nodes : list (Converter.Node string unit))
    (log : list (string * Loader.LogLevel)) :=
  Converter.extractGeometries string unit unit (list (string * Loader.LogLevel))
    (fun _ _ => false) (fun _ m => m) Reference.identity (fun _ a => a)
    EmptyString (fun name _ => name) (fun _ => false)
    (fun g _ c => (Normal g, c))
    (fun gs c => (Normal (String.concat "+" gs), c))
    (fun msg level c => c ++ [(msg, level)])
    (fun _ => createSkeleton) (fun _ => false) (fun _ => singleGeometry)
    nodes log.

End MoreExamples.

(** ** A skeleton and a pose for the matrix library *)

Module LayoutExamples.
Import RMXSkeletalAnimation Examples.

(** The library in exact arithmetic, with the linear blend in place of
    [quat.slerp], which the exporter does not call. *)
Definition exact (a : number) : number := a.
Definition lib : GLMatrix := glMatrix.gl add sub mul exact Reference.blend.
#[local] Existing Instance lib.

Definition half : number := Fin (Q2Qc (1 # 2)).

(** A hip at (1, 2, 3), turned a third of a turn about the diagonal and
    scaled by (2, 3, 4), and a knee five units along its y axis; the pose
    holds the bones at rest, the inverse bind matrices are the identity.
    All numbers and all results are floats, so nothing would be rounded. *)
Definition hip : RMXBone.t :=
  RMXBone.mk "hip" (of_Z (-1)) true glMatrix.identity
             (mkVec3 (of_Z 1) (of_Z 2) (of_Z 3)) (mkQuat half half half half)
             (mkVec3 (of_Z 2) (of_Z 3) (of_Z 4)).
Definition knee : RMXBone.t :=
  RMXBone.mk "knee" (of_nat 0) true glMatrix.identity
             (mkVec3 (of_Z 0) (of_Z 5) (of_Z 0)) unit_quat ones.
Definition leg : RMXSkeleton.t := RMXSkeleton.mk [hip; knee].
Definition leg_pose : RMXPose.t :=
  RMXPose.mk (map of_Z [1; 2; 3; 0; 5; 0])
             ([half; half; half; half] ++ map of_Z [0; 0; 0; 1])
             (map of_Z [2; 3; 4; 1; 1; 1])
             [glMatrix.identity; glMatrix.identity].
Definition leg_registers : Scratch :=
  mkScratch glMatrix.identity glMatrix.identity zeros zeros unit_quat unit_quat.
Definition leg_dest : list number := replicate 32 (of_Z 0).

(** The world matrix of the knee. *)
Definition knee_world : Layout.Matrix :=
  Layout.product add mul exact
    (Layout.local_matrix add sub mul exact leg_pose 0)
    (Layout.local_matrix add sub mul exact leg_pose 1).

End LayoutExamples.

(** ** Arithmetic of the number model *)

Section NumberFacts.

Lemma of_Z_mul (a b : Z) : mul (of_Z a) (of_Z b) = of_Z (a * b).
Proof. unfold mul, of_Z; simpl. by rewrite Z2Qc_inj_mul. Qed.

Lemma of_Z_add (a b : Z) : add (of_Z a) (of_Z b) = of_Z (a + b).
Proof. unfold add, of_Z; simpl. by rewrite Z2Qc_inj_add. Qed.

Lemma of_Z_sub (a b : Z) : sub (of_Z a) (of_Z b) = of_Z (a - b).
Proof. unfold sub, of_Z; simpl. by rewrite Z2Qc_inj_sub. Qed.

Lemma of_Z_inj (a b : Z) : of_Z a = of_Z b -> a = b.
Proof. unfold of_Z. intros H. injection H. done. Qed.

Lemma Qc_of_Z_le (a b : Z) : a <= b -> Qcle (Qc_of_Z a) (Qc_of_Z b).
Proof. apply (Z2Qc_inj_le a b). Qed.

Lemma Qc_of_Z_nonzero (a : Z) : a <> 0 -> Qc_of_Z a <> Qc_of_Z 0.
Proof. intros Ha H. by apply Z2Qc_inj in H. Qed.

Lemma of_Z_div_exact (m d : Z) : d <> 0 -> div (of_Z (m * d)) (of_Z d) = of_Z m.
Proof.
  intros Hd. unfold div, of_Z.
  destruct (decide (Qc_of_Z d = Qc_of_Z 0)) as [E|_].
  - by apply Qc_of_Z_nonzero in E.
  - f_equal. rewrite Z2Qc_inj_mul. apply Qcdiv_mult_l.
    rewrite <- Z2Qc_inj_0. by apply Qc_of_Z_nonzero.
Qed.

Lemma ltb_lt (a b : number) : ltb a b = true <-> lt a b.
Proof.
  destruct a, b; simpl; try (split; [discriminate | tauto]).
  apply bool_decide_eq_true.
Qed.

Lemma ltb_nlt (a : number) (q : Qc) :
  a <> NaN -> ltb a (Fin q) = false <-> le (Fin q) a.
Proof.
  destruct a as [|x]; [done|]. intros _. simpl.
  rewrite bool_decide_eq_false. symmetry. apply Qcle_ngt.
Qed.

Lemma gtb_of_Z (a b : Z) : gtb (of_Z a) (of_Z b) = bool_decide (b < a).
Proof.
  unfold gtb, ltb, of_Z. apply bool_decide_ext. symmetry. apply Z2Qc_inj_lt.
Qed.

Lemma floor_of_Z (z : Z) : floor (of_Z z) = of_Z z.
Proof. unfold floor, of_Z. f_equal. f_equal. simpl. apply Qfloor_Z. Qed.

Lemma ceil_of_Z (z : Z) : ceil (of_Z z) = of_Z z.
Proof. unfold ceil, of_Z. f_equal. f_equal. simpl. apply Qceiling_Z. Qed.






Lemma rem_zero_divisor (a : number) : rem a (of_Z 0) = NaN.
Proof. by destruct a. Qed.

Lemma sub_self (z : Z) : sub (of_Z z) (of_Z z) = of_Z 0.
Proof. rewrite of_Z_sub. f_equal. lia. Qed.


Lemma to_index_of_Z (z : Z) : 0 <= z -> to_index (of_Z z) = Some (Z.to_nat z).
Proof.
  intros Hz. unfold to_index, of_Z.
  change (Qfloor (Qc_of_Z z)) with (Qfloor (inject_Z z)). rewrite Qfloor_Z.
  rewrite decide_True by done. by rewrite decide_True.
Qed.

Lemma to_index_of_nat (n : nat) : to_index (of_nat n) = Some n.
Proof. unfold of_nat. rewrite to_index_of_Z by lia. by rewrite Nat2Z.id. Qed.


Lemma geb_of_Z (a b : Z) : geb (of_Z a) (of_Z b) = bool_decide (b <= a).
Proof.
  unfold geb, of_Z. apply bool_decide_ext. symmetry. apply Z2Qc_inj_le.
Qed.

End NumberFacts.

(** ** Texture sizing *)

Section TextureFacts.
Import RMXBoneMatrixTexture Spec.

Lemma capacity_even (m : Z) : capacity (of_Z (2 * m)) = of_Z (m * m).
Proof.
  unfold capacity. rewrite of_Z_mul.
  replace (2 * m * (2 * m)) with (m * m * 4) by lia.
  by apply of_Z_div_exact.
Qed.

Lemma side_S (k : nat) : side (S k) = of_Z (2 * 2 ^ Z.of_nat k).
Proof. unfold side. f_equal. rewrite Nat2Z.inj_succ, Z.pow_succ_r; lia. Qed.

Lemma capacity_side (k : nat) :
  capacity (side (S k)) = of_Z (4 ^ Z.of_nat k).
Proof.
  rewrite side_S, capacity_even. f_equal.
  rewrite <- Z.pow_mul_l. done.
Qed.

Lemma side_double (k : nat) : mul (side k) (of_Z 2) = side (S k).
Proof. rewrite side_S. unfold side. rewrite of_Z_mul. f_equal. lia. Qed.

Lemma side_gt_2048 (k : nat) : gtb (side k) (of_Z 2048) = bool_decide (11 < k)%nat.
Proof.
  unfold side. rewrite gtb_of_Z. apply bool_decide_ext.
  change 2048 with (2 ^ 11). rewrite <- Z.pow_lt_mono_r_iff; lia.
Qed.

Lemma capacity_mono (j k : nat) (bones : Qc) :
  (j <= k)%nat -> lt (capacity (side (S k))) (Fin bones) ->
  lt (capacity (side (S j))) (Fin bones).
Proof.
  intros Hjk. rewrite !capacity_side. unfold lt, of_Z.
  apply Qcle_lt_trans.
  apply Qc_of_Z_le, Z.pow_le_mono_r; lia.
Qed.

End TextureFacts.

Section TextureLoop.
Import RMXBoneMatrixTexture Spec.

(** The loop started at the [k]-th side, all smaller sides being too small:
    it stops at the smallest side that has room, or throws past 2048. *)
Lemma optimalSize_loop_from (bones : Qc) (n k fuel : nat) :
  (k + n = 10)%nat -> (n < fuel)%nat ->
  (forall j, (j < k)%nat -> lt (capacity (side (S j))) (Fin bones)) ->
  (exists m, (k <= m <= 10)%nat /\
     optimalSize_loop fuel (Fin bones) (side (S k)) = Some (Normal (side (S m))) /\
     le (Fin bones) (capacity (side (S m))) /\
     forall j, (j < m)%nat -> lt (capacity (side (S j))) (Fin bones))
  \/ (optimalSize_loop fuel (Fin bones) (side (S k)) = Some (Throw "Too many bones") /\
      forall j, (j <= 10)%nat -> lt (capacity (side (S j))) (Fin bones)).
Proof.
  revert k fuel. induction n as [|n IH]; intros k fuel Hk Hfuel Hsmall;
    (destruct fuel as [|fuel]; [lia|]); cbn [optimalSize_loop].
  - destruct (ltb (capacity (side (S k))) (Fin bones)) eqn:E.
    + right. rewrite side_double, side_gt_2048.
      rewrite bool_decide_eq_true_2 by lia. split; [done|].
      intros j Hj. destruct (decide (j = k)) as [->|]; [by apply ltb_lt|].
      apply Hsmall. lia.
    + left. exists k. split; [lia|]. split; [done|]. split; [|done].
      apply ltb_nlt; [by rewrite capacity_side|done].
  - destruct (ltb (capacity (side (S k))) (Fin bones)) eqn:E.
    + rewrite side_double, side_gt_2048.
      rewrite bool_decide_eq_false_2 by lia.
      destruct (IH (S k) fuel) as [(m & Hm & Hrun & Hroom & Hmin)|[Hrun Hall]];
        [lia|lia| |left|right].
      * intros j Hj. destruct (decide (j = k)) as [->|]; [by apply ltb_lt|].
        apply Hsmall. lia.
      * exists m. split; [lia|]. done.
      * done.
    + left. exists k. split; [lia|]. split; [done|]. split; [|done].
      apply ltb_nlt; [by rewrite capacity_side|done].
Qed.

Lemma optimalSize_loop_fuel (fuel fuel' : nat) (bones result : number) c :
  (fuel <= fuel')%nat ->
  optimalSize_loop fuel bones result = Some c ->
  optimalSize_loop fuel' bones result = Some c.
Proof.
  revert fuel' result. induction fuel as [|fuel IH]; intros fuel' result Hle; [done|].
  destruct fuel' as [|fuel']; [lia|]. cbn [optimalSize_loop].
  destruct (ltb (capacity result) bones); [|done].
  destruct (gtb (mul result (of_Z 2)) (of_Z 2048)); [done|].
  apply IH. lia.
Qed.

Lemma lt_not_le (a b : number) : lt a b -> le b a -> False.
Proof. destruct a, b; simpl; try done. apply Qclt_not_le. Qed.

Lemma capacity_quotient (size : Qc) :
  capacity (Fin size) = Fin (size * size / Qc_of_Z 4)%Qc.
Proof.
  unfold capacity, div, mul, lift2, of_Z.
  destruct (decide (Qc_of_Z 4 = Qc_of_Z 0)) as [E|_]; [|reflexivity].
  by apply Qc_of_Z_nonzero in E.
Qed.

(** C5: the capacity of a side [2 ^ j] up to 2048 is [2 ^ j * 2 ^ j / 4]; for
    every bone count [optimalSize] returns the smallest power of two
    [2 ^ k], from 2 up to 2048, with [2 ^ k * 2 ^ k / 4] at least the bone
    count -- every smaller power of two from 2 on has [2 ^ j * 2 ^ j / 4]
    below it; it throws "Too many bones" exactly when [2048 * 2048 / 4] is
    below the bone count; eleven iterations of the loop always suffice. *)
Theorem optimalSize_smallest_power_of_two (bones : Qc) (fuel : nat) :
  (11 <= fuel)%nat ->
  (forall j, (1 <= j <= 11)%nat ->
     capacity (of_Z (2 ^ Z.of_nat j)) =
     Fin (Qc_of_Z (2 ^ Z.of_nat j) * Qc_of_Z (2 ^ Z.of_nat j) / Qc_of_Z 4)%Qc) /\
  ((Qcle bones (Qc_of_Z 2048 * Qc_of_Z 2048 / Qc_of_Z 4)%Qc /\
    exists k, (1 <= k <= 11)%nat /\
      optimalSize fuel (Fin bones) = Some (Normal (of_Z (2 ^ Z.of_nat k))) /\
      Qcle bones
           (Qc_of_Z (2 ^ Z.of_nat k) * Qc_of_Z (2 ^ Z.of_nat k) / Qc_of_Z 4)%Qc /\
      forall j, (1 <= j < k)%nat ->
        Qclt (Qc_of_Z (2 ^ Z.of_nat j) * Qc_of_Z (2 ^ Z.of_nat j) / Qc_of_Z 4)%Qc
             bones)
   \/ (Qclt (Qc_of_Z 2048 * Qc_of_Z 2048 / Qc_of_Z 4)%Qc bones /\
       optimalSize fuel (Fin bones) = Some (Throw "Too many bones"))).
Proof.
  intros Hfuel. split; [intros j _; apply capacity_quotient|].
  assert (Hcap : forall j, capacity (side j) =
            Fin (Qc_of_Z (2 ^ Z.of_nat j) * Qc_of_Z (2 ^ Z.of_nat j) / Qc_of_Z 4)%Qc)
    by (intros j; apply capacity_quotient).
  unfold optimalSize. change (of_Z 2) with (side 1).
  destruct (optimalSize_loop_from bones 10 0 fuel)
    as [(m & Hm & Hrun & Hroom & Hmin)|[Hrun Hall]]; [lia|lia|intros; lia| |].
  - left. split.
    + change (Qc_of_Z 2048) with (Qc_of_Z (2 ^ Z.of_nat 11)).
      change (le (Fin bones) (Fin (Qc_of_Z (2 ^ Z.of_nat 11) *
                Qc_of_Z (2 ^ Z.of_nat 11) / Qc_of_Z 4)%Qc)).
      rewrite <- Hcap. rewrite capacity_side in Hroom |- *. unfold le, of_Z in *.
      eapply Qcle_trans; [exact Hroom|]. apply Qc_of_Z_le, Z.pow_le_mono_r; lia.
    + exists (S m). split; [lia|]. split; [exact Hrun|]. split.
      * specialize (Hcap (S m)). rewrite Hcap in Hroom. exact Hroom.
      * intros j Hj. destruct j as [|j]; [lia|].
        specialize (Hmin j). specialize (Hcap (S j)). rewrite Hcap in Hmin.
        apply Hmin. lia.
  - right. split; [|exact Hrun].
    specialize (Hall 10%nat). specialize (Hcap 11%nat). rewrite Hcap in Hall.
    apply Hall. lia.
Qed.

Lemma optimalSize_smallest_power_of_two_witness :
  (11 <= 11)%nat /\
  (forall j, (1 <= j <= 11)%nat ->
     capacity (of_Z (2 ^ Z.of_nat j)) =
     Fin (Qc_of_Z (2 ^ Z.of_nat j) * Qc_of_Z (2 ^ Z.of_nat j) / Qc_of_Z 4)%Qc) /\
  ((Qcle (Qc_of_Z 300) (Qc_of_Z 2048 * Qc_of_Z 2048 / Qc_of_Z 4)%Qc /\
    exists k, (1 <= k <= 11)%nat /\
      optimalSize 11 (Fin (Qc_of_Z 300)) = Some (Normal (of_Z (2 ^ Z.of_nat k))) /\
      Qcle (Qc_of_Z 300)
           (Qc_of_Z (2 ^ Z.of_nat k) * Qc_of_Z (2 ^ Z.of_nat k) / Qc_of_Z 4)%Qc /\
      forall j, (1 <= j < k)%nat ->
        Qclt (Qc_of_Z (2 ^ Z.of_nat j) * Qc_of_Z (2 ^ Z.of_nat j) / Qc_of_Z 4)%Qc
             (Qc_of_Z 300))
   \/ (Qclt (Qc_of_Z 2048 * Qc_of_Z 2048 / Qc_of_Z 4)%Qc (Qc_of_Z 300) /\
       optimalSize 11 (Fin (Qc_of_Z 300)) = Some (Throw "Too many bones"))).
Proof.
  split; [lia|]. apply (optimalSize_smallest_power_of_two (Qc_of_Z 300) 11). lia.
Defined.

(** The run of [optimalSize(100000)]: nine doublings, then side 1024 has
    room (262144 matrices). *)
Lemma optimalSize_100000_returns_1024 :
  optimalSize 11 (of_Z 100000) = Some (Normal (of_Z 1024)).
Proof. apply (bool_decide_unpack _). by vm_compute. Qed.

(** C6, as the code has it: [optimalSize(100000)] returns 1024 and raises
    nothing; the smallest integer bone count that raises "Too many bones" is
    1048577, one more than the capacity of side 2048. *)
Theorem optimalSize_100000 (fuel : nat) :
  (11 <= fuel)%nat ->
  optimalSize fuel (of_Z 100000) = Some (Normal (of_Z 1024)) /\
  optimalSize fuel (of_Z 1048576) = Some (Normal (of_Z 2048)) /\
  optimalSize fuel (of_Z 1048577) = Some (Throw "Too many bones").
Proof.
  intros Hfuel. unfold optimalSize.
  split; [|split]; apply (optimalSize_loop_fuel 11); try done;
    apply (bool_decide_unpack _); by vm_compute.
Qed.

Lemma optimalSize_100000_witness :
  (11 <= 12)%nat /\
  (optimalSize 12 (of_Z 100000) = Some (Normal (of_Z 1024)) /\
   optimalSize 12 (of_Z 1048576) = Some (Normal (of_Z 2048)) /\
   optimalSize 12 (of_Z 1048577) = Some (Throw "Too many bones")).
Proof. split; [lia|]. apply (optimalSize_100000 12). lia. Defined.

End TextureLoop.

(** ** Material identity *)

Section MaterialFacts.
Import RMXMaterial Spec.

Lemma hash_key (m : RMXMaterial.t) :
  hash m = "material|" +:+ (key m).1.1 +:+ "|" +:+ (key m).1.2 +:+ "|" +:+ (key m).2.
Proof. done. Qed.

(** A string without separator is recovered from what follows it. *)
Lemma split_at_bar (a a' r r' : string) :
  bar_free a -> bar_free a' ->
  a +:+ "|" +:+ r = a' +:+ "|" +:+ r' -> a = a' /\ r = r'.
Proof.
  revert a'. induction a as [|c a IH]; intros [|c' a'] Ha Ha' E; simpl in *.
  - by injection E.
  - injection E as <- _. by destruct Ha'.
  - injection E as -> _. by destruct Ha.
  - injection E as -> E. destruct Ha as [_ Ha], Ha' as [_ Ha'].
    destruct (IH a' Ha Ha' E) as [-> ->]. done.
Qed.

(** Two materials whose three references are strings, which differ in the
    diffuse and the specular reference, and which hash alike. *)
Lemma hash_collision :
  (diffuse Examples.bar_left <> diffuse Examples.bar_right \/
   specular Examples.bar_left <> specular Examples.bar_right \/
   normal Examples.bar_left <> normal Examples.bar_right) /\
  hash Examples.bar_left = hash Examples.bar_right.
Proof. split; [by left|done]. Qed.

(** C8, as the code has it: materials with the same three references (a
    [null] reference counting as the empty string) have the same hash; and
    for materials whose diffuse and specular references contain no "|", the
    hashes are equal only if the three references are. *)
Theorem hash_identity (m1 m2 : RMXMaterial.t) :
  (key m1 = key m2 -> hash m1 = hash m2) /\
  (sep_free m1 -> sep_free m2 -> key m1 <> key m2 -> hash m1 <> hash m2).
Proof.
  split.
  - intros E. by rewrite !hash_key, E.
  - intros [Hd1 Hs1] [Hd2 Hs2] Hne E. apply Hne. rewrite !hash_key in E.
    unfold key in *. simpl in *. injection E as E.
    apply split_at_bar in E as [-> E]; [|done..].
    apply split_at_bar in E as [-> ->]; done.
Qed.

Lemma hash_identity_witness :
  key Examples.wood = key Examples.wood /\
  sep_free Examples.wood /\ sep_free Examples.glossy_wood /\
  key Examples.wood <> key Examples.glossy_wood /\
  hash Examples.wood = hash Examples.wood /\
  hash Examples.wood <> hash Examples.glossy_wood.
Proof.
  assert (sep_free Examples.wood) as H1 by (vm_compute; intuition discriminate).
  assert (sep_free Examples.glossy_wood) as H2 by (vm_compute; intuition discriminate).
  assert (key Examples.wood <> key Examples.glossy_wood) as H3 by discriminate.
  split; [reflexivity|]. split; [exact H1|]. split; [exact H2|]. split; [exact H3|].
  split.
  - apply (hash_identity Examples.wood Examples.wood). reflexivity.
  - apply (hash_identity Examples.wood Examples.glossy_wood); [exact H1|exact H2|exact H3].
Defined.

End MaterialFacts.

(** ** Stores into typed arrays *)

Section Stores.
Import RMXSkeletalAnimation Spec.

Lemma length_write (d : list number) i v : length (write d i v) = length d.
Proof. apply length_insert. Qed.

Lemma lookup_write_ne (d : list number) i j v :
  i <> j -> write d i v !! j = d !! j.
Proof. intros. by apply list_lookup_insert_ne. Qed.

Lemma lookup_write_eq (d : list number) i v :
  (i < length d)%nat -> write d i v !! i = Some v.
Proof. intros. by apply list_lookup_insert_eq. Qed.

Lemma length_write_vec3 d i v : length (write_vec3 d i v) = length d.
Proof. unfold write_vec3. by rewrite !length_write. Qed.

Lemma length_write_quat d i q : length (write_quat d i q) = length d.
Proof. unfold write_quat. by rewrite !length_write. Qed.

Lemma lookup_write_vec3_out d i v j :
  (j < i \/ i + 3 <= j)%nat -> write_vec3 d i v !! j = d !! j.
Proof. intros. unfold write_vec3. rewrite !lookup_write_ne by lia. done. Qed.

Lemma lookup_write_quat_out d i q j :
  (j < i \/ i + 4 <= j)%nat -> write_quat d i q !! j = d !! j.
Proof. intros. unfold write_quat. rewrite !lookup_write_ne by lia. done. Qed.

Lemma lookup_write_vec3_in d i v k :
  (k < 3)%nat -> (i + k < length d)%nat ->
  write_vec3 d i v !! (i + k)%nat = Some (vec3_get v k).
Proof.
  intros Hk Hlen. unfold write_vec3.
  destruct k as [|[|[|k]]]; [| | |lia]; simpl vec3_get.
  - rewrite !lookup_write_ne by lia. apply lookup_write_eq. lia.
  - rewrite lookup_write_ne by lia. apply lookup_write_eq.
    rewrite length_write. lia.
  - apply lookup_write_eq. rewrite !length_write. lia.
Qed.

Lemma lookup_write_quat_in d i q k :
  (k < 4)%nat -> (i + k < length d)%nat ->
  write_quat d i q !! (i + k)%nat = Some (quat_get q k).
Proof.
  intros Hk Hlen. unfold write_quat.
  destruct k as [|[|[|[|k]]]]; [| | | |lia]; simpl quat_get.
  - rewrite !lookup_write_ne by lia. apply lookup_write_eq. lia.
  - rewrite !lookup_write_ne by lia. apply lookup_write_eq.
    rewrite length_write. lia.
  - rewrite lookup_write_ne by lia. apply lookup_write_eq.
    rewrite !length_write. lia.
  - apply lookup_write_eq. rewrite !length_write. lia.
Qed.

End Stores.

(** ** The sampling loop *)

Section SamplerFacts.
Import RMXSkeletalAnimation Spec.
Context `{GL : GLMatrix}.

Lemma sampleAnimation_bone_track sm b track bone scr pose :
  sampleAnimation_bone sm b (Some (Some track)) bone (scr, pose) =
  (Normal (),
   (scratch_after sm track bone scr,
    RMXPose.mk (write_vec3 (RMXPose.pos pose) (b * 3) (sampled_pos sm track bone))
               (write_quat (RMXPose.rot pose) (b * 4) (sampled_rot sm track bone))
               (write_vec3 (RMXPose.scl pose) (b * 3) (sampled_scl sm track bone))
               (RMXPose.world_matrices pose))).
Proof.
  unfold sampleAnimation_bone, scratch_after, sampled_pos, sampled_rot, sampled_scl.
  destruct track as [tb [tp|] [tr|] [ts|]]; reflexivity.
Qed.

(** The loop over bones [b0 ..] when every one of them has a track. *)
Lemma sampleAnimation_loop_normal sm tracks bones b0 scr pose :
  (forall i, (i < length bones)%nat -> exists t, tracks !! (b0 + i)%nat = Some (Some t)) ->
  exists scr' pose',
    sampleAnimation_loop sm tracks bones b0 (scr, pose) = (Normal (), (scr', pose')) /\
    length (RMXPose.pos pose') = length (RMXPose.pos pose) /\
    length (RMXPose.rot pose') = length (RMXPose.rot pose) /\
    length (RMXPose.scl pose') = length (RMXPose.scl pose) /\
    RMXPose.world_matrices pose' = RMXPose.world_matrices pose /\
    (forall j, (j < b0 * 3)%nat ->
       RMXPose.pos pose' !! j = RMXPose.pos pose !! j /\
       RMXPose.scl pose' !! j = RMXPose.scl pose !! j) /\
    (forall j, (j < b0 * 4)%nat -> RMXPose.rot pose' !! j = RMXPose.rot pose !! j) /\
    (forall i bone t,
       bones !! i = Some bone -> tracks !! (b0 + i)%nat = Some (Some t) ->
       (forall k, (k < 3)%nat ->
          ((b0 + i) * 3 + k < length (RMXPose.pos pose))%nat ->
          RMXPose.pos pose' !! ((b0 + i) * 3 + k)%nat =
            Some (vec3_get (sampled_pos sm t bone) k)) /\
       (forall k, (k < 4)%nat ->
          ((b0 + i) * 4 + k < length (RMXPose.rot pose))%nat ->
          RMXPose.rot pose' !! ((b0 + i) * 4 + k)%nat =
            Some (quat_get (sampled_rot sm t bone) k)) /\
       (forall k, (k < 3)%nat ->
          ((b0 + i) * 3 + k < length (RMXPose.scl pose))%nat ->
          RMXPose.scl pose' !! ((b0 + i) * 3 + k)%nat =
            Some (vec3_get (sampled_scl sm t bone) k))).
Proof.
  revert b0 scr pose. induction bones as [|bone bones IH]; intros b0 scr pose Hcover.
  - exists scr, pose. simpl. repeat split; try done.
  - destruct (Hcover 0%nat) as [t Ht]; [simpl; lia|].
    rewrite Nat.add_0_r in Ht.
    cbn [sampleAnimation_loop]. rewrite Ht, sampleAnimation_bone_track.
    set (pose1 := RMXPose.mk _ _ _ _).
    destruct (IH (S b0) (scratch_after sm t bone scr) pose1)
      as (scr' & pose' & Hrun & Lp & Lr & Ls & Hw & Hlow3 & Hlow4 & Hval).
    { intros i Hi. replace (S b0 + i)%nat with (b0 + S i)%nat by lia.
      apply Hcover. simpl. lia. }
    exists scr', pose'. split; [done|].
    subst pose1. simpl in Lp, Lr, Ls, Hw.
    rewrite length_write_vec3 in Lp, Ls. rewrite length_write_quat in Lr.
    split_and!; try done.
    + intros j Hj. destruct (Hlow3 j) as [-> ->]; [lia|]. simpl.
      split; apply lookup_write_vec3_out; lia.
    + intros j Hj. rewrite Hlow4 by lia. simpl.
      apply lookup_write_quat_out. lia.
    + intros [|i] bone' t' Hbone Htrack.
      * simpl in Hbone. injection Hbone as <-.
        rewrite Nat.add_0_r in Htrack |- *.
        rewrite Ht in Htrack. injection Htrack as <-.
        split_and!; intros k Hk Hlen.
        -- destruct (Hlow3 (b0 * 3 + k)%nat) as [-> _]; [lia|]. simpl.
           by apply lookup_write_vec3_in.
        -- rewrite Hlow4 by lia. simpl. by apply lookup_write_quat_in.
        -- destruct (Hlow3 (b0 * 3 + k)%nat) as [_ ->]; [lia|]. simpl.
           by apply lookup_write_vec3_in.
      * simpl in Hbone.
        replace (b0 + S i)%nat with (S b0 + i)%nat in * by lia.
        destruct (Hval i bone' t' Hbone Htrack) as (Hp & Hr & Hs).
        split_and!; intros k Hk Hlen.
        -- apply Hp; [done|]. simpl. by rewrite length_write_vec3.
        -- apply Hr; [done|]. simpl. by rewrite length_write_quat.
        -- apply Hs; [done|]. simpl. by rewrite length_write_vec3.
Qed.

End SamplerFacts.

(** ** Sampling at a keyframe *)

Section Keyframes.
Import RMXSkeletalAnimation Spec.
Context `{GL : GLMatrix}.






End Keyframes.

(** ** Tracks that are missing, animations without frames, bone indices *)

Section Robustness.
Import RMXSkeletalAnimation Spec.
Context `{GL : GLMatrix}.

(** The loop throws at the first bone whose entry of the track list is not
    a track. *)
Lemma sampleAnimation_loop_throws sm tracks bones b0 st i :
  (i < length bones)%nat ->
  (forall t, tracks !! (b0 + i)%nat <> Some (Some t)) ->
  exists st', sampleAnimation_loop sm tracks bones b0 st = (Throw "TypeError", st').
Proof.
  revert b0 st i. induction bones as [|bone bones IH]; intros b0 [scr pose] i Hi Hnone;
    [simpl in Hi; lia|].
  cbn [sampleAnimation_loop].
  destruct (tracks !! b0) as [[t|]|] eqn:E.
  - rewrite sampleAnimation_bone_track.
    destruct i as [|i]; [rewrite Nat.add_0_r in Hnone; by destruct (Hnone t)|].
    apply (IH (S b0) _ i); [simpl in Hi; lia|].
    by replace (S b0 + i)%nat with (b0 + S i)%nat by lia.
  - by eexists.
  - by eexists.
Qed.

(** C3 at the failing input: when the track list has [null] where a bone of
    the skeleton expects its track, [sampleAnimation] does not fall back to
    the rest value: it throws a [TypeError]. *)
Theorem sampleAnimation_null_track_throws (animation : RMXAnimation.t)
    (skeleton : RMXSkeleton.t) (frame : number) (scr : Scratch)
    (pose : RMXPose.t) (b : nat) :
  (b < length (RMXSkeleton.bones skeleton))%nat ->
  RMXAnimation.tracks animation !! b = Some None ->
  exists st,
    sampleAnimation animation skeleton frame scr pose = (Throw "TypeError", st).
Proof.
  intros Hb Hnull. unfold sampleAnimation.
  apply (sampleAnimation_loop_throws _ _ _ 0 _ b); [done|].
  intros t. simpl. by rewrite Hnull.
Qed.

(** The loader hands a track description that is [null] on as a [null]
    track, and the sampler then throws on the animation it has loaded. *)
Lemma loadAnimation_null_track {ArrayBuffer} (view : ArrayBuffer -> number -> number -> list number)
    (json : RMXModelLoader.AnimationJSON) (data : ArrayBuffer)
    (animation : RMXAnimation.t) (b : nat) :
  RMXModelLoader.loadAnimation ArrayBuffer view (Some json) data = Some animation ->
  RMXModelLoader.animation_tracks json !! b = Some None ->
  RMXAnimation.tracks animation !! b = Some None.
Proof.
  intros Hload Hnull. injection Hload as <-. simpl.
  by rewrite list_lookup_fmap, Hnull.
Qed.

Lemma sampleAnimation_loaded_null_track {ArrayBuffer}
    (view : ArrayBuffer -> number -> number -> list number)
    (json : RMXModelLoader.AnimationJSON) (data : ArrayBuffer)
    (animation : RMXAnimation.t) (skeleton : RMXSkeleton.t) (frame : number)
    (scr : Scratch) (pose : RMXPose.t) (b : nat) :
  RMXModelLoader.loadAnimation ArrayBuffer view (Some json) data = Some animation ->
  (b < length (RMXSkeleton.bones skeleton))%nat ->
  RMXModelLoader.animation_tracks json !! b = Some None ->
  exists st,
    sampleAnimation animation skeleton frame scr pose = (Throw "TypeError", st).
Proof.
  intros Hload Hb Hnull.
  pose proof (loadAnimation_null_track view json data animation b Hload Hnull) as Ht.
  unfold sampleAnimation.
  apply (sampleAnimation_loop_throws _ _ _ 0 _ b); [done|].
  intros t. simpl. by rewrite Ht.
Qed.

(** The half of C3 that the code does implement: a channel that is [null]
    in a track that is present is written with the rest value of the bone. *)
Lemma sampleAnimation_null_channel_rest (animation : RMXAnimation.t)
    (skeleton : RMXSkeleton.t) (frame : number) (scr : Scratch) (pose : RMXPose.t) :
  tracks_cover (RMXAnimation.tracks animation) (RMXSkeleton.bones skeleton) ->
  pose_fits pose (RMXSkeleton.bones skeleton) ->
  exists scr' pose',
    sampleAnimation animation skeleton frame scr pose = (Normal (), (scr', pose')) /\
    forall b bone track,
      RMXSkeleton.bones skeleton !! b = Some bone ->
      RMXAnimation.tracks animation !! b = Some (Some track) ->
      (RMXAnimationTrack.pos track = None -> forall k, (k < 3)%nat ->
         RMXPose.pos pose' !! (b * 3 + k)%nat = Some (vec3_get (RMXBone.pos bone) k)) /\
      (RMXAnimationTrack.rot track = None -> forall k, (k < 4)%nat ->
         RMXPose.rot pose' !! (b * 4 + k)%nat = Some (quat_get (RMXBone.rot bone) k)) /\
      (RMXAnimationTrack.scl track = None -> forall k, (k < 3)%nat ->
         RMXPose.scl pose' !! (b * 3 + k)%nat = Some (vec3_get (RMXBone.scl bone) k)).
Proof.
  intros Hcover (Hp & Hr & Hs & _). unfold sampleAnimation.
  set (sm := sample_frame _ _).
  destruct (sampleAnimation_loop_normal sm (RMXAnimation.tracks animation)
              (RMXSkeleton.bones skeleton) 0 scr pose)
    as (scr' & pose' & Hrun & _ & _ & _ & _ & _ & _ & Hval).
  { intros i Hi. by apply Hcover. }
  exists scr', pose'. split; [done|].
  intros b bone track Hbone Htrack.
  assert (b < length (RMXSkeleton.bones skeleton))%nat as Hb
    by (by eapply lookup_lt_Some).
  destruct (Hval b bone track Hbone Htrack) as (Vp & Vr & Vs). simpl in *.
  split_and!; intros Hnone k Hk.
  - rewrite Vp by lia. unfold sampled_pos. by rewrite Hnone.
  - rewrite Vr by lia. unfold sampled_rot. by rewrite Hnone.
  - rewrite Vs by lia. unfold sampled_scl. by rewrite Hnone.
Qed.

Lemma sample_frame_no_frames (frame : number) :
  sample_frame (of_Z 0) frame = mkSample NaN NaN NaN NaN NaN NaN.
Proof. unfold sample_frame. rewrite !rem_zero_divisor. reflexivity. Qed.

(** C4, as the code has it: an animation with zero frames is not rejected.
    When every bone has a track the call returns normally; the frame is
    [NaN], so each channel that is present is written as [NaN] (for the
    rotation: as the library's slerp of two all-[NaN] quaternions at weight
    [NaN]) and each [null] channel as the rest value of the bone.  The call
    returns nothing but the pose (and scratch registers) it was given. *)
Theorem sampleAnimation_no_frames (animation : RMXAnimation.t)
    (skeleton : RMXSkeleton.t) (frame : number) (scr : Scratch) (pose : RMXPose.t) :
  RMXAnimation.frames animation = of_Z 0 ->
  tracks_cover (RMXAnimation.tracks animation) (RMXSkeleton.bones skeleton) ->
  pose_fits pose (RMXSkeleton.bones skeleton) ->
  exists scr' pose',
    sampleAnimation animation skeleton frame scr pose = (Normal (), (scr', pose')) /\
    RMXPose.world_matrices pose' = RMXPose.world_matrices pose /\
    forall b bone track,
      RMXSkeleton.bones skeleton !! b = Some bone ->
      RMXAnimation.tracks animation !! b = Some (Some track) ->
      (forall k, (k < 3)%nat ->
         RMXPose.pos pose' !! (b * 3 + k)%nat =
         Some (match RMXAnimationTrack.pos track with
               | Some _ => NaN
               | None => vec3_get (RMXBone.pos bone) k
               end)) /\
      (forall k, (k < 4)%nat ->
         RMXPose.rot pose' !! (b * 4 + k)%nat =
         Some (match RMXAnimationTrack.rot track with
               | Some _ => quat_get (quat_slerp nanq nanq NaN) k
               | None => quat_get (RMXBone.rot bone) k
               end)) /\
      (forall k, (k < 3)%nat ->
         RMXPose.scl pose' !! (b * 3 + k)%nat =
         Some (match RMXAnimationTrack.scl track with
               | Some _ => NaN
               | None => vec3_get (RMXBone.scl bone) k
               end)).
Proof.
  intros Hframes Hcover (Hp & Hr & Hs & _). unfold sampleAnimation.
  rewrite Hframes, sample_frame_no_frames.
  set (sm := mkSample _ _ _ _ _ _).
  destruct (sampleAnimation_loop_normal sm (RMXAnimation.tracks animation)
              (RMXSkeleton.bones skeleton) 0 scr pose)
    as (scr' & pose' & Hrun & _ & _ & _ & Hw & _ & _ & Hval).
  { intros i Hi. by apply Hcover. }
  exists scr', pose'. split; [done|]. split; [done|].
  intros b bone track Hbone Htrack.
  assert (b < length (RMXSkeleton.bones skeleton))%nat as Hb
    by (by eapply lookup_lt_Some).
  destruct (Hval b bone track Hbone Htrack) as (Vp & Vr & Vs). simpl in *.
  split_and!; intros k Hk.
  - rewrite Vp by lia. f_equal. unfold sampled_pos.
    destruct (RMXAnimationTrack.pos track); [|done].
    by destruct k as [|[|[|k]]].
  - rewrite Vr by lia. f_equal. unfold sampled_rot.
    by destruct (RMXAnimationTrack.rot track).
  - rewrite Vs by lia. f_equal. unfold sampled_scl.
    destruct (RMXAnimationTrack.scl track); [|done].
    by destruct k as [|[|[|k]]].
Qed.

Lemma same_channels_body sm b t1 t2 bone st :
  same_channels t1 t2 ->
  sampleAnimation_bone sm b (Some (Some t1)) bone st =
  sampleAnimation_bone sm b (Some (Some t2)) bone st.
Proof.
  destruct t1 as [b1 p1 r1 s1], t2 as [b2 p2 r2 s2].
  intros (Hp & Hr & Hs). simpl in *. by subst.
Qed.

Lemma same_channels_loop sm tracks1 tracks2 bones b0 st :
  Forall2 (option_Forall2 same_channels) tracks1 tracks2 ->
  sampleAnimation_loop sm tracks1 bones b0 st =
  sampleAnimation_loop sm tracks2 bones b0 st.
Proof.
  intros Hsame. revert b0 st.
  induction bones as [|bone bones IH]; intros b0 st; [done|].
  cbn [sampleAnimation_loop].
  assert (sampleAnimation_bone sm b0 (tracks1 !! b0) bone st =
          sampleAnimation_bone sm b0 (tracks2 !! b0) bone st) as ->.
  { destruct (tracks1 !! b0) as [o1|] eqn:E1.
    - destruct (Forall2_lookup_l _ _ _ _ _ Hsame E1) as (o2 & -> & Ho).
      destruct Ho as [t1 t2 Ht|]; [by apply same_channels_body|done].
    - assert (tracks2 !! b0 = None) as ->; [|done].
      apply lookup_ge_None. rewrite <- (Forall2_length _ _ _ Hsame).
      by apply lookup_ge_None. }
  destruct (sampleAnimation_bone sm b0 (tracks2 !! b0) bone st) as [[[]|] st'];
    [apply IH|done].
Qed.

(** C9: two animations that differ only in the [bone] fields of their tracks
    are sampled alike, whatever the skeleton, the frame, the pose and the
    scratch registers: the completion, the pose and the registers left
    behind are the same. *)
Theorem sampleAnimation_ignores_track_bone (a1 a2 : RMXAnimation.t)
    (skeleton : RMXSkeleton.t) (frame : number) (scr : Scratch) (pose : RMXPose.t) :
  same_up_to_bone a1 a2 ->
  sampleAnimation a1 skeleton frame scr pose =
  sampleAnimation a2 skeleton frame scr pose.
Proof.
  intros (_ & Hframes & _ & Htracks). unfold sampleAnimation.
  rewrite Hframes. by apply same_channels_loop.
Qed.

End Robustness.

(** ** Exporting a pose *)

Section ExportFacts.
Import RMXSkeletalAnimation Spec.
Context `{GL : GLMatrix}.

(** Storing values at [s], [s + 1], ..., [s + n - 1]. *)
Lemma write_run (g : nat -> number) (s n : nat) (d : list number) :
  let d' := foldl (fun d i => write d (s + i) (g i)) d (seq 0 n) in
  length d' = length d /\
  (forall j, (j < s \/ s + n <= j)%nat -> d' !! j = d !! j) /\
  (forall i, (i < n)%nat -> (s + i < length d)%nat -> d' !! (s + i)%nat = Some (g i)).
Proof.
  induction n as [|n (Hlen & Hout & Hin)]; [by repeat split; intros; simpl; lia || done|].
  rewrite seq_S, foldl_app. simpl. split_and!.
  - by rewrite length_write.
  - intros j Hj. rewrite lookup_write_ne by lia. apply Hout. lia.
  - intros i Hi Hd. destruct (decide (i = n)) as [->|].
    + apply lookup_write_eq. lia.
    + rewrite lookup_write_ne by lia. apply Hin; lia.
Qed.

Lemma length_write_matrix dest b m : length (write_matrix dest b m) = length dest.
Proof. apply (write_run (mat4_get m) (b * 16) 16). Qed.

Lemma lookup_write_matrix_out dest b m j :
  (j < b * 16 \/ b * 16 + 16 <= j)%nat -> write_matrix dest b m !! j = dest !! j.
Proof. apply (write_run (mat4_get m) (b * 16) 16). Qed.

Lemma lookup_write_matrix_in dest b m i :
  (i < 16)%nat -> (b * 16 + i < length dest)%nat ->
  write_matrix dest b m !! (b * 16 + i)%nat = Some (mat4_get m i).
Proof. apply (write_run (mat4_get m) (b * 16) 16). Qed.

(** The world matrices are read off the translation, rotation and scale of
    the pose only. *)
Lemma world_ext bones pose pose' b w :
  RMXPose.pos pose' = RMXPose.pos pose ->
  RMXPose.rot pose' = RMXPose.rot pose ->
  RMXPose.scl pose' = RMXPose.scl pose ->
  world bones pose b w -> world bones pose' b w.
Proof.
  intros Hp Hr Hs Hw.
  assert (forall b, local_matrix pose b = local_matrix pose' b) as Hlocal.
  { intros b'. unfold local_matrix. by rewrite Hp, Hr, Hs. }
  induction Hw as [b bone Hb Hroot|b bone p wp Hb Hparent Hwp IH]; rewrite Hlocal.
  - by eapply world_root.
  - by eapply world_child.
Qed.

(** A bone has one world matrix. *)
Lemma world_functional bones pose b w w' :
  world bones pose b w -> world bones pose b w' -> w = w'.
Proof.
  intros Hw. revert w'.
  induction Hw as [b bone Hb Hroot|b bone p wp Hb Hparent Hwp IH];
    intros w' Hw'; inversion Hw' as [b' bone' Hb' Hroot'|b' bone' p' wp' Hb' Hparent' Hwp'];
    subst; rewrite Hb in Hb'; injection Hb' as <-.
  - done.
  - rewrite Hroot in Hparent'. apply of_Z_inj in Hparent'. lia.
  - rewrite Hroot' in Hparent. apply of_Z_inj in Hparent. lia.
  - rewrite Hparent in Hparent'. apply of_Z_inj, Nat2Z.inj in Hparent' as <-.
    by rewrite (IH wp').
Qed.

(** The body of the loop for a root bone. *)
Lemma exportPose_bone_root b bone scr pose dest w0 :
  RMXBone.parent bone = of_Z (-1) ->
  RMXPose.world_matrices pose !! b = Some w0 ->
  exists scr',
    exportPose_bone b bone (scr, pose, dest) =
    (Normal (),
     (scr',
      set_world_matrices (<[b := local_matrix pose b]> (RMXPose.world_matrices pose)) pose,
      write_matrix dest b
        (mat4_multiply (local_matrix pose b) (RMXBone.inv_bind_mat bone)))).
Proof.
  intros Hparent Hw. unfold exportPose_bone. rewrite Hparent, geb_of_Z.
  rewrite bool_decide_eq_false_2 by lia. rewrite Hw. by eexists.
Qed.

(** The body of the loop for a bone with a parent. *)
Lemma exportPose_bone_child b bone scr pose dest w0 p wp :
  RMXBone.parent bone = of_nat p ->
  RMXPose.world_matrices pose !! b = Some w0 ->
  RMXPose.world_matrices pose !! p = Some wp ->
  exists scr',
    exportPose_bone b bone (scr, pose, dest) =
    (Normal (),
     (scr',
      set_world_matrices
        (<[b := mat4_multiply wp (local_matrix pose b)]> (RMXPose.world_matrices pose))
        pose,
      write_matrix dest b
        (mat4_multiply (mat4_multiply wp (local_matrix pose b))
                       (RMXBone.inv_bind_mat bone)))).
Proof.
  intros Hparent Hw Hwp. unfold exportPose_bone. rewrite Hparent.
  unfold of_nat at 1. rewrite geb_of_Z, bool_decide_eq_true_2 by lia.
  rewrite to_index_of_nat. simpl. rewrite Hwp, Hw. by eexists.
Qed.

Lemma exportPose_loop_exported bones pose0 :
  topological bones ->
  forall rest passed scr pose dest,
    bones = passed ++ rest ->
    (length bones <= length (RMXPose.world_matrices pose))%nat ->
    (length bones * 16 <= length dest)%nat ->
    RMXPose.pos pose = RMXPose.pos pose0 ->
    RMXPose.rot pose = RMXPose.rot pose0 ->
    RMXPose.scl pose = RMXPose.scl pose0 ->
    exported bones pose0 (length passed) pose dest ->
    exists scr' pose' dest',
      exportPose_loop rest (length passed) (scr, pose, dest) =
        (Normal (), (scr', pose', dest')) /\
      RMXPose.pos pose' = RMXPose.pos pose0 /\
      RMXPose.rot pose' = RMXPose.rot pose0 /\
      RMXPose.scl pose' = RMXPose.scl pose0 /\
      length dest' = length dest /\
      exported bones pose0 (length bones) pose' dest'.
Proof.
  intros Htopo rest.
  induction rest as [|bone rest IH]; intros passed scr pose dest Hsplit Hwm Hdest Hp Hr Hs Hinv.
  - exists scr, pose, dest. rewrite app_nil_r in Hsplit. rewrite Hsplit in *.
    by split_and!.
  - set (b := length passed).
    assert (bones !! b = Some bone) as Hbone.
    { rewrite Hsplit. by apply list_lookup_middle. }
    assert (b < length bones)%nat as Hb by (by eapply lookup_lt_Some).
    destruct (lookup_lt_is_Some_2 (RMXPose.world_matrices pose) b) as [w0 Hw0]; [lia|].
    assert (local_matrix pose b = local_matrix pose0 b) as Hlocal.
    { unfold local_matrix. by rewrite Hp, Hr, Hs. }
    assert (exists scr1 w,
      exportPose_bone b bone (scr, pose, dest) =
        (Normal (),
         (scr1, set_world_matrices (<[b := w]> (RMXPose.world_matrices pose)) pose,
          write_matrix dest b (mat4_multiply w (RMXBone.inv_bind_mat bone)))) /\
      world bones pose0 b w) as (scr1 & w & Hbody & Hworld).
    { destruct (Htopo b bone Hbone) as [Hroot|(p & Hparent & Hlt)].
      - destruct (exportPose_bone_root b bone scr pose dest w0 Hroot Hw0) as [scr1 E].
        exists scr1, (local_matrix pose b). split; [done|].
        rewrite Hlocal. by eapply world_root.
      - assert (p < length bones)%nat as Hp' by lia.
        destruct (lookup_lt_is_Some_2 bones p Hp') as [pbone Hpbone].
        destruct (Hinv p pbone Hlt Hpbone) as (wp & Hwp & Hlook & _).
        destruct (exportPose_bone_child b bone scr pose dest w0 p wp Hparent Hw0 Hlook)
          as [scr1 E].
        exists scr1, (mat4_multiply wp (local_matrix pose b)). split; [done|].
        rewrite Hlocal. by eapply world_child. }
    cbn [exportPose_loop]. fold b. rewrite Hbody.
    set (pose1 := set_world_matrices _ pose).
    set (dest1 := write_matrix dest b _).
    destruct (IH (passed ++ [bone]) scr1 pose1 dest1)
      as (scr' & pose' & dest' & Hrun & Hp' & Hr' & Hs' & Hlen & Hfinal).
    + by rewrite <- app_assoc.
    + subst pose1. simpl. by rewrite length_insert.
    + subst dest1. by rewrite length_write_matrix.
    + done.
    + done.
    + done.
    + rewrite length_app. simpl. fold b.
      intros j jbone Hj Hjbone.
      destruct (decide (j = b)) as [->|Hne].
      * rewrite Hbone in Hjbone. injection Hjbone as <-.
        exists w. split; [done|]. split.
        -- subst pose1. simpl. apply list_lookup_insert_eq. lia.
        -- intros i Hi. subst dest1. apply lookup_write_matrix_in; [done|]. lia.
      * destruct (Hinv j jbone) as (wj & Hwj & Hlook & Hd); [lia|done|].
        exists wj. split; [done|]. split.
        -- subst pose1. simpl. by rewrite list_lookup_insert_ne.
        -- intros i Hi. subst dest1. rewrite lookup_write_matrix_out by lia.
           by apply Hd.
    + exists scr', pose', dest'. split.
      * rewrite length_app, Nat.add_1_r in Hrun. exact Hrun.
      * split_and!; try done. subst dest1. by rewrite Hlen, length_write_matrix.
Qed.

(** Whatever the matrix library: for a skeleton in parent-before-child order,
    a pose with a world matrix per bone and a destination of at least 16
    floats per bone, [exportPose] returns normally and leaves for every bone
    the 16 floats of the library's product of the bone's world matrix (also
    left in the pose) and its inverse bind matrix. *)
Lemma exportPose_exports_world (skeleton : RMXSkeleton.t)
    (scr : Scratch) (pose : RMXPose.t) (dest : list number) :
  topological (RMXSkeleton.bones skeleton) ->
  (length (RMXSkeleton.bones skeleton) <= length (RMXPose.world_matrices pose))%nat ->
  (length (RMXSkeleton.bones skeleton) * 16 <= length dest)%nat ->
  exists scr' pose' dest',
    exportPose skeleton scr pose dest = (Normal (), (scr', pose', dest')) /\
    forall b bone, RMXSkeleton.bones skeleton !! b = Some bone ->
      exists w, world (RMXSkeleton.bones skeleton) pose b w /\
        RMXPose.world_matrices pose' !! b = Some w /\
        forall i, (i < 16)%nat ->
          dest' !! (b * 16 + i)%nat =
          Some (mat4_get (mat4_multiply w (RMXBone.inv_bind_mat bone)) i).
Proof.
  intros Htopo Hwm Hdest. unfold exportPose.
  destruct (exportPose_loop_exported (RMXSkeleton.bones skeleton) pose Htopo
              (RMXSkeleton.bones skeleton) [] scr pose dest)
    as (scr' & pose' & dest' & Hrun & _ & _ & _ & _ & Hfinal); try done.
  { intros b bone Hb. simpl in Hb. lia. }
  exists scr', pose', dest'. split; [done|].
  intros b bone Hbone. apply Hfinal; [by eapply lookup_lt_Some|done].
Qed.

End ExportFacts.

(** ** The layout of the exported matrices *)

Section LayoutFacts.
Import RMXSkeletalAnimation Layout.

Lemma mul_comm (a b : number) : mul a b = mul b a.
Proof. destruct a, b; try reflexivity. unfold mul, lift2. f_equal. ring. Qed.

Lemma two_times (a b : Qc) : (a * (b + b) = Qc_of_Z 2 * (a * b))%Qc.
Proof.
  change (Qc_of_Z 2) with (Qc_of_Z (1 + 1)). rewrite Z2Qc_inj_add, Z2Qc_inj_1. ring.
Qed.

Lemma doubled (a b : number) : mul a (add b b) = mul (of_Z 2) (mul a b).
Proof.
  destruct a, b; try reflexivity. unfold mul, add, lift2, of_Z. f_equal.
  apply two_times.
Qed.

Lemma mul_add_distr (a b c : number) : mul a (add b c) = add (mul a b) (mul a c).
Proof. destruct a, b, c; try reflexivity. unfold mul, add, lift2. f_equal. ring. Qed.

Lemma mul_sub_distr (a b c : number) : mul a (sub b c) = sub (mul a b) (mul a c).
Proof. destruct a, b, c; try reflexivity. unfold mul, sub, lift2. f_equal. ring. Qed.

(** In exact arithmetic the rotation the library computes is the rotation
    matrix of the quaternion. *)
Lemma rotation_exact (q : Quat) (r c : nat) :
  rotation add sub mul (fun a => a) q r c = rotation_matrix q r c.
Proof.
  destruct q as [x y z w].
  destruct r as [|[|[|r]]]; destruct c as [|[|[|c]]];
    cbv [rotation rotation_matrix q0 q1 q2 q3];
    rewrite ?doubled, ?mul_add_distr, ?mul_sub_distr; reflexivity.
Qed.

Section Machine.
Variable plus minus times : number -> number -> number.
Variable store : number -> number.
(** Multiplication commutes, also when it rounds. *)
Hypothesis times_comm : forall a b, times a b = times b a.
Variable slerp : Quat -> Quat -> number -> Quat.

Local Notation "'lib'" := (glMatrix.gl plus minus times store slerp).
Local Notation "'mproduct'" := (product plus times store).
Local Notation "'mlocal'" := (local_matrix plus minus times store).
Local Notation "'mworld'" := (world plus minus times store).

(** [mat4.multiply] is the matrix product of matrices held column by
    column. *)
Lemma multiply_column_major (a b : list number) (r c : nat) :
  (r < 4)%nat -> (c < 4)%nat ->
  column_major (glMatrix.multiply plus times store a b) r c =
  mproduct (column_major a) (column_major b) r c.
Proof.
  intros Hr Hc.
  destruct r as [|[|[|[|r]]]]; [| | | |lia];
    destruct c as [|[|[|[|c]]]]; try lia;
    cbv [column_major product glMatrix.multiply glMatrix.multiply_column app
         Nat.mul Nat.add];
    cbn [read lookup list_lookup];
    by rewrite (times_comm (read b _)), (times_comm (read b _)),
               (times_comm (read b _)), (times_comm (read b _)).
Qed.

(** [mat4.fromRotationTranslation] followed by [mat4.scale] is the affine
    matrix of translation, rotation and scale, held column by column. *)
Lemma transform_column_major (t : Vec3) (q : Quat) (s : Vec3) (r c : nat) :
  (r < 4)%nat -> (c < 4)%nat ->
  column_major
    (glMatrix.scale times store
       (glMatrix.fromRotationTranslation plus minus times store q t) s) r c =
  transform plus minus times store t q s r c.
Proof.
  intros Hr Hc. destruct q as [x y z w], t as [t0 t1 t2], s as [s0 s1 s2].
  destruct r as [|[|[|[|r]]]]; [| | | |lia];
    destruct c as [|[|[|[|c]]]]; try lia; reflexivity.
Qed.

Lemma local_column_major (pose : RMXPose.t (H := lib)) (b r c : nat) :
  (r < 4)%nat -> (c < 4)%nat ->
  column_major (Spec.local_matrix (GL := lib) pose b) r c = mlocal pose b r c.
Proof. intros Hr Hc. by apply transform_column_major. Qed.

Lemma product_ext (A A' B B' : Matrix) (r c : nat) :
  (forall k, (k < 4)%nat -> A r k = A' r k) ->
  (forall k, (k < 4)%nat -> B k c = B' k c) ->
  mproduct A B r c = mproduct A' B' r c.
Proof.
  intros HA HB. unfold product.
  by rewrite !HA, !HB by lia.
Qed.

(** The world matrix the exporter computes with the library is the world
    matrix of the specification, held column by column. *)
Lemma world_column_major (bones : list (RMXBone.t (H := lib)))
    (pose : RMXPose.t (H := lib)) (b : nat) (w : list number) :
  Spec.world (GL := lib) bones pose b w ->
  exists W, mworld bones pose b W /\
    forall r c, (r < 4)%nat -> (c < 4)%nat -> column_major w r c = W r c.
Proof.
  induction 1 as [b bone Hbone Hparent|b bone p wp Hbone Hparent _ (Wp & HWp & Hwp)].
  - exists (mlocal pose b). split; [by eapply world_root|].
    intros r c Hr Hc. by apply local_column_major.
  - exists (mproduct Wp (mlocal pose b)). split; [by eapply world_child|].
    intros r c Hr Hc.
    change (mat4_multiply wp (Spec.local_matrix pose b))
      with (glMatrix.multiply plus times store wp (Spec.local_matrix (GL := lib) pose b)).
    rewrite multiply_column_major by done.
    apply product_ext; intros k Hk; [by apply Hwp|by apply local_column_major].
Qed.

(** C1, as the code has it: for a skeleton in parent-before-child order, a
    pose with a world matrix per bone and a destination of at least 16
    floats per bone, [exportPose] returns normally and leaves in
    [dest[16 b .. 16 b + 15]] the product of the world matrix of bone [b]
    and its inverse bind matrix, column by column as gl-matrix holds its
    matrices: float [16 b + 4 c + r] is the entry of row [r] and column
    [c].  The world matrix is the local matrix of a root and the parent's
    world matrix times the local matrix otherwise; the local matrix is the
    affine matrix of the translation, rotation and scale the pose holds for
    the bone.  This holds for the arithmetic of the machine, whatever it
    rounds, as long as its multiplication commutes. *)
Theorem exportPose_writes_column_major (skeleton : RMXSkeleton.t (H := lib))
    (scr : Scratch (GL := lib)) (pose : RMXPose.t (H := lib)) (dest : list number) :
  Spec.topological (RMXSkeleton.bones skeleton) ->
  (length (RMXSkeleton.bones skeleton) <= length (RMXPose.world_matrices pose))%nat ->
  (length (RMXSkeleton.bones skeleton) * 16 <= length dest)%nat ->
  exists scr' pose' dest',
    exportPose skeleton scr pose dest = (Normal (), (scr', pose', dest')) /\
    forall b bone, RMXSkeleton.bones skeleton !! b = Some bone ->
      exists W, mworld (RMXSkeleton.bones skeleton) pose b W /\
        forall r c, (r < 4)%nat -> (c < 4)%nat ->
          dest' !! (b * 16 + c * 4 + r)%nat =
          Some (mproduct W (column_major (RMXBone.inv_bind_mat bone)) r c).
Proof.
  intros Htopo Hwm Hdest.
  destruct (exportPose_exports_world skeleton scr pose dest Htopo Hwm Hdest)
    as (scr' & pose' & dest' & Hrun & Hfinal).
  exists scr', pose', dest'. split; [exact Hrun|].
  intros b bone Hbone.
  destruct (Hfinal b bone Hbone) as (w & Hworld & _ & Hfloats).
  destruct (world_column_major _ _ _ _ Hworld) as (W & HW & Hw).
  exists W. split; [exact HW|].
  intros r c Hr Hc.
  replace (b * 16 + c * 4 + r)%nat with (b * 16 + (c * 4 + r))%nat by lia.
  rewrite Hfloats by lia. f_equal.
  change (column_major (glMatrix.multiply plus times store w
                          (RMXBone.inv_bind_mat bone)) r c =
          mproduct W (column_major (RMXBone.inv_bind_mat bone)) r c).
  rewrite multiply_column_major by done.
  apply product_ext; intros k Hk; [by apply Hw|reflexivity].
Qed.

End Machine.
End LayoutFacts.

(** ** The exporter on the library at a concrete skeleton *)

Section LayoutInstances.
Import RMXSkeletalAnimation Layout Examples LayoutExamples.

#[local] Existing Instance lib.

Lemma leg_topological : Spec.topological (RMXSkeleton.bones leg).
Proof.
  intros [|[|b]] bone Hb; simpl in Hb; [| |done].
  - injection Hb as <-. by left.
  - injection Hb as <-. right. exists 0%nat. split; [done|lia].
Qed.

Lemma knee_world_is_world :
  world add sub mul exact (RMXSkeleton.bones leg) leg_pose 1 knee_world.
Proof.
  apply (world_child _ _ _ _ _ _ 1 knee 0); [reflexivity|reflexivity|].
  by apply (world_root _ _ _ _ _ _ 0 hip).
Qed.

(** The run of [exportPose] on the leg: the knee's world matrix times its
    inverse bind matrix has 18 in row 2 of column 3 (the z of the knee's
    translation).  The float at [16 + 4 * 2 + 3], where a matrix held row by
    row has this entry, is 0; the 18 is at [16 + 4 * 3 + 2]. *)
Lemma exportPose_not_row_major :
  world add sub mul exact (RMXSkeleton.bones leg) leg_pose 1 knee_world /\
  product add mul exact knee_world (row_major (RMXBone.inv_bind_mat knee)) 2%nat 3%nat =
    of_Z 18 /\
  (exportPose leg leg_registers leg_pose leg_dest).1 = Normal () /\
  (exportPose leg leg_registers leg_pose leg_dest).2.2 !! (1 * 16 + 2 * 4 + 3)%nat =
    Some (of_Z 0) /\
  (exportPose leg leg_registers leg_pose leg_dest).2.2 !! (1 * 16 + 3 * 4 + 2)%nat =
    Some (of_Z 18).
Proof.
  split; [exact knee_world_is_world|].
  split_and!; apply (bool_decide_unpack _); by vm_compute.
Qed.

Lemma exportPose_writes_column_major_witness :
  (forall a b, mul a b = mul b a) /\
  Spec.topological (RMXSkeleton.bones leg) /\
  (length (RMXSkeleton.bones leg) <= length (RMXPose.world_matrices leg_pose))%nat /\
  (length (RMXSkeleton.bones leg) * 16 <= length leg_dest)%nat /\
  exists scr' pose' dest',
    exportPose leg leg_registers leg_pose leg_dest = (Normal (), (scr', pose', dest')) /\
    forall b bone, RMXSkeleton.bones leg !! b = Some bone ->
      exists W, world add sub mul exact (RMXSkeleton.bones leg) leg_pose b W /\
        forall r c, (r < 4)%nat -> (c < 4)%nat ->
          dest' !! (b * 16 + c * 4 + r)%nat =
          Some (product add mul exact W (column_major (RMXBone.inv_bind_mat bone)) r c).
Proof.
  split; [exact mul_comm|]. split; [exact leg_topological|].
  split; [simpl; lia|]. split; [simpl; lia|].
  apply (exportPose_writes_column_major add sub mul exact mul_comm Reference.blend
           leg leg_registers leg_pose leg_dest).
  - exact leg_topological.
  - simpl. lia.
  - simpl. lia.
Defined.

End LayoutInstances.

(** ** A <source> whose accessor names another array *)

Section NonLocalSource.
Import Loader.
Context `{Ops : ContextOps}.

(** C7, as the code has it: when the accessor's [source] attribute is not
    "#" followed by the id of the sibling array, [parseAccessor] throws
    nothing of its own: once the four attributes are read it writes one
    message, "Source <id> uses a non-local data source, this is not
    supported", to the log at severity [Error], and goes on to parse the
    children of the accessor with count, stride and offset stored in the
    source -- what it does for a matching id, but for the log entry.  An
    accessor without children so returns the source. *)
Theorem parseAccessor_nonlocal_source_logged (node : Node) (source : Source)
    (c c1 c2 c3 c4 : Context) (sid : option string) (cnt st o : number) :
  getAttributeAsString node "source" None true c = (Normal sid, c1) ->
  getAttributeAsInt node "count" (of_Z 0) true c1 = (Normal cnt, c2) ->
  getAttributeAsInt node "stride" (of_Z 1) false c2 = (Normal st, c3) ->
  getAttributeAsInt node "offset" (of_Z 0) false c3 = (Normal o, c4) ->
  sid <> Some ("#" +:+ str (sourceId source)) ->
  parseAccessor node source c =
    parseAccessor_children node (set_accessor cnt st o source)
      (log_write (nonlocal_message source) Error c4) /\
  (childNodes node = [] ->
   parseAccessor node source c =
     (Normal (set_accessor cnt st o source),
      log_write (nonlocal_message source) Error c4)).
Proof.
  intros E1 E2 E3 E4 Hne.
  assert (parseAccessor node source c =
          parseAccessor_children node (set_accessor cnt st o source)
            (log_write (nonlocal_message source) Error c4)) as Hrun.
  { unfold parseAccessor, parseAccessor_children.
    unfold mbind, M_bind. rewrite E1, E2, E3, E4.
    change (sourceId (set_accessor cnt st o source)) with (sourceId source).
    by rewrite decide_False. }
  split; [exact Hrun|]. intros Hleaf. rewrite Hrun.
  unfold parseAccessor_children, forEachChild. by rewrite Hleaf.
Qed.

(** With a matching id the same children are parsed from the context the
    attribute reads leave, the log untouched. *)
Lemma parseAccessor_local_source (node : Node) (source : Source)
    (c c1 c2 c3 c4 : Context) (sid : option string) (cnt st o : number) :
  getAttributeAsString node "source" None true c = (Normal sid, c1) ->
  getAttributeAsInt node "count" (of_Z 0) true c1 = (Normal cnt, c2) ->
  getAttributeAsInt node "stride" (of_Z 1) false c2 = (Normal st, c3) ->
  getAttributeAsInt node "offset" (of_Z 0) false c3 = (Normal o, c4) ->
  sid = Some ("#" +:+ str (sourceId source)) ->
  parseAccessor node source c =
    parseAccessor_children node (set_accessor cnt st o source) c4.
Proof.
  intros E1 E2 E3 E4 He. unfold parseAccessor, parseAccessor_children.
  unfold mbind, M_bind. rewrite E1, E2, E3, E4.
  change (sourceId (set_accessor cnt st o source)) with (sourceId source).
  by rewrite decide_True.
Qed.

End NonLocalSource.

(** ** The theorems at concrete inputs *)

Section Instances.
Import RMXSkeletalAnimation Spec Loader Examples.

#[local] Existing Instance Reference.gl.
#[local] Existing Instance Reference.ops.

(** The reference product is the product of row-major matrices. *)
Lemma multiply_entry (a b : list number) (r c : nat) :
  (r < 4)%nat -> (c < 4)%nat ->
  Reference.entry (Reference.multiply a b) r c =
  add (add (mul (Reference.entry a r 0) (Reference.entry b 0 c))
           (mul (Reference.entry a r 1) (Reference.entry b 1 c)))
      (add (mul (Reference.entry a r 2) (Reference.entry b 2 c))
           (mul (Reference.entry a r 3) (Reference.entry b 3 c))).
Proof.
  intros Hr Hc.
  destruct r as [|[|[|[|r]]]]; [| | | |lia];
    (destruct c as [|[|[|[|c]]]]; [| | | |lia]); reflexivity.
Qed.


Lemma chain_topological : topological (RMXSkeleton.bones chain).
Proof.
  intros [|[|b]] bone Hb; simpl in Hb; [| |done].
  - injection Hb as <-. by left.
  - injection Hb as <-. right. exists 0%nat. split; [done|lia].
Qed.

Lemma chain_covered (a : RMXAnimation.t) t0 t1 :
  RMXAnimation.tracks a = [Some t0; Some t1] ->
  tracks_cover (RMXAnimation.tracks a) (RMXSkeleton.bones chain).
Proof.
  intros -> [|[|b]] Hb; simpl in Hb; [by eexists|by eexists|lia].
Qed.

Lemma pose2_fits : pose_fits pose2 (RMXSkeleton.bones chain).
Proof. unfold pose_fits. simpl. lia. Qed.



(** The run of [sampleAnimation] on the animation whose second track is
    [null]: the root is sampled, then the call throws. *)
Lemma sampleAnimation_null_track_run :
  (sampleAnimation slide_null_track chain (of_Z 0) registers pose2).1 =
  Throw "TypeError".
Proof. apply (bool_decide_unpack _). by vm_compute. Qed.

Lemma sampleAnimation_null_track_throws_witness :
  (1 < length (RMXSkeleton.bones chain))%nat /\
  RMXAnimation.tracks slide_null_track !! 1%nat = Some None /\
  exists st,
    sampleAnimation slide_null_track chain (of_Z 0) registers pose2 =
    (Throw "TypeError", st).
Proof.
  split; [simpl; lia|]. split; [reflexivity|].
  apply (sampleAnimation_null_track_throws slide_null_track chain (of_Z 0)
           registers pose2 1); [simpl; lia|reflexivity].
Defined.

(** The run of [sampleAnimation] on the animation without frames: it
    returns normally and the root's position, whose channel is present, is
    [NaN]; the child keeps its rest position. *)
Lemma sampleAnimation_no_frames_run :
  (sampleAnimation no_frames chain (of_Z 0) registers pose2).1 = Normal () /\
  RMXPose.pos (sampleAnimation no_frames chain (of_Z 0) registers pose2).2.2 =
    [NaN; NaN; NaN; of_Z 0; of_Z 5; of_Z 0].
Proof. split; apply (bool_decide_unpack _); by vm_compute. Qed.

Lemma sampleAnimation_no_frames_witness :
  RMXAnimation.frames no_frames = of_Z 0 /\
  tracks_cover (RMXAnimation.tracks no_frames) (RMXSkeleton.bones chain) /\
  pose_fits pose2 (RMXSkeleton.bones chain) /\
  exists scr' pose',
    sampleAnimation no_frames chain (of_Z 1) registers pose2 =
      (Normal (), (scr', pose')) /\
    RMXPose.world_matrices pose' = RMXPose.world_matrices pose2 /\
    forall b bone track,
      RMXSkeleton.bones chain !! b = Some bone ->
      RMXAnimation.tracks no_frames !! b = Some (Some track) ->
      (forall k, (k < 3)%nat ->
         RMXPose.pos pose' !! (b * 3 + k)%nat =
         Some (match RMXAnimationTrack.pos track with
               | Some _ => NaN
               | None => vec3_get (RMXBone.pos bone) k
               end)) /\
      (forall k, (k < 4)%nat ->
         RMXPose.rot pose' !! (b * 4 + k)%nat =
         Some (match RMXAnimationTrack.rot track with
               | Some _ => quat_get (quat_slerp nanq nanq NaN) k
               | None => quat_get (RMXBone.rot bone) k
               end)) /\
      (forall k, (k < 3)%nat ->
         RMXPose.scl pose' !! (b * 3 + k)%nat =
         Some (match RMXAnimationTrack.scl track with
               | Some _ => NaN
               | None => vec3_get (RMXBone.scl bone) k
               end)).
Proof.
  assert (tracks_cover (RMXAnimation.tracks no_frames) (RMXSkeleton.bones chain)) as Hc
    by (by eapply chain_covered).
  split; [reflexivity|]. split; [exact Hc|]. split; [exact pose2_fits|].
  apply (sampleAnimation_no_frames no_frames chain (of_Z 1) registers pose2);
    [reflexivity|exact Hc|exact pose2_fits].
Defined.

Lemma slide_rebound_same : same_up_to_bone slide slide_rebound.
Proof.
  unfold same_up_to_bone. split_and!; try reflexivity.
  simpl. repeat constructor.
Qed.

Lemma sampleAnimation_ignores_track_bone_witness :
  same_up_to_bone slide slide_rebound /\
  sampleAnimation slide chain (Fin (Q2Qc (1 # 2))) registers pose2 =
  sampleAnimation slide_rebound chain (Fin (Q2Qc (1 # 2))) registers pose2.
Proof.
  split; [exact slide_rebound_same|].
  apply (sampleAnimation_ignores_track_bone slide slide_rebound chain
           (Fin (Q2Qc (1 # 2))) registers pose2).
  exact slide_rebound_same.
Defined.

(** The parse of the <source> whose accessor names "#other": it returns
    the Source, with the accessor's count, stride and offset and its three
    params, and the log holds the one message, at severity [Error]. *)
Lemma parse_nonlocal_source_returns :
  match parse source empty_context with
  | (Normal s, c) =>
      sourceId s = Some "arr" /\
      count s = Some (of_Z 2) /\ stride s = Some (of_Z 3) /\
      offset s = Some (of_Z 0) /\
      params s !! "X" = Some "float" /\ params s !! "Y" = Some "float" /\
      params s !! "Z" = Some "float" /\ size (params s) = 3%nat /\
      Reference.log c =
        [("Source positions uses a non-local data source, this is not supported",
          Error)]
  | (Throw _, _) => False
  end.
Proof.
  vm_compute. split_and!; reflexivity.
Qed.

Lemma parseAccessor_nonlocal_source_logged_witness :
  getAttributeAsString accessor "source" None true empty_context =
    (Normal (Some "#other"), empty_context) /\
  getAttributeAsInt accessor "count" (of_Z 0) true empty_context =
    (Normal (of_Z 2), empty_context) /\
  getAttributeAsInt accessor "stride" (of_Z 1) false empty_context =
    (Normal (of_Z 3), empty_context) /\
  getAttributeAsInt accessor "offset" (of_Z 0) false empty_context =
    (Normal (of_Z 0), empty_context) /\
  Some "#other" <> Some ("#" +:+ str (sourceId parsed_array)) /\
  parseAccessor accessor parsed_array empty_context =
    parseAccessor_children accessor
      (set_accessor (of_Z 2) (of_Z 3) (of_Z 0) parsed_array)
      (log_write (nonlocal_message parsed_array) Error empty_context) /\
  (childNodes accessor = [] ->
   parseAccessor accessor parsed_array empty_context =
     (Normal (set_accessor (of_Z 2) (of_Z 3) (of_Z 0) parsed_array),
      log_write (nonlocal_message parsed_array) Error empty_context)).
Proof.
  split; [reflexivity|]. split; [reflexivity|]. split; [reflexivity|].
  split; [reflexivity|]. split; [discriminate|].
  apply (parseAccessor_nonlocal_source_logged accessor parsed_array
           empty_context empty_context empty_context empty_context empty_context
           (Some "#other") (of_Z 2) (of_Z 3) (of_Z 0));
    [reflexivity|reflexivity|reflexivity|reflexivity|discriminate].
Defined.

End Instances.

Section MoreNumberFacts.

Lemma Qfloor_unique (x : Qc) (z : Z) :
  Qcle (Qc_of_Z z) x -> Qclt x (Qc_of_Z (z + 1)) -> Qfloor x = z.
Proof.
  intros Hlo Hhi.
  assert (z <= Qfloor x) as H1.
  { rewrite <- (Qfloor_Z z). by apply Qfloor_resp_le. }
  assert (Qfloor x < z + 1) as H2.
  { rewrite Zlt_Qlt. eapply Qle_lt_trans; [apply Qfloor_le|]. exact Hhi. }
  lia.
Qed.

Lemma Qc_of_Z_lt (a b : Z) : a < b -> Qclt (Qc_of_Z a) (Qc_of_Z b).
Proof. apply (Z2Qc_inj_lt a b). Qed.

Lemma Qfloor_succ (y : Qc) : Qfloor (y + Qc_of_Z 1)%Qc = Qfloor y + 1.
Proof.
  apply Qfloor_unique.
  - rewrite Z2Qc_inj_add. apply Qcplus_le_mono_r. exact (Qfloor_le y).
  - replace (Qfloor y + 1 + 1) with ((Qfloor y + 1) + 1) by lia.
    rewrite (Z2Qc_inj_add (Qfloor y + 1)). apply Qcplus_lt_mono_r.
    exact (Qlt_floor y).
Qed.

Lemma Qcdiv_nonneg (x q : Qc) :
  Qcle (Qc_of_Z 0) x -> Qclt (Qc_of_Z 0) q -> Qcle (Qc_of_Z 0) (x / q)%Qc.
Proof.
  rewrite Z2Qc_inj_0. intros Hx Hq.
  assert (q <> 0%Qc) as Hne by (intros ->; by apply Qclt_not_eq in Hq).
  apply (Qcmult_le_mono_pos_r _ _ q); [done|].
  rewrite Qcmult_0_l, Qcmult_comm, Qcmult_div_r; done.
Qed.

(** The remainder has the divisor as a period on the non-negative numbers. *)
Lemma rem_period (x q : Qc) :
  Qcle (Qc_of_Z 0) x -> Qclt (Qc_of_Z 0) q ->
  rem (Fin (x + q)%Qc) (Fin q) = rem (Fin x) (Fin q).
Proof.
  intros Hx Hq. unfold rem.
  destruct (decide (q = Qc_of_Z 0)) as [->|Hne]; [by apply Qclt_not_eq in Hq|].
  f_equal.
  assert (Qcle (Qc_of_Z 0) (x / q)%Qc) as H0 by (by apply Qcdiv_nonneg).
  assert (((x + q) / q)%Qc = (x / q + Qc_of_Z 1)%Qc) as ->.
  { rewrite Z2Qc_inj_1. rewrite Z2Qc_inj_0 in Hne. field. done. }
  unfold trunc. rewrite !bool_decide_eq_true_2; [|done|].
  - rewrite Qfloor_succ, Z2Qc_inj_add, Z2Qc_inj_1. ring.
  - eapply Qcle_trans; [exact H0|].
    rewrite <- (Qcplus_0_r (x / q)) at 1. apply Qcplus_le_mono_l.
    rewrite <- Z2Qc_inj_0. by apply Qc_of_Z_le.
Qed.

End MoreNumberFacts.

Section MoreNumberFacts2.

Lemma Qcdiv_of_Z (f n : Z) :
  (this (Qc_of_Z f / Qc_of_Z n)%Qc == inject_Z f / inject_Z n)%Q.
Proof.
  unfold Qcdiv, Qcmult, Qcinv, Q2Qc. simpl. by rewrite !Qred_correct.
Qed.

Lemma Qfloor_div_of_Z (f n : Z) :
  Qfloor (Qc_of_Z f / Qc_of_Z n)%Qc = f / n.
Proof. rewrite (Qfloor_comp _ _ (Qcdiv_of_Z f n)). symmetry. apply Zdiv_Qdiv. Qed.

Lemma Qceiling_div_of_Z (f n : Z) :
  Qceiling (Qc_of_Z f / Qc_of_Z n)%Qc = - ((- f) / n).
Proof.
  unfold Qceiling. f_equal.
  assert (- this (Qc_of_Z f / Qc_of_Z n)%Qc == inject_Z (- f) / inject_Z n)%Q as E.
  { rewrite Qcdiv_of_Z, inject_Z_opp. unfold Qdiv. ring. }
  rewrite (Qfloor_comp _ _ E). symmetry. apply Zdiv_Qdiv.
Qed.

(** On integers the remainder is the truncating one: it has the sign of
    the dividend. *)
Lemma rem_of_Z (f n : Z) :
  0 < n -> rem (of_Z f) (of_Z n) = of_Z (Z.rem f n).
Proof.
  intros Hn. unfold rem, of_Z.
  destruct (decide (Qc_of_Z n = Qc_of_Z 0)) as [E|_];
    [apply Z2Qc_inj in E; lia|].
  f_equal.
  assert (trunc (Qc_of_Z f / Qc_of_Z n)%Qc = Z.quot f n) as ->.
  { unfold trunc. destruct (decide (0 <= f)) as [Hf|Hf].
    - rewrite bool_decide_eq_true_2.
      + rewrite Qfloor_div_of_Z. symmetry. apply Z.quot_div_nonneg; lia.
      + apply Qcdiv_nonneg; [by apply Qc_of_Z_le|by apply Qc_of_Z_lt].
    - rewrite bool_decide_eq_false_2.
      + rewrite Qceiling_div_of_Z.
        rewrite <- (Z.quot_div_nonneg (- f) n) by lia.
        rewrite Z.quot_opp_l by lia. lia.
      + intros Hge. apply Qcle_not_lt in Hge. apply Hge.
        assert (Qc_of_Z f / Qc_of_Z n = - (Qc_of_Z (- f) / Qc_of_Z n))%Qc as ->.
        { rewrite Z2Qc_inj_opp. field. intros E. rewrite <- Z2Qc_inj_0 in E.
          apply Z2Qc_inj in E. lia. }
        assert (Qclt (Qc_of_Z 0) (Qc_of_Z (- f) / Qc_of_Z n)%Qc) as Hpos.
        { rewrite Z2Qc_inj_0. unfold Qcdiv. apply Qcmult_pos_pos.
          - rewrite <- Z2Qc_inj_0. apply Qc_of_Z_lt. lia.
          - apply Qcinv_pos. rewrite <- Z2Qc_inj_0. by apply Qc_of_Z_lt. }
        rewrite Z2Qc_inj_0 in *. apply Qclt_minus_iff.
        by rewrite Qcopp_involutive, Qcplus_0_l. }
  rewrite <- Z2Qc_inj_mul, <- Z2Qc_inj_sub. f_equal.
  pose proof (Z.quot_rem' f n). lia.
Qed.

End MoreNumberFacts2.

(** ** More on the sampler *)

Section SamplerMore.
Import RMXSkeletalAnimation Spec Props.
Context `{GL : GLMatrix}.

Lemma sampleAnimation_bone_empty sm b t bone scr pose :
  RMXAnimationTrack.pos t = None -> RMXAnimationTrack.rot t = None ->
  RMXAnimationTrack.scl t = None ->
  sampleAnimation_bone sm b (Some (Some t)) bone (scr, pose) =
  (Normal (), (scr, resetPose_bone b bone pose)).
Proof.
  intros Hp Hr Hs. unfold sampleAnimation_bone, resetPose_bone.
  by rewrite Hp, Hr, Hs.
Qed.

Lemma sampleAnimation_loop_empty sm tracks bones b0 scr pose :
  (forall i, (i < length bones)%nat ->
     exists t, tracks !! (b0 + i)%nat = Some (Some t) /\
       RMXAnimationTrack.pos t = None /\ RMXAnimationTrack.rot t = None /\
       RMXAnimationTrack.scl t = None) ->
  sampleAnimation_loop sm tracks bones b0 (scr, pose) =
  (Normal (), (scr, resetPose_loop bones b0 pose)).
Proof.
  revert b0 pose. induction bones as [|bone bones IH]; intros b0 pose Hempty; [done|].
  destruct (Hempty 0%nat) as (t & Ht & Hp & Hr & Hs); [simpl; lia|].
  rewrite Nat.add_0_r in Ht. cbn [sampleAnimation_loop resetPose_loop].
  rewrite Ht, sampleAnimation_bone_empty by done.
  apply IH. intros i Hi. replace (S b0 + i)%nat with (b0 + S i)%nat by lia.
  apply Hempty. simpl. lia.
Qed.

(** X1: sampling an animation whose tracks have no channels is resetting the
    pose, whatever the frame and the frame count; the scratch registers are
    not touched. *)
Theorem sampleAnimation_without_channels_resets (animation : RMXAnimation.t)
    (skeleton : RMXSkeleton.t) (frame : number) (scr : Scratch) (pose : RMXPose.t) :
  tracks_empty (RMXAnimation.tracks animation) (RMXSkeleton.bones skeleton) ->
  sampleAnimation animation skeleton frame scr pose =
  (Normal (), (scr, resetPose skeleton pose)).
Proof.
  intros Hempty. unfold sampleAnimation, resetPose.
  apply sampleAnimation_loop_empty. intros i Hi. by apply Hempty.
Qed.

(** The tracks without channels, one per bone. *)
Lemma empty_tracks_cover (bones : list RMXBone.t) b0 i :
  (i < length bones)%nat ->
  exists t, (replicate (b0 + length bones) (Some RMXAnimationTrack.create))
              !! (b0 + i)%nat = Some (Some t) /\
    RMXAnimationTrack.pos t = None /\ RMXAnimationTrack.rot t = None /\
    RMXAnimationTrack.scl t = None.
Proof.
  intros Hi. exists RMXAnimationTrack.create. split; [|done].
  apply lookup_replicate_2. lia.
Qed.

Lemma resetPose_rest_values (skeleton : RMXSkeleton.t) (pose : RMXPose.t) :
  pose_fits pose (RMXSkeleton.bones skeleton) ->
  RMXPose.world_matrices (resetPose skeleton pose) = RMXPose.world_matrices pose /\
  length (RMXPose.pos (resetPose skeleton pose)) = length (RMXPose.pos pose) /\
  length (RMXPose.rot (resetPose skeleton pose)) = length (RMXPose.rot pose) /\
  length (RMXPose.scl (resetPose skeleton pose)) = length (RMXPose.scl pose) /\
  forall b bone, RMXSkeleton.bones skeleton !! b = Some bone ->
    (forall k, (k < 3)%nat ->
       RMXPose.pos (resetPose skeleton pose) !! (b * 3 + k)%nat =
       Some (vec3_get (RMXBone.pos bone) k)) /\
    (forall k, (k < 4)%nat ->
       RMXPose.rot (resetPose skeleton pose) !! (b * 4 + k)%nat =
       Some (quat_get (RMXBone.rot bone) k)) /\
    (forall k, (k < 3)%nat ->
       RMXPose.scl (resetPose skeleton pose) !! (b * 3 + k)%nat =
       Some (vec3_get (RMXBone.scl bone) k)).
Proof.
  intros (Hp & Hr & Hs & _).
  unfold resetPose. set (bones := RMXSkeleton.bones skeleton) in *.
  set (tracks := replicate (0 + length bones) (Some RMXAnimationTrack.create)).
  set (sm := mkSample NaN NaN NaN NaN NaN NaN).
  set (m0 := mat4_fromRotationTranslation nanq (mkVec3 NaN NaN NaN)).
  set (scr := mkScratch m0 m0 (mkVec3 NaN NaN NaN) (mkVec3 NaN NaN NaN) nanq nanq).
  pose proof (sampleAnimation_loop_empty sm tracks bones 0 scr pose
                (empty_tracks_cover bones 0)) as Hreset.
  destruct (sampleAnimation_loop_normal sm tracks bones 0 scr pose)
    as (scr' & pose' & Hrun & Lp & Lr & Ls & Hw & _ & _ & Hval).
  { intros i Hi. destruct (empty_tracks_cover bones 0 i Hi) as (t & Ht & _).
    by exists t. }
  rewrite Hreset in Hrun. injection Hrun as _ <-.
  split_and!; try done.
  intros b bone Hbone.
  assert (b < length bones)%nat as Hb by (by eapply lookup_lt_Some).
  assert (tracks !! (0 + b)%nat = Some (Some RMXAnimationTrack.create)) as Ht.
  { apply lookup_replicate_2. lia. }
  destruct (Hval b bone _ Hbone Ht) as (Vp & Vr & Vs). simpl in Vp, Vr, Vs.
  split_and!; intros k Hk; [apply Vp|apply Vr|apply Vs]; lia.
Qed.

(** X2: [resetPose] stores the rest position, rotation and scale of every bone
    at the bone's place in the pose, and leaves the world matrices and the
    length of the arrays alone. *)
Theorem resetPose_writes_rest (skeleton : RMXSkeleton.t) (pose : RMXPose.t) :
  pose_fits pose (RMXSkeleton.bones skeleton) ->
  RMXPose.world_matrices (resetPose skeleton pose) = RMXPose.world_matrices pose /\
  length (RMXPose.pos (resetPose skeleton pose)) = length (RMXPose.pos pose) /\
  length (RMXPose.rot (resetPose skeleton pose)) = length (RMXPose.rot pose) /\
  length (RMXPose.scl (resetPose skeleton pose)) = length (RMXPose.scl pose) /\
  forall b bone, RMXSkeleton.bones skeleton !! b = Some bone ->
    (forall k, (k < 3)%nat ->
       RMXPose.pos (resetPose skeleton pose) !! (b * 3 + k)%nat =
       Some (vec3_get (RMXBone.pos bone) k)) /\
    (forall k, (k < 4)%nat ->
       RMXPose.rot (resetPose skeleton pose) !! (b * 4 + k)%nat =
       Some (quat_get (RMXBone.rot bone) k)) /\
    (forall k, (k < 3)%nat ->
       RMXPose.scl (resetPose skeleton pose) !! (b * 3 + k)%nat =
       Some (vec3_get (RMXBone.scl bone) k)).
Proof. exact (resetPose_rest_values skeleton pose). Qed.

(** After [resetPose] the local matrix of every bone is its rest matrix. *)
Lemma resetPose_local_matrix (skeleton : RMXSkeleton.t) (pose : RMXPose.t)
    (b : nat) (bone : RMXBone.t) :
  pose_fits pose (RMXSkeleton.bones skeleton) ->
  RMXSkeleton.bones skeleton !! b = Some bone ->
  local_matrix (resetPose skeleton pose) b = rest_matrix bone.
Proof.
  intros Hfits Hbone.
  destruct (resetPose_rest_values skeleton pose Hfits) as (_ & _ & _ & _ & Hval).
  destruct (Hval b bone Hbone) as (Vp & Vr & Vs).
  unfold local_matrix, rest_matrix, read.
  rewrite !Vp, !Vr, !Vs by lia. simpl.
  by destruct (RMXBone.pos bone), (RMXBone.rot bone), (RMXBone.scl bone).
Qed.

(** X4: the frame count is a period of the sampler on the non-negative frames,
    fractional ones included. *)
Theorem sampleAnimation_periodic (animation : RMXAnimation.t)
    (skeleton : RMXSkeleton.t) (scr : Scratch) (pose : RMXPose.t) (q x : Qc) :
  RMXAnimation.frames animation = Fin q ->
  Qclt (Qc_of_Z 0) q -> Qcle (Qc_of_Z 0) x ->
  sampleAnimation animation skeleton (Fin (x + q)%Qc) scr pose =
  sampleAnimation animation skeleton (Fin x) scr pose.
Proof.
  intros Hframes Hq Hx. unfold sampleAnimation, sample_frame.
  by rewrite Hframes, rem_period.
Qed.

(** X5: a negative integer frame that is no multiple of the frame count is not
    wrapped into the animation: the remainder keeps the sign, the keyframe
    index is negative, and a position or scale channel that is present is
    written as [NaN]. *)
Theorem sampleAnimation_negative_frame (animation : RMXAnimation.t)
    (skeleton : RMXSkeleton.t) (scr : Scratch) (pose : RMXPose.t) (n f : Z) :
  RMXAnimation.frames animation = of_Z n ->
  0 < n -> f < 0 -> Z.rem f n <> 0 ->
  tracks_cover (RMXAnimation.tracks animation) (RMXSkeleton.bones skeleton) ->
  pose_fits pose (RMXSkeleton.bones skeleton) ->
  exists scr' pose',
    sampleAnimation animation skeleton (of_Z f) scr pose = (Normal (), (scr', pose')) /\
    forall b bone track,
      RMXSkeleton.bones skeleton !! b = Some bone ->
      RMXAnimation.tracks animation !! b = Some (Some track) ->
      (forall k, (k < 3)%nat -> RMXAnimationTrack.pos track <> None ->
         RMXPose.pos pose' !! (b * 3 + k)%nat = Some NaN) /\
      (forall k, (k < 3)%nat -> RMXAnimationTrack.scl track <> None ->
         RMXPose.scl pose' !! (b * 3 + k)%nat = Some NaN).
Proof.
  intros Hframes Hn Hf Hrem Hcover (Hp & Hr & Hs & _).
  set (r := Z.rem f n).
  assert (r < 0) as Hr0.
  { pose proof (Z.rem_nonpos f n). lia. }
  assert (Z.rem r n = r) as Hrr.
  { subst r. apply Z.rem_rem. lia. }
  assert (sample_frame (of_Z n) (of_Z f) =
          mkSample (of_Z (r * 3)) (of_Z (r * 4)) (of_Z (r * 3)) (of_Z (r * 4))
                   (of_Z 1) (of_Z 0)) as Hsm.
  { unfold sample_frame. rewrite (rem_of_Z f n) by done. fold r.
    rewrite floor_of_Z, ceil_of_Z, rem_of_Z, Hrr by done.
    by rewrite sub_self, !of_Z_mul, of_Z_sub. }
  assert (forall a k, (0 <= k < 3) ->
            lerp_at (sample_frame (of_Z n) (of_Z f)) a k = NaN) as Hnan.
  { intros a k Hk. rewrite Hsm. unfold lerp_at. cbn [s1 s2 f13 f23].
    rewrite of_Z_add. unfold read_at, to_index, of_Z.
    change (Qfloor (Qc_of_Z (r * 3 + k))) with (Qfloor (inject_Z (r * 3 + k))).
    rewrite Qfloor_Z, decide_True by done.
    rewrite decide_False by lia. done. }
  unfold sampleAnimation. rewrite Hframes.
  set (sm := sample_frame _ _) in *.
  destruct (sampleAnimation_loop_normal sm (RMXAnimation.tracks animation)
              (RMXSkeleton.bones skeleton) 0 scr pose)
    as (scr' & pose' & Hrun & _ & _ & _ & _ & _ & _ & Hval).
  { intros i Hi. by apply Hcover. }
  exists scr', pose'. split; [done|].
  intros b bone track Hbone Htrack.
  assert (b < length (RMXSkeleton.bones skeleton))%nat as Hb
    by (by eapply lookup_lt_Some).
  destruct (Hval b bone track Hbone Htrack) as (Vp & _ & Vs). simpl in Vp, Vs.
  split; intros k Hk Hsome.
  - rewrite Vp by lia. f_equal. unfold sampled_pos.
    destruct (RMXAnimationTrack.pos track) as [a|]; [|done].
    destruct k as [|[|[|k]]]; [| | |lia]; cbn [vec3_get v0 v1 v2]; apply Hnan; lia.
  - rewrite Vs by lia. f_equal. unfold sampled_scl.
    destruct (RMXAnimationTrack.scl track) as [a|]; [|done].
    destruct k as [|[|[|k]]]; [| | |lia]; cbn [vec3_get v0 v1 v2]; apply Hnan; lia.
Qed.

End SamplerMore.

(** ** What the sampler leaves alone *)

Section SamplerFrame.
Import RMXSkeletalAnimation Spec Props.
Context `{GL : GLMatrix}.

Lemma sampleAnimation_loop_footprint sm tracks bones b0 scr pose :
  match sampleAnimation_loop sm tracks bones b0 (scr, pose) with
  | (_, (_, pose')) =>
      length (RMXPose.pos pose') = length (RMXPose.pos pose) /\
      length (RMXPose.rot pose') = length (RMXPose.rot pose) /\
      length (RMXPose.scl pose') = length (RMXPose.scl pose) /\
      RMXPose.world_matrices pose' = RMXPose.world_matrices pose /\
      (forall j, (j < b0 * 3 \/ (b0 + length bones) * 3 <= j)%nat ->
         RMXPose.pos pose' !! j = RMXPose.pos pose !! j /\
         RMXPose.scl pose' !! j = RMXPose.scl pose !! j) /\
      (forall j, (j < b0 * 4 \/ (b0 + length bones) * 4 <= j)%nat ->
         RMXPose.rot pose' !! j = RMXPose.rot pose !! j)
  end.
Proof.
  revert b0 scr pose. induction bones as [|bone bones IH]; intros b0 scr pose.
  - simpl. by split_and!.
  - cbn [sampleAnimation_loop].
    destruct (tracks !! b0) as [[t|]|]; [|simpl; by split_and!..].
    rewrite sampleAnimation_bone_track.
    set (pose1 := RMXPose.mk _ _ _ _).
    specialize (IH (S b0) (scratch_after sm t bone scr) pose1).
    destruct (sampleAnimation_loop sm tracks bones (S b0) _) as [c [scr' pose']].
    destruct IH as (Lp & Lr & Ls & Hw & H3 & H4). subst pose1. simpl in *.
    rewrite length_write_vec3 in Lp, Ls. rewrite length_write_quat in Lr.
    split_and!; try done.
    + intros j Hj. destruct (H3 j) as [-> ->]; [lia|].
      split; apply lookup_write_vec3_out; lia.
    + intros j Hj. rewrite H4 by lia. apply lookup_write_quat_out. lia.
Qed.

(** X6: whether it returns or throws, [sampleAnimation] keeps the length of the
    three arrays of the pose, does not touch the world matrices, and
    changes no float outside the places of the skeleton's bones. *)
Theorem sampleAnimation_footprint (animation : RMXAnimation.t)
    (skeleton : RMXSkeleton.t) (frame : number) (scr : Scratch) (pose : RMXPose.t) :
  match sampleAnimation animation skeleton frame scr pose with
  | (_, (_, pose')) =>
      length (RMXPose.pos pose') = length (RMXPose.pos pose) /\
      length (RMXPose.rot pose') = length (RMXPose.rot pose) /\
      length (RMXPose.scl pose') = length (RMXPose.scl pose) /\
      RMXPose.world_matrices pose' = RMXPose.world_matrices pose /\
      (forall j, (length (RMXSkeleton.bones skeleton) * 3 <= j)%nat ->
         RMXPose.pos pose' !! j = RMXPose.pos pose !! j /\
         RMXPose.scl pose' !! j = RMXPose.scl pose !! j) /\
      (forall j, (length (RMXSkeleton.bones skeleton) * 4 <= j)%nat ->
         RMXPose.rot pose' !! j = RMXPose.rot pose !! j)
  end.
Proof.
  unfold sampleAnimation.
  pose proof (sampleAnimation_loop_footprint
                (sample_frame (RMXAnimation.frames animation) frame)
                (RMXAnimation.tracks animation) (RMXSkeleton.bones skeleton)
                0 scr pose) as H.
  destruct (sampleAnimation_loop _ _ _ _ _) as [c [scr' pose']].
  destruct H as (Lp & Lr & Ls & Hw & H3 & H4).
  split_and!; try done; intros j Hj; [apply H3|apply H4]; lia.
Qed.

Lemma sampleAnimation_loop_scratch sm tracks bones b0 scr1 scr2 pose :
  (sampleAnimation_loop sm tracks bones b0 (scr1, pose)).1 =
  (sampleAnimation_loop sm tracks bones b0 (scr2, pose)).1 /\
  (sampleAnimation_loop sm tracks bones b0 (scr1, pose)).2.2 =
  (sampleAnimation_loop sm tracks bones b0 (scr2, pose)).2.2.
Proof.
  revert b0 scr1 scr2 pose.
  induction bones as [|bone bones IH]; intros b0 scr1 scr2 pose; [done|].
  cbn [sampleAnimation_loop].
  destruct (tracks !! b0) as [[t|]|]; [|done..].
  rewrite !sampleAnimation_bone_track. apply IH.
Qed.

(** X7: the scratch registers carry nothing from one call to the next: the
    completion and the pose [sampleAnimation] leaves are the same whatever
    the registers hold when it is called. *)
Theorem sampleAnimation_scratch_independent (animation : RMXAnimation.t)
    (skeleton : RMXSkeleton.t) (frame : number) (scr1 scr2 : Scratch)
    (pose : RMXPose.t) :
  (sampleAnimation animation skeleton frame scr1 pose).1 =
  (sampleAnimation animation skeleton frame scr2 pose).1 /\
  (sampleAnimation animation skeleton frame scr1 pose).2.2 =
  (sampleAnimation animation skeleton frame scr2 pose).2.2.
Proof. apply sampleAnimation_loop_scratch. Qed.

End SamplerFrame.

(** ** More on exporting *)

Section ExportMore.
Import RMXSkeletalAnimation Spec Props.
Context `{GL : GLMatrix}.

(** The body of the loop either throws, leaving the pose and the
    destination as they are, or stores one world matrix and one block of 16
    floats. *)
Lemma exportPose_bone_cases b bone scr pose dest :
  (exists scr',
     exportPose_bone b bone (scr, pose, dest) = (Throw "TypeError", (scr', pose, dest)))
  \/ (exists scr' w,
        exportPose_bone b bone (scr, pose, dest) =
        (Normal (),
         (scr', set_world_matrices (<[b := w]> (RMXPose.world_matrices pose)) pose,
          write_matrix dest b (mat4_multiply w (RMXBone.inv_bind_mat bone))))).
Proof.
  unfold exportPose_bone.
  destruct (RMXPose.world_matrices pose !! b) as [w0|];
    destruct (geb (RMXBone.parent bone) (of_Z 0));
    try destruct (to_index (RMXBone.parent bone) ≫= (RMXPose.world_matrices pose !!.))
      as [wp|];
    try (left; by eexists); right; by eexists _, _.
Qed.

Lemma exportPose_bone_unexportable b bone scr pose dest :
  unexportable pose b bone ->
  exists scr',
    exportPose_bone b bone (scr, pose, dest) = (Throw "TypeError", (scr', pose, dest)).
Proof.
  intros [Hlen|[Hge Hix]]; unfold exportPose_bone.
  - rewrite (proj2 (lookup_ge_None _ _) Hlen).
    destruct (geb (RMXBone.parent bone) (of_Z 0));
      [destruct (to_index (RMXBone.parent bone) ≫= (RMXPose.world_matrices pose !!.))|];
      by eexists.
  - rewrite Hge.
    assert (to_index (RMXBone.parent bone) ≫= (RMXPose.world_matrices pose !!.) = None) as ->.
    { destruct (to_index (RMXBone.parent bone)) as [i|] eqn:E; [|done]. simpl.
      apply lookup_ge_None. by apply Hix. }
    destruct (RMXPose.world_matrices pose !! b); by eexists.
Qed.

Lemma exportPose_loop_throws bones b0 scr pose dest i bone :
  bones !! i = Some bone -> unexportable pose (b0 + i) bone ->
  exists st, exportPose_loop bones b0 (scr, pose, dest) = (Throw "TypeError", st).
Proof.
  revert b0 scr pose dest i.
  induction bones as [|bone0 bones IH]; intros b0 scr pose dest i Hbone Hbad; [done|].
  cbn [exportPose_loop].
  destruct i as [|i].
  - simpl in Hbone. injection Hbone as ->. rewrite Nat.add_0_r in Hbad.
    destruct (exportPose_bone_unexportable b0 bone scr pose dest Hbad) as [scr' ->].
    by eexists.
  - simpl in Hbone.
    destruct (exportPose_bone_cases b0 bone0 scr pose dest)
      as [[scr' ->]|(scr' & w & ->)]; [by eexists|].
    apply (IH (S b0) _ _ _ i); [done|].
    replace (S b0 + i)%nat with (b0 + S i)%nat by lia.
    unfold unexportable in *. simpl. by rewrite length_insert.
Qed.

(** X8: [exportPose] throws a [TypeError] when the pose has no world matrix for
    a bone, or when the parent index of a bone is non-negative and not the
    index of a world matrix of the pose (too large, or not an integer). *)
Theorem exportPose_unexportable_bone_throws (skeleton : RMXSkeleton.t)
    (scr : Scratch) (pose : RMXPose.t) (dest : list number) (b : nat)
    (bone : RMXBone.t) :
  RMXSkeleton.bones skeleton !! b = Some bone ->
  unexportable pose b bone ->
  exists st, exportPose skeleton scr pose dest = (Throw "TypeError", st).
Proof.
  intros Hbone Hbad. unfold exportPose.
  by apply (exportPose_loop_throws _ 0 _ _ _ b bone).
Qed.

Lemma exportPose_loop_footprint bones b0 scr pose dest :
  match exportPose_loop bones b0 (scr, pose, dest) with
  | (_, (_, pose', dest')) =>
      RMXPose.pos pose' = RMXPose.pos pose /\
      RMXPose.rot pose' = RMXPose.rot pose /\
      RMXPose.scl pose' = RMXPose.scl pose /\
      length (RMXPose.world_matrices pose') = length (RMXPose.world_matrices pose) /\
      length dest' = length dest /\
      (forall j, (j < b0 \/ b0 + length bones <= j)%nat ->
         RMXPose.world_matrices pose' !! j = RMXPose.world_matrices pose !! j) /\
      (forall j, (j < b0 * 16 \/ (b0 + length bones) * 16 <= j)%nat ->
         dest' !! j = dest !! j)
  end.
Proof.
  revert b0 scr pose dest.
  induction bones as [|bone bones IH]; intros b0 scr pose dest.
  - simpl. by split_and!.
  - cbn [exportPose_loop].
    destruct (exportPose_bone_cases b0 bone scr pose dest)
      as [[scr' ->]|(scr' & w & ->)]; [simpl; by split_and!|].
    set (pose1 := set_world_matrices _ pose). set (dest1 := write_matrix dest b0 _).
    specialize (IH (S b0) scr' pose1 dest1).
    destruct (exportPose_loop bones (S b0) _) as [c [[scr'' pose'] dest']].
    destruct IH as (Hp & Hr & Hs & Lw & Ld & Hw & Hd).
    subst pose1 dest1.
    cbn [RMXPose.pos RMXPose.rot RMXPose.scl RMXPose.world_matrices
         set_world_matrices length] in *.
    rewrite length_insert in Lw. rewrite length_write_matrix in Ld.
    split_and!; try done.
    + intros j Hj. rewrite Hw by lia. apply list_lookup_insert_ne. lia.
    + intros j Hj. rewrite Hd by lia. apply lookup_write_matrix_out. lia.
Qed.

(** X9: whether it returns or throws, [exportPose] leaves the translations,
    rotations and scales of the pose as they are, keeps the number of world
    matrices and the length of the destination, and changes no world matrix
    and no float beyond those of the skeleton's bones. *)
Theorem exportPose_footprint (skeleton : RMXSkeleton.t) (scr : Scratch)
    (pose : RMXPose.t) (dest : list number) :
  match exportPose skeleton scr pose dest with
  | (_, (_, pose', dest')) =>
      RMXPose.pos pose' = RMXPose.pos pose /\
      RMXPose.rot pose' = RMXPose.rot pose /\
      RMXPose.scl pose' = RMXPose.scl pose /\
      length (RMXPose.world_matrices pose') = length (RMXPose.world_matrices pose) /\
      length dest' = length dest /\
      (forall j, (length (RMXSkeleton.bones skeleton) <= j)%nat ->
         RMXPose.world_matrices pose' !! j = RMXPose.world_matrices pose !! j) /\
      (forall j, (length (RMXSkeleton.bones skeleton) * 16 <= j)%nat ->
         dest' !! j = dest !! j)
  end.
Proof.
  unfold exportPose.
  pose proof (exportPose_loop_footprint (RMXSkeleton.bones skeleton) 0 scr pose dest) as H.
  destruct (exportPose_loop _ _ _) as [c [[scr' pose'] dest']].
  destruct H as (Hp & Hr & Hs & Lw & Ld & Hw & Hd).
  split_and!; try done; intros j Hj; [apply Hw|apply Hd]; lia.
Qed.

(** X10: for a skeleton in parent-before-child order [exportPose] is a function
    of the skeleton and of the translations, rotations and scales of the
    pose: what the scratch registers, the world matrices and the
    destination held before the call does not show in the world matrices
    and the floats it leaves for the bones. *)
Theorem exportPose_stateless (skeleton : RMXSkeleton.t) (scr1 scr2 : Scratch)
    (pose1 pose2 : RMXPose.t) (dest1 dest2 : list number) :
  topological (RMXSkeleton.bones skeleton) ->
  RMXPose.pos pose1 = RMXPose.pos pose2 ->
  RMXPose.rot pose1 = RMXPose.rot pose2 ->
  RMXPose.scl pose1 = RMXPose.scl pose2 ->
  (length (RMXSkeleton.bones skeleton) <= length (RMXPose.world_matrices pose1))%nat ->
  (length (RMXSkeleton.bones skeleton) <= length (RMXPose.world_matrices pose2))%nat ->
  (length (RMXSkeleton.bones skeleton) * 16 <= length dest1)%nat ->
  (length (RMXSkeleton.bones skeleton) * 16 <= length dest2)%nat ->
  exists scr1' pose1' dest1' scr2' pose2' dest2',
    exportPose skeleton scr1 pose1 dest1 = (Normal (), (scr1', pose1', dest1')) /\
    exportPose skeleton scr2 pose2 dest2 = (Normal (), (scr2', pose2', dest2')) /\
    forall b, (b < length (RMXSkeleton.bones skeleton))%nat ->
      RMXPose.world_matrices pose1' !! b = RMXPose.world_matrices pose2' !! b /\
      forall i, (i < 16)%nat ->
        dest1' !! (b * 16 + i)%nat = dest2' !! (b * 16 + i)%nat.
Proof.
  intros Htopo Hp Hr Hs Hw1 Hw2 Hd1 Hd2. unfold exportPose.
  destruct (exportPose_loop_exported (RMXSkeleton.bones skeleton) pose1 Htopo
              (RMXSkeleton.bones skeleton) [] scr1 pose1 dest1)
    as (scr1' & pose1' & dest1' & Hrun1 & _ & _ & _ & _ & Hfin1); try done.
  { intros b bone Hb. simpl in Hb. lia. }
  destruct (exportPose_loop_exported (RMXSkeleton.bones skeleton) pose2 Htopo
              (RMXSkeleton.bones skeleton) [] scr2 pose2 dest2)
    as (scr2' & pose2' & dest2' & Hrun2 & _ & _ & _ & _ & Hfin2); try done.
  { intros b bone Hb. simpl in Hb. lia. }
  exists scr1', pose1', dest1', scr2', pose2', dest2'.
  split; [exact Hrun1|]. split; [exact Hrun2|].
  intros b Hb.
  destruct (lookup_lt_is_Some_2 (RMXSkeleton.bones skeleton) b Hb) as [bone Hbone].
  destruct (Hfin1 b bone Hb Hbone) as (w1 & Hworld1 & Hl1 & Hdest1).
  destruct (Hfin2 b bone Hb Hbone) as (w2 & Hworld2 & Hl2 & Hdest2).
  assert (w1 = w2) as ->.
  { apply (world_functional (RMXSkeleton.bones skeleton) pose1 b); [done|].
    by apply (world_ext _ pose2). }
  split; [by rewrite Hl1, Hl2|].
  intros i Hi. by rewrite Hdest1, Hdest2.
Qed.

End ExportMore.

(** ** Allocation and sizes *)

Section AllocFacts.
Import RMXBoneMatrixTexture RMXSkeletalAnimation Spec Props Alloc.

Lemma trunc_of_Z (z : Z) : trunc (Qc_of_Z z) = z.
Proof.
  unfold trunc. destruct (bool_decide (Qcle (Qc_of_Z 0) (Qc_of_Z z))).
  - change (Qfloor (Qc_of_Z z)) with (Qfloor (inject_Z z)). apply Qfloor_Z.
  - change (Qceiling (Qc_of_Z z)) with (Qceiling (inject_Z z)). apply Qceiling_Z.
Qed.

Lemma Float32Array_new_of_nat (n : nat) :
  Float32Array_new (of_nat n) = Normal (replicate n (of_Z 0)).
Proof.
  unfold Float32Array_new, of_nat, of_Z. rewrite trunc_of_Z.
  rewrite decide_False by lia. by rewrite Nat2Z.id.
Qed.

Lemma rounds_of_nat (n : nat) : rounds (of_nat n) = n.
Proof.
  unfold rounds, of_nat, of_Z.
  change (Qceiling (Qc_of_Z (Z.of_nat n))) with (Qceiling (inject_Z (Z.of_nat n))).
  by rewrite Qceiling_Z, Nat2Z.id.
Qed.

(** X11: if a bone count gets a side, every smaller count gets one that is not
    larger: the texture side grows with the bone count. *)
Theorem optimalSize_monotone (fuel : nat) (b1 b2 : Qc) (s2 : number) :
  (11 <= fuel)%nat -> Qcle b1 b2 ->
  optimalSize fuel (Fin b2) = Some (Normal s2) ->
  exists s1, optimalSize fuel (Fin b1) = Some (Normal s1) /\ le s1 s2.
Proof.
  intros Hfuel Hle Hrun2. unfold optimalSize in *.
  change (of_Z 2) with (side 1) in *.
  destruct (optimalSize_loop_from b2 10 0 fuel)
    as [(m2 & Hm2 & Hr2 & Hroom2 & Hmin2)|[Hr2 _]]; [lia|lia|intros; lia| |congruence].
  rewrite Hr2 in Hrun2. injection Hrun2 as <-.
  assert (le (Fin b1) (capacity (side (S m2)))) as Hroom1.
  { rewrite capacity_side in *. unfold le, of_Z in *. by eapply Qcle_trans. }
  destruct (optimalSize_loop_from b1 10 0 fuel)
    as [(m1 & Hm1 & Hr1 & _ & Hmin1)|[_ Hall]]; [lia|lia|intros; lia| |].
  - exists (side (S m1)). split; [done|].
    assert (m1 <= m2)%nat as Hm.
    { destruct (decide (m1 <= m2)%nat) as [|Hgt]; [done|]. exfalso.
      apply (lt_not_le (capacity (side (S m2))) (Fin b1)); [|done].
      apply Hmin1. lia. }
    unfold side, le, of_Z. apply Qc_of_Z_le, Z.pow_le_mono_r; lia.
  - exfalso. apply (lt_not_le (capacity (side (S m2))) (Fin b1)); [|done].
    apply Hall. lia.
Qed.

(** X12: for every bone count up to 1048576 the texture is allocated, its side
    is a power of two, it holds [4 * size * size] floats, all 0, and that is
    room for the 16 floats per bone [exportPose] writes. *)
Theorem RMXBoneMatrixTexture_new_has_room (fuel n : nat) :
  (11 <= fuel)%nat -> Z.of_nat n <= 1048576 ->
  exists k, (1 <= k <= 11)%nat /\
    RMXBoneMatrixTexture_new fuel (of_nat n) =
      Some (Normal (mkTexture (side k)
                      (replicate (Z.to_nat (4 * 2 ^ Z.of_nat k * 2 ^ Z.of_nat k)) (of_Z 0)))) /\
    (n * 16 <= Z.to_nat (4 * 2 ^ Z.of_nat k * 2 ^ Z.of_nat k))%nat.
Proof.
  intros Hfuel Hn. unfold RMXBoneMatrixTexture_new, optimalSize, of_nat.
  change (of_Z 2) with (side 1).
  destruct (optimalSize_loop_from (Qc_of_Z (Z.of_nat n)) 10 0 fuel)
    as [(m & Hm & Hrun & Hroom & _)|[_ Hall]]; [lia|lia|intros; lia| |].
  - exists (S m). split; [lia|].
    change (of_Z (Z.of_nat n)) with (Fin (Qc_of_Z (Z.of_nat n))). rewrite Hrun.
    unfold side at 1 2. rewrite !of_Z_mul.
    unfold Float32Array_new, of_Z at 1. rewrite trunc_of_Z.
    rewrite decide_False by (pose proof (Z.pow_pos_nonneg 2 (Z.of_nat (S m))); nia).
    split; [done|].
    rewrite capacity_side in Hroom. unfold le, of_Z in Hroom.
    apply Z2Qc_inj_le in Hroom.
    rewrite Nat2Z.inj_succ, Z.pow_succ_r by lia.
    assert (2 ^ Z.of_nat m * 2 ^ Z.of_nat m = 4 ^ Z.of_nat m) as E
      by (by rewrite <- Z.pow_mul_l).
    nia.
  - exfalso. specialize (Hall 10%nat). rewrite capacity_side in Hall.
    unfold lt, of_Z in Hall. apply Z2Qc_inj_lt in Hall; [|lia].
    change (4 ^ Z.of_nat 10) with 1048576 in Hall. lia.
Qed.

Section Pose.
Context `{GL : GLMatrix}.
Variable mat4_create : Mat4.

(** X13: a pose allocated for the bones of a skeleton has three, four and three
    floats per bone, all 0, and one world matrix per bone: it has room for
    the skeleton. *)
Theorem RMXPose_new_fits (bones : list RMXBone.t) :
  RMXPose_new mat4_create (of_nat (length bones)) =
    Normal (RMXPose.mk (replicate (length bones * 3) (of_Z 0))
                       (replicate (length bones * 4) (of_Z 0))
                       (replicate (length bones * 3) (of_Z 0))
                       (replicate (length bones) mat4_create)) /\
  pose_fits (RMXPose.mk (replicate (length bones * 3) (of_Z 0))
                        (replicate (length bones * 4) (of_Z 0))
                        (replicate (length bones * 3) (of_Z 0))
                        (replicate (length bones) mat4_create)) bones.
Proof.
  split.
  - unfold RMXPose_new, of_nat. rewrite !of_Z_mul.
    replace (Z.of_nat (length bones) * 3) with (Z.of_nat (length bones * 3)) by lia.
    replace (Z.of_nat (length bones) * 4) with (Z.of_nat (length bones * 4)) by lia.
    fold (of_nat (length bones * 3)) (of_nat (length bones * 4)).
    rewrite !Float32Array_new_of_nat.
    fold (of_nat (length bones)). by rewrite rounds_of_nat.
  - unfold pose_fits. simpl. rewrite !length_replicate. lia.
Qed.

End Pose.

End AllocFacts.

(** ** When the sampler throws *)

Section Throws.
Import RMXSkeletalAnimation Spec Props.
Context `{GL : GLMatrix}.

Lemma sampleAnimation_normal_iff (animation : RMXAnimation.t)
    (skeleton : RMXSkeleton.t) (frame : number) (scr : Scratch) (pose : RMXPose.t) :
  (exists st, sampleAnimation animation skeleton frame scr pose = (Normal (), st)) <->
  tracks_cover (RMXAnimation.tracks animation) (RMXSkeleton.bones skeleton).
Proof.
  split.
  - intros [st Hrun] b Hb.
    destruct (RMXAnimation.tracks animation !! b) as [[t|]|] eqn:E; [by exists t|..];
      exfalso;
      destruct (sampleAnimation_loop_throws
                  (sample_frame (RMXAnimation.frames animation) frame)
                  (RMXAnimation.tracks animation) (RMXSkeleton.bones skeleton)
                  0 (scr, pose) b Hb) as [st' Hthrow];
      try (intros t; simpl; by rewrite E);
      unfold sampleAnimation in Hrun; congruence.
  - intros Hcover. unfold sampleAnimation.
    destruct (sampleAnimation_loop_normal
                (sample_frame (RMXAnimation.frames animation) frame)
                (RMXAnimation.tracks animation) (RMXSkeleton.bones skeleton)
                0 scr pose) as (scr' & pose' & Hrun & _).
    { intros i Hi. by apply Hcover. }
    by eexists.
Qed.

(** On bones that are all objects the loop over the loader's bones is the
    loop of the sampler. *)
Lemma loaded_loop_objects sm tracks (bones : list RMXBone.t) b st :
  Loaded.sampleAnimation_loop sm tracks (map Some bones) b st =
  sampleAnimation_loop sm tracks bones b st.
Proof.
  revert b st. induction bones as [|bone bones IH]; intros b st; [reflexivity|].
  cbn [map Loaded.sampleAnimation_loop sampleAnimation_loop].
  destruct (sampleAnimation_bone sm b (tracks !! b) bone st) as [[[]|msg] st'];
    [apply IH|reflexivity].
Qed.

Lemma loaded_loop_normal sm tracks (bones : list (option RMXBone.t)) b st st' :
  Loaded.sampleAnimation_loop sm tracks bones b st = (Normal (), st') ->
  exists objects, bones = map Some objects.
Proof.
  revert b st. induction bones as [|[bone|] bones IH]; intros b st.
  - by exists [].
  - cbn [Loaded.sampleAnimation_loop].
    destruct (sampleAnimation_bone sm b (tracks !! b) bone st) as [[[]|msg] st1];
      [|discriminate].
    intros [objects ->]%IH. by exists (bone :: objects).
  - discriminate.
Qed.

Lemma all_objects (bones : list (option RMXBone.t)) :
  (forall b, (b < length bones)%nat -> exists bone, bones !! b = Some (Some bone)) ->
  exists objects, bones = map Some objects.
Proof.
  induction bones as [|bone bones IH]; intros Hall; [by exists []|].
  destruct (Hall 0%nat) as [object Hobject]; [simpl; lia|].
  injection Hobject as ->.
  destruct IH as [objects ->].
  { intros b Hb. apply (Hall (S b)). simpl. lia. }
  by exists (object :: objects).
Qed.

Lemma loaded_normal_iff (animation : RMXAnimation.t) (skeleton : Loaded.Skeleton)
    (frame : number) (scr : Scratch) (pose : RMXPose.t) :
  (exists st,
     Loaded.sampleAnimation animation skeleton frame scr pose = (Normal (), st)) <->
  exists bones, skeleton = Some bones /\
    forall b, (b < length bones)%nat ->
      (exists bone, bones !! b = Some (Some bone)) /\
      (exists track, RMXAnimation.tracks animation !! b = Some (Some track)).
Proof.
  unfold Loaded.sampleAnimation. split.
  - intros [st Hrun]. destruct skeleton as [bones|]; [|discriminate].
    exists bones. split; [reflexivity|].
    destruct (loaded_loop_normal _ _ _ _ _ _ Hrun) as [objects ->].
    rewrite loaded_loop_objects in Hrun.
    assert (Hcover : tracks_cover (RMXAnimation.tracks animation) objects).
    { apply (sampleAnimation_normal_iff animation (RMXSkeleton.mk objects) frame scr pose).
      by exists st. }
    intros b Hb. rewrite length_map in Hb. split; [|by apply Hcover].
    rewrite list_lookup_fmap.
    destruct (lookup_lt_is_Some_2 objects b Hb) as [bone ->]. by exists bone.
  - intros (bones & -> & Hall).
    destruct (all_objects bones) as [objects ->]; [intros b Hb; by apply Hall|].
    rewrite loaded_loop_objects.
    apply (sampleAnimation_normal_iff animation (RMXSkeleton.mk objects) frame scr pose).
    intros b Hb. apply Hall. by rewrite length_map.
Qed.


End Throws.

(** ** The loader's entry point *)

Section LoadFacts.
Import Loader ColladaLoader.
Context `{Ops : ContextOps}.
Variable XMLDocument Document : Type.
Variable Document_parse : XMLDocument -> Context -> completion Document * Context.
Variable resolveAllLinks : Context -> completion unit * Context.

Local Notation "'load'" := (_loadFromXML XMLDocument Document Document_parse resolveAllLinks).

(** X17: [_loadFromXML] hands the document it returns to [onFinished],
    once, when the callback is set, and calls nothing otherwise; it returns
    a document exactly when neither the parser nor the link resolution
    throws, and [null] after logging the message of the exception, and
    nothing else, at level [Exception]. *)
Theorem loadFromXML_reports_result (this : t) (id : string) (doc : XMLDocument)
    (context : Context) (calls : Calls Document) :
  match load this id doc context calls with
  | (returned, (context', calls')) =>
      calls' = (if onFinished this then calls ++ [(id, returned)] else calls) /\
      match returned with
      | Some result =>
          exists c1, Document_parse doc context = (Normal result, c1) /\
                     resolveAllLinks c1 = (Normal (), context')
      | None =>
          exists msg c1,
            context' = log_write msg Exception c1 /\
            (Document_parse doc context = (Throw msg, c1) \/
             exists result c0, Document_parse doc context = (Normal result, c0) /\
                               resolveAllLinks c0 = (Throw msg, c1))
      end
  end.
Proof.
  unfold _loadFromXML, caught, _reportError, _reportSuccess.
  destruct (Document_parse doc context) as [[result|msg] c1] eqn:Hparse.
  - destruct (resolveAllLinks c1) as [[[]|msg] c2] eqn:Hres.
    + split; [reflexivity|]. exists c1. split; [reflexivity | exact Hres].
    + split; [reflexivity|]. exists msg, c2. split; [reflexivity|].
      right. exists result, c1. split; [reflexivity | exact Hres].
  - split; [reflexivity|]. exists msg, c1.
    split; [reflexivity|]. left. reflexivity.
Qed.

End LoadFacts.

(** ** Converter nodes *)

Section NodeFacts.
Import Converter.
Context `{GL : GLMatrix}.
Variable Geometry Transform Animation Ctx : Type.
Variable Transform_isAnimatedBy : Transform -> option Animation -> bool.
Variable applyTransformation : Transform -> Mat4 -> Mat4.
Variable mat4_create : Mat4.
Variable mat4_invert : Mat4 -> Mat4 -> Mat4.
Variable Geometry_new : Geometry.
Variable Geometry_set_name : string -> Geometry -> Geometry.
Variable Geometry_hasSkeleton : Geometry -> bool.
Variable transformGeometry :
  Geometry -> Mat4 -> Ctx -> completion Geometry * Ctx.
Variable mergeGeometries : list Geometry -> Ctx -> completion Geometry * Ctx.
Variable log_write : string -> Loader.LogLevel -> Ctx -> Ctx.
Variable createSkeleton_value : Ctx -> bool.
Variable worldTransformUnitScale_truthy : Ctx -> bool.
Variable singleGeometry_truthy : Ctx -> bool.

Local Notation "'Node'" := (Node Geometry Transform).
Local Notation "'Fields'" := (Fields Geometry Transform).
Local Notation "'extract'" :=
  (extractGeometries Geometry Transform Animation Ctx Transform_isAnimatedBy
     applyTransformation mat4_create mat4_invert Geometry_new Geometry_set_name
     Geometry_hasSkeleton transformGeometry mergeGeometries log_write
     createSkeleton_value worldTransformUnitScale_truthy singleGeometry_truthy).

Lemma Node_forall (P : Node -> Prop) :
  (forall f c, Forall P c -> P (mkNode _ _ f c)) -> forall n, P n.
Proof.
  intros H. fix IH 1. intros [f c]. apply H.
  induction c as [|n c IHc]; constructor; [apply IH | exact IHc].
Qed.

(** *** [pruneNodes] *)

Lemma pruneNodes_children_id (n : Node) : pruneNodes_children _ _ n = n.
Proof.
  induction n as [f c IH] using Node_forall. cbn [pruneNodes_children].
  f_equal. induction IH as [|n c Hn _ IHc]; [reflexivity|].
  cbn [map]. by rewrite Hn, IHc.
Qed.

(** X18: [pruneNodes] removes nothing: the list it is given and the
    [children] lists below it hold the same nodes after the call, also
    those without geometries and children. *)
Theorem pruneNodes_removes_nothing (nodes : list Node) :
  pruneNodes _ _ nodes = nodes.
Proof.
  unfold pruneNodes. induction nodes as [|n nodes IH]; [reflexivity|].
  cbn [map]. by rewrite pruneNodes_children_id, IH.
Qed.

(** *** [isAnimatedBy] *)

(** X19: [isAnimatedBy] holds exactly when the animation targets a
    transformation of the node or, with [recursive], of one of its
    ancestors up to the root; without [recursive] the ancestors do not
    count. *)
Theorem isAnimatedBy_ancestors (this : Fields) (ancestors : list Fields)
    (animation : option Animation) (recursive : bool) :
  isAnimatedBy _ _ _ Transform_isAnimatedBy this ancestors animation recursive =
  existsb (animated_by _ _ _ Transform_isAnimatedBy animation)
          (this :: (if recursive then ancestors else [])).
Proof.
  revert this. induction ancestors as [|parent ancestors IH]; intros this.
  - cbn [isAnimatedBy existsb]. fold (animated_by _ _ _ Transform_isAnimatedBy animation this).
    destruct (animated_by _ _ _ Transform_isAnimatedBy animation this), recursive;
      reflexivity.
  - cbn [isAnimatedBy].
    fold (animated_by _ _ _ Transform_isAnimatedBy animation this).
    destruct recursive.
    + rewrite IH. cbn [existsb].
      by destruct (animated_by _ _ _ Transform_isAnimatedBy animation this).
    + cbn [existsb].
      by destruct (animated_by _ _ _ Transform_isAnimatedBy animation this).
Qed.

(** *** [forEachNode] *)

Lemma forEachNode_node_eq {S : Type} (fn : Fields -> list Fields -> S -> Fields * S)
    (ancestors : list Fields) (f : Fields) (c : list Node) (s : S) :
  forEachNode_node _ _ fn ancestors (mkNode _ _ f c) s =
  (mkNode _ _ (fn f ancestors s).1
     (forEachNode_from _ _ fn ((fn f ancestors s).1 :: ancestors) c (fn f ancestors s).2).1,
   (forEachNode_from _ _ fn ((fn f ancestors s).1 :: ancestors) c (fn f ancestors s).2).2).
Proof.
  cbn [forEachNode_node]. destruct (fn f ancestors s) as [f' s']. cbn [fst snd].
  match goal with
  | |- (let '(_, _) := ?F c s' in _) = _ =>
      assert (Heach : forall c s,
                F c s = forEachNode_from _ _ fn (f' :: ancestors) c s)
  end.
  { clear. induction c as [|n c IH]; intros s; [reflexivity|].
    cbn [forEachNode_from].
    destruct (forEachNode_node _ _ fn (f' :: ancestors) n s) as [n' s1].
    by rewrite IH. }
  rewrite Heach. by destruct (forEachNode_from _ _ fn (f' :: ancestors) c s').
Qed.

(** X20: a visitor that leaves the nodes as they are is called by
    [forEachNode] once for every node of the forest, a parent before its
    children and the children in their order, each time with the state the
    call before left; the forest is unchanged. *)
Theorem forEachNode_preorder {S : Type} (g : Fields -> list Fields -> S -> S)
    (nodes : list Node) (s : S) :
  forEachNode _ _ nodes (fun f ancestors s => (f, g f ancestors s)) s =
  (nodes, foldl (fun s e => g e.1 e.2 s) s (preorder _ _ [] nodes)).
Proof.
  unfold forEachNode. generalize (@nil Fields) as ancestors. revert s.
  induction nodes as [|n nodes IH]; intros s ancestors; [reflexivity|].
  cbn [forEachNode_from]. unfold preorder in *. cbn [flat_map].
  rewrite foldl_app.
  assert (Hn : forall s ancestors,
    forEachNode_node _ _ (fun f ancestors s => (f, g f ancestors s)) ancestors n s =
    (n, foldl (fun s e => g e.1 e.2 s) s (preorder_node _ _ ancestors n))).
  { clear. induction n as [f c IHc] using Node_forall. intros s ancestors.
    rewrite forEachNode_node_eq. cbn [fst snd preorder_node foldl].
    generalize (g f ancestors s) as s'. clear s. 
    induction IHc as [|n c Hn _ IHc]; intros s; [reflexivity|].
    cbn [forEachNode_from flat_map]. rewrite Hn, foldl_app.
    specialize (IHc (foldl (fun s e => g e.1 e.2 s) s (preorder_node _ _ (f :: ancestors) n))).
    destruct (forEachNode_from _ _ _ (f :: ancestors) c _) as [c' s2].
    cbn [fst snd] in *. by inversion IHc. }
  rewrite Hn, IH. reflexivity.
Qed.

(** *** [extractGeometries] *)

Local Notation "'clear'" := (set_geometries Geometry Transform []).

Local Notation "'entries'" :=
  (fun e : Fields * list Fields =>
     map (mkExtracted Geometry Transform (clear e.1) (map clear e.2))
         (geometries _ _ e.1)).

Lemma forEachNode_from_detach (ancestors : list Fields) (nodes : list Node)
    (result : list (Extracted Geometry Transform)) :
  forEachNode_from _ _ (detach _ _) (map clear ancestors) nodes result =
  (map (detached _ _) nodes,
   result ++ flat_map entries (preorder _ _ ancestors nodes)).
Proof.
  revert result.
  assert (Hn : forall n ancestors result,
    forEachNode_node _ _ (detach _ _) (map clear ancestors) n result =
    (detached _ _ n, result ++ flat_map entries (preorder_node _ _ ancestors n))).
  { clear. induction n as [f c IHc] using Node_forall. intros ancestors result.
    rewrite forEachNode_node_eq.
    assert (Hdetach : detach _ _ f (map clear ancestors) result =
                      (clear f, result ++ entries (f, ancestors))) by reflexivity.
    rewrite !Hdetach. clear Hdetach. cbn [fst snd].
    cbn [detached preorder_node flat_map]. rewrite app_assoc.
    cbn [fst snd]. generalize (result ++ map (mkExtracted Geometry Transform (clear f) (map clear ancestors)) (geometries _ _ f)) as r.
    change (clear f :: map clear ancestors) with (map clear (f :: ancestors)).
    induction IHc as [|n c Hn _ IHc]; intros r.
    - cbn [forEachNode_from map flat_map fst snd]. by rewrite app_nil_r.
    - cbn [forEachNode_from flat_map map].
      change (clear f :: map clear ancestors) with (map clear (f :: ancestors)).
      rewrite Hn.
      specialize (IHc (r ++ flat_map entries (preorder_node _ _ (f :: ancestors) n))).
      destruct (forEachNode_from _ _ _ (map clear (f :: ancestors)) c _) as [c' r2].
      cbn [fst snd] in *. inversion IHc; subst.
      by rewrite flat_map_app, app_assoc. }
  induction nodes as [|n nodes IH]; intros result.
  - cbn [forEachNode_from map preorder flat_map]. by rewrite app_nil_r.
  - cbn [forEachNode_from map]. unfold preorder in *. cbn [flat_map].
    rewrite Hn, IH, flat_map_app, app_assoc. reflexivity.
Qed.

Lemma entries_geometries (l : list (Fields * list Fields)) :
  map (geometry _ _) (flat_map entries l) = flat_map (fun e => geometries _ _ e.1) l.
Proof.
  induction l as [|e l IH]; [reflexivity|].
  cbn [flat_map]. rewrite map_app, IH. f_equal.
  rewrite map_map. cbn [geometry]. apply map_id.
Qed.

Lemma forEachNode_detach (nodes : list Node) :
  exists result,
    forEachNode _ _ nodes (detach _ _) [] = (map (detached _ _) nodes, result) /\
    map (geometry _ _) result = scene_geometries _ _ nodes.
Proof.
  exists (flat_map entries (preorder _ _ [] nodes)). split.
  - unfold forEachNode. apply (forEachNode_from_detach [] nodes []).
  - apply entries_geometries.
Qed.

Lemma clear_id (f : Fields) : geometries _ _ f = [] -> clear f = f.
Proof. destruct f as [n g t pre post]. cbn. by intros ->. Qed.

Lemma detached_id (ancestors : list Fields) (n : Node) :
  flat_map (fun e => geometries _ _ e.1) (preorder_node _ _ ancestors n) = [] ->
  detached _ _ n = n.
Proof.
  revert ancestors. induction n as [f c IHc] using Node_forall. intros ancestors.
  cbn [preorder_node flat_map fst detached].
  intros [Hf Hc]%app_eq_nil. rewrite (clear_id _ Hf). f_equal.
  induction IHc as [|n c Hn _ IHc]; [reflexivity|].
  cbn [flat_map] in Hc. rewrite flat_map_app in Hc.
  apply app_eq_nil in Hc as [Hn' Hc]. cbn [map].
  by rewrite (Hn _ Hn'), (IHc Hc).
Qed.

Lemma detached_scene_id (nodes : list Node) :
  scene_geometries _ _ nodes = [] -> map (detached _ _) nodes = nodes.
Proof.
  unfold scene_geometries, preorder. generalize (@nil Fields) as ancestors.
  induction nodes as [|n nodes IH]; intros ancestors; [reflexivity|].
  cbn [flat_map]. rewrite flat_map_app. intros [Hn Hnodes]%app_eq_nil.
  cbn [map]. by rewrite (detached_id _ _ Hn), (IH _ Hnodes).
Qed.

Lemma transformAll_length (result : list (Extracted Geometry Transform)) (context : Ctx)
    (result' : list (Extracted Geometry Transform)) (context' : Ctx) :
  transformAll _ _ _ applyTransformation mat4_create mat4_invert transformGeometry
    worldTransformUnitScale_truthy result context = (Normal result', context') ->
  length result' = length result.
Proof.
  revert context result' context'.
  induction result as [|e result IH]; intros context result' context'.
  - cbn [transformAll]. intros [= <- _]. reflexivity.
  - cbn [transformAll].
    destruct (transformGeometry _ _ context) as [[g|msg] c1]; [|discriminate].
    destruct (transformAll _ _ _ _ _ _ _ _ result c1) as [[rest|msg] c2] eqn:Hrest;
      [|discriminate].
    intros [= <- _]. cbn [length]. f_equal. exact (IH _ _ _ Hrest).
Qed.

(** X21: a scene none of whose nodes has a geometry gives one new geometry
    named "empty_geometry"; the scene is unchanged and the log receives one
    warning. *)
Theorem extractGeometries_empty_scene (scene_nodes : list Node) (context : Ctx) :
  scene_geometries _ _ scene_nodes = [] ->
  extract scene_nodes context =
  (Normal [Geometry_set_name "empty_geometry" Geometry_new],
   (scene_nodes,
    log_write "No geometry found in the scene, returning an empty geometry"
              Loader.Warning context)).
Proof.
  intros Hempty. unfold extractGeometries.
  destruct (forEachNode_detach scene_nodes) as (result & -> & Hresult).
  rewrite Hempty in Hresult. destruct result; [|discriminate].
  cbn [length]. rewrite decide_True by reflexivity.
  by rewrite (detached_scene_id _ Hempty).
Qed.

(** X22: whatever [extractGeometries] returns or throws, it leaves the
    scene with the same nodes in the same places, each with an empty list
    of geometries and with its name, transformations and pre- and
    post-transformation as before (the matrix caches are not compared). *)
Theorem extractGeometries_detaches (scene_nodes : list Node) (context : Ctx) :
  (extract scene_nodes context).2.1 = map (detached _ _) scene_nodes.
Proof.
  unfold extractGeometries.
  destruct (forEachNode_detach scene_nodes) as (result & -> & _).
  destruct (decide (length result = 0%nat)); [reflexivity|].
  match goal with
  | |- (let '(_, _) := ?X in _).2.1 = _ => destruct X as [[result'|msg] c]
  end; [|reflexivity].
  destruct (singleGeometry_truthy c); [|reflexivity].
  by destruct (mergeGeometries _ c) as [[g|msg] c'].
Qed.

(** X23: with skeleton creation on and [singleGeometry] off, a scene with
    geometries gives them all, those of a node before those of its
    children and the nodes in their order, untransformed, and logs
    nothing. *)
Theorem extractGeometries_with_skeleton (scene_nodes : list Node) (context : Ctx) :
  createSkeleton_value context = true ->
  singleGeometry_truthy context = false ->
  scene_geometries _ _ scene_nodes <> [] ->
  extract scene_nodes context =
  (Normal (scene_geometries _ _ scene_nodes),
   (map (detached _ _) scene_nodes, context)).
Proof.
  intros Hskeleton Hsingle Hsome. unfold extractGeometries.
  destruct (forEachNode_detach scene_nodes) as (result & -> & Hresult).
  rewrite decide_False.
  2: { intros Hnil. apply Hsome. rewrite <- Hresult.
       by destruct result. }
  rewrite Hskeleton, Hsingle, Hresult. reflexivity.
Qed.

Lemma transformAll_transformed (result : list (Extracted Geometry Transform))
    (context : Ctx) (result' : list (Extracted Geometry Transform)) (context' : Ctx) :
  transformAll _ _ _ applyTransformation mat4_create mat4_invert transformGeometry
    worldTransformUnitScale_truthy result context = (Normal result', context') ->
  Forall2 (fun g g' => exists m c c', transformGeometry g m c = (Normal g', c'))
          (map (geometry _ _) result) (map (geometry _ _) result').
Proof.
  revert context result' context'.
  induction result as [|e result IH]; intros context result' context'.
  - cbn [transformAll]. intros [= <- _]. constructor.
  - cbn [transformAll].
    destruct (transformGeometry _ _ context) as [[g|msg] c1] eqn:Hg; [|discriminate].
    destruct (transformAll _ _ _ _ _ _ _ _ result c1) as [[rest|msg] c2] eqn:Hrest;
      [|discriminate].
    intros [= <- _]. cbn [map geometry]. constructor; [|exact (IH _ _ _ Hrest)].
    by eexists _, _, _.
Qed.

(** X24: what [extractGeometries] returns is never empty.  For a scene
    without geometries it is the one geometry named "empty_geometry".
    Otherwise there is one geometry per geometry of the scene, in the order
    of the scene -- the geometry itself with skeleton creation on, what
    [transformGeometry] made of it with skeleton creation off -- and the
    result is that list, or the one geometry [mergeGeometries] makes of it
    when [singleGeometry] is set. *)
Theorem extractGeometries_returns_all (scene_nodes : list Node) (context : Ctx)
    (geometries : list Geometry) (after : list Node * Ctx) :
  extract scene_nodes context = (Normal geometries, after) ->
  geometries <> [] /\
  ((scene_geometries _ _ scene_nodes = [] /\
    geometries = [Geometry_set_name "empty_geometry" Geometry_new]) \/
   (scene_geometries _ _ scene_nodes <> [] /\
    exists (transformed : list Geometry) (context' : Ctx),
      Forall2 (fun g g' =>
                 if createSkeleton_value context then g' = g
                 else exists m c c', transformGeometry g m c = (Normal g', c'))
              (scene_geometries _ _ scene_nodes) transformed /\
      (createSkeleton_value context = true -> context' = context) /\
      if singleGeometry_truthy context' then
        exists g, mergeGeometries transformed context' = (Normal g, after.2) /\
                  geometries = [g]
      else geometries = transformed /\ after.2 = context')).
Proof.
  unfold extractGeometries.
  destruct (forEachNode_detach scene_nodes) as (result & -> & Hresult).
  destruct (decide (length result = 0%nat)) as [Hnone|Hsome].
  { intros [= <- _]. split; [discriminate|]. left. split; [|reflexivity].
    rewrite <- Hresult. by destruct result. }
  assert (Hscene : scene_geometries _ _ scene_nodes <> []).
  { rewrite <- Hresult. by destruct result. }
  match goal with
  | |- (let '(_, _) := ?X in _) = _ -> _ =>
      assert (Hall : forall r c, X = (Normal r, c) ->
                Forall2 (fun g g' =>
                           if createSkeleton_value context then g' = g
                           else exists m c c',
                                  transformGeometry g m c = (Normal g', c'))
                        (scene_geometries _ _ scene_nodes) (map (geometry _ _) r) /\
                (createSkeleton_value context = true -> c = context));
      [|destruct X as [[result'|msg] c]]
  end.
  - intros r c. rewrite <- Hresult. destruct (createSkeleton_value context).
    + intros [= <- <-]. split; [|done].
      apply Forall2_fmap, Forall_Forall2_diag, Forall_forall. done.
    + intros Hrun. split; [|done]. exact (transformAll_transformed _ _ _ _ Hrun).
  - destruct (Hall _ _ eq_refl) as [Hforall Hcontext].
    assert (Hnonempty : map (geometry _ _) result' <> []).
    { intros Hnil. rewrite Hnil in Hforall. apply Forall2_nil_inv_r in Hforall.
      by apply Hscene. }
    destruct (singleGeometry_truthy c) eqn:Hsingle.
    + destruct (mergeGeometries _ c) as [[g|msg] c'] eqn:Hmerge; [|discriminate].
      intros [= <- <-]. split; [discriminate|]. right. split; [exact Hscene|].
      exists (map (geometry _ _) result'), c. split; [exact Hforall|].
      split; [exact Hcontext|]. rewrite Hsingle. by exists g.
    + intros [= <- <-]. split; [exact Hnonempty|]. right. split; [exact Hscene|].
      exists (map (geometry _ _) result'), c. split; [exact Hforall|].
      split; [exact Hcontext|]. by rewrite Hsingle.
  - discriminate.
Qed.

End NodeFacts.

(** ** The parameters of an accessor *)

Section ParamFacts.
Import Loader SourceProps.
Context `{Ops : ContextOps}.

Lemma unnamed_inj (j k : nat) : unnamed j = unnamed k -> j = k.
Proof.
  unfold unnamed. intros H. simplify_eq/=. by apply (inj pretty).
Qed.

Lemma parseAccessorParam_unnamed (child : Node) (type : string) (source : Source)
    (c : Context) :
  unnamed_param child type ->
  parseAccessorParam child source c =
  (Normal (set_param (unnamed (size (params source))) type source), c).
Proof.
  intros [_ Hread]. destruct (Hread c) as (Hname & Hsemantic & Htype & sid & Hsid).
  unfold parseAccessorParam, mbind, M_bind.
  rewrite Hname, Hsemantic, Htype, Hsid. reflexivity.
Qed.

Lemma forEach_unnamed (children : list Node) (types seen : list string)
    (source : Source) (c : Context) :
  Forall2 unnamed_param children types ->
  size (params source) = length seen ->
  (forall k, params source !! unnamed k = seen !! k) ->
  exists source',
    forEach children (fun child source =>
      if decide (nodeName child = "param") then parseAccessorParam child source
      else (reportUnexpectedChild child ;; mret source)) source c =
    (Normal source', c) /\
    same_array source source' /\
    count source' = count source /\ stride source' = stride source /\
    offset source' = offset source /\
    size (params source') = length (seen ++ types) /\
    (forall k, params source' !! unnamed k = (seen ++ types) !! k).
Proof.
  intros Hchildren. revert seen source.
  induction Hchildren as [|child type children types Hchild _ IH];
    intros seen source Hsize Hkeys.
  - exists source. rewrite app_nil_r. by split_and!.
  - cbn [forEach]. unfold mbind at 1, M_bind at 1.
    rewrite decide_True by apply Hchild.
    rewrite (parseAccessorParam_unnamed _ _ _ _ Hchild).
    assert (Hset : set_param (unnamed (size (params source))) type source =
              mkSource (id source) (name source) (sourceId source) (count source)
                       (stride source) (offset source) (data source)
                       (<[unnamed (size (params source)) := type]> (params source))).
    { unfold set_param. by rewrite decide_False by discriminate. }
    rewrite Hset. clear Hset.
    set (source1 := mkSource _ _ _ _ _ _ _ _).
    assert (Hfresh : params source !! unnamed (size (params source)) = None).
    { rewrite Hkeys, Hsize. apply lookup_ge_None_2. lia. }
    assert (Hsize1 : size (params source1) = length (seen ++ [type])).
    { unfold source1. cbn [params].
      rewrite map_size_insert_None by exact Hfresh.
      rewrite length_app, Hsize. cbn [length]. lia. }
    assert (Hkeys1 : forall k, params source1 !! unnamed k = (seen ++ [type]) !! k).
    { intros k. unfold source1. cbn [params].
      destruct (decide (k = size (params source))) as [->|Hne].
      - rewrite lookup_insert_eq. rewrite Hsize.
        rewrite lookup_app_r by lia. by rewrite Nat.sub_diag.
      - rewrite lookup_insert_ne
          by (intros Heq; apply Hne; symmetry; by apply unnamed_inj).
        rewrite Hkeys. destruct (decide (k < length seen)%nat) as [Hlt|Hge].
        + by rewrite lookup_app_l.
        + rewrite !lookup_ge_None_2; [reflexivity| |lia].
          rewrite length_app. cbn [length]. lia. }
    destruct (IH (seen ++ [type]) source1 Hsize1 Hkeys1)
      as (source' & Hrun & Hsame & Hc & Hst & Ho & Hsz & Hk).
    exists source'. rewrite <- app_assoc in Hsz, Hk. by split_and!.
Qed.

(** X25: the parameters of an accessor that have a type and neither name
    nor semantic are kept under the keys "unnamed param #0", "unnamed
    param #1", ... in document order: none overwrites another, the source
    has as many parameters as the accessor has children, and the context
    is as it was. *)
Theorem parseAccessor_numbers_unnamed_params (node : Node) (types : list string)
    (source : Source) (c : Context) :
  params source = ∅ ->
  Forall2 unnamed_param (childNodes node) types ->
  exists source',
    parseAccessor_children node source c = (Normal source', c) /\
    size (params source') = length types /\
    forall k, params source' !! unnamed k = types !! k.
Proof.
  intros Hempty Hchildren.
  destruct (forEach_unnamed (childNodes node) types [] source c Hchildren)
    as (source' & Hrun & _ & _ & _ & _ & Hsize & Hkeys).
  - by rewrite Hempty, map_size_empty.
  - intros k. by rewrite Hempty, lookup_empty.
  - exists source'. by split_and!.
Qed.

(** *** What the accessor leaves alone *)

Lemma forEach_preserves {A : Type} (P : A -> Prop) (children : list Node)
    (fn : Node -> A -> M A) (a : A) (c : Context) (a' : A) (c' : Context) :
  (forall child a c a' c', fn child a c = (Normal a', c') -> P a -> P a') ->
  P a ->
  forEach children fn a c = (Normal a', c') ->
  P a'.
Proof.
  intros Hfn. revert a c.
  induction children as [|child children IH]; intros a c Ha.
  - cbn [forEach]. by intros [= <- _].
  - cbn [forEach]. unfold mbind at 1, M_bind at 1.
    destruct (fn child a c) as [[a1|msg] c1] eqn:Hchild; [|discriminate].
    apply IH. exact (Hfn _ _ _ _ _ Hchild Ha).
Qed.

Lemma parseAccessorParam_same_array (child : Node) (source : Source) (c : Context)
    (source' : Source) (c' : Context) :
  parseAccessorParam child source c = (Normal source', c') ->
  same_array source source'.
Proof.
  unfold parseAccessorParam, mbind, M_bind.
  destruct (getAttributeAsString child "name" None false c) as [[n|?] c1];
    [|discriminate].
  destruct (getAttributeAsString child "semantic" None false c1) as [[s|?] c2];
    [|discriminate].
  destruct (getAttributeAsString child "type" None true c2) as [[t|?] c3];
    [|discriminate].
  destruct (getAttributeAsString child "sid" None false c3) as [[sid|?] c4];
    [|discriminate].
  assert (Hset : forall key type, same_array source (set_param key type source)).
  { intros key type. unfold set_param.
    destruct (decide (key = "__proto__")); by split_and!. }
  destruct n as [n|], s as [s|], t as [t|]; cbn;
    intros [= <- _]; try apply Hset; by split_and!.
Qed.

Lemma same_array_trans (a b c : Source) :
  same_array a b -> same_array b c -> same_array a c.
Proof.
  unfold same_array. intros (-> & -> & -> & ->) (-> & -> & -> & ->). by split_and!.
Qed.

Lemma parseAccessor_same_array (node : Node) (source : Source) (c : Context)
    (source' : Source) (c' : Context) :
  parseAccessor node source c = (Normal source', c') ->
  same_array source source'.
Proof.
  unfold parseAccessor, mbind, M_bind.
  destruct (getAttributeAsString node "source" None true c) as [[sid|?] c1];
    [|discriminate].
  destruct (getAttributeAsInt node "count" (of_Z 0) true c1) as [[n|?] c2];
    [|discriminate].
  destruct (getAttributeAsInt node "stride" (of_Z 1) false c2) as [[st|?] c3];
    [|discriminate].
  destruct (getAttributeAsInt node "offset" (of_Z 0) false c3) as [[o|?] c4];
    [|discriminate].
  match goal with
  | |- match ?X with _ => _ end = _ -> _ => destruct X as [[[]|?] c5]; [|discriminate]
  end.
  unfold forEachChild. apply forEach_preserves.
  - intros child a ca a' ca' Hchild Ha.
    destruct (decide (nodeName child = "param")).
    + eapply same_array_trans; [exact Ha|].
      exact (parseAccessorParam_same_array _ _ _ _ _ Hchild).
    + unfold mbind, M_bind, mret, M_ret in Hchild.
      destruct (reportUnexpectedChild child ca) as [[[]|?] c6]; [|discriminate].
      by injection Hchild as <- _.
  - by split_and!.
Qed.

(** X26: a <technique_common> element that is parsed without an exception
    leaves the id, the name, the array id and the data of the source as
    they were: it sets count, stride, offset and the parameters only. *)
Theorem parseSourceTechniqueCommon_keeps_array (node : Node) (source : Source)
    (c : Context) (source' : Source) (c' : Context) :
  parseSourceTechniqueCommon node source c = (Normal source', c') ->
  same_array source source'.
Proof.
  unfold parseSourceTechniqueCommon, forEachChild. apply forEach_preserves.
  - intros child a ca a' ca' Hchild Ha.
    destruct (decide (nodeName child = "accessor")).
    + eapply same_array_trans; [exact Ha|].
      exact (parseAccessor_same_array _ _ _ _ _ Hchild).
    + unfold mbind, M_bind, mret, M_ret in Hchild.
      destruct (reportUnexpectedChild child ca) as [[[]|?] c6]; [|discriminate].
      by injection Hchild as <- _.
  - by split_and!.
Qed.

End ParamFacts.

(** ** From the loader to the sampler, from the rest pose to the export *)

Section Pipeline.
Import RMXSkeletalAnimation Spec Props.
Context `{GL : GLMatrix}.

Lemma world_at_rest (skeleton : RMXSkeleton.t) (pose : RMXPose.t) (b : nat) (w : Mat4) :
  pose_fits pose (RMXSkeleton.bones skeleton) ->
  world (RMXSkeleton.bones skeleton) (resetPose skeleton pose) b w ->
  rest_world (RMXSkeleton.bones skeleton) b w.
Proof.
  intros Hfits Hworld.
  induction Hworld as [b bone Hbone Hparent|b bone p wp Hbone Hparent _ IH].
  - rewrite (resetPose_local_matrix skeleton pose b bone Hfits Hbone).
    by apply rest_world_root.
  - rewrite (resetPose_local_matrix skeleton pose b bone Hfits Hbone).
    by eapply rest_world_child.
Qed.

(** X15: exporting a pose that has been reset gives the skinning matrices of
    the skeleton at rest: for a skeleton in parent-before-child order
    [exportPose] returns normally and leaves for every bone the product of
    its world matrix at rest -- the rest matrix of a root, the parent's
    world matrix at rest times the rest matrix otherwise -- and its inverse
    bind matrix. *)
Theorem exportPose_after_resetPose (skeleton : RMXSkeleton.t) (scr : Scratch)
    (pose : RMXPose.t) (dest : list number) :
  topological (RMXSkeleton.bones skeleton) ->
  pose_fits pose (RMXSkeleton.bones skeleton) ->
  (length (RMXSkeleton.bones skeleton) * 16 <= length dest)%nat ->
  exists scr' pose' dest',
    exportPose skeleton scr (resetPose skeleton pose) dest =
      (Normal (), (scr', pose', dest')) /\
    forall b bone, RMXSkeleton.bones skeleton !! b = Some bone ->
      exists w, rest_world (RMXSkeleton.bones skeleton) b w /\
        RMXPose.world_matrices pose' !! b = Some w /\
        forall i, (i < 16)%nat ->
          dest' !! (b * 16 + i)%nat =
          Some (mat4_get (mat4_multiply w (RMXBone.inv_bind_mat bone)) i).
Proof.
  intros Htopo Hfits Hdest.
  destruct (resetPose_rest_values skeleton pose Hfits) as (Hw & _).
  unfold exportPose.
  destruct (exportPose_loop_exported (RMXSkeleton.bones skeleton)
              (resetPose skeleton pose) Htopo
              (RMXSkeleton.bones skeleton) [] scr (resetPose skeleton pose) dest)
    as (scr' & pose' & dest' & Hrun & _ & _ & _ & _ & Hfinal); try done.
  { rewrite Hw. apply Hfits. }
  { intros b bone Hb. simpl in Hb. lia. }
  exists scr', pose', dest'. split; [done|].
  intros b bone Hbone.
  destruct (Hfinal b bone) as (w & Hworld & Hstored & Hfloats);
    [by eapply lookup_lt_Some|done|].
  exists w. split; [|done]. by apply (world_at_rest skeleton pose).
Qed.

(** X16: an animation the loader has built can be sampled for a skeleton
    as the loader leaves it exactly when the skeleton is not [null] and, at
    every index of its bones, the bone is not [null] and the description
    of the animation has a track description that is not [null]. *)
Theorem sampleAnimation_loaded_returns_iff {ArrayBuffer : Type}
    (view : ArrayBuffer -> number -> number -> list number)
    (json : RMXModelLoader.AnimationJSON) (data : ArrayBuffer)
    (animation : RMXAnimation.t) (skeleton : Loaded.Skeleton) (frame : number)
    (scr : Scratch) (pose : RMXPose.t) :
  RMXModelLoader.loadAnimation ArrayBuffer view (Some json) data = Some animation ->
  (exists st,
     Loaded.sampleAnimation animation skeleton frame scr pose = (Normal (), st)) <->
  exists bones, skeleton = Some bones /\
    forall b, (b < length bones)%nat ->
      (exists bone, bones !! b = Some (Some bone)) /\
      (exists t, RMXModelLoader.animation_tracks json !! b = Some (Some t)).
Proof.
  intros Hload. rewrite loaded_normal_iff.
  injection Hload as <-. cbn [RMXAnimation.tracks].
  split; intros (bones & -> & Hall); exists bones; (split; [reflexivity|]);
    intros b Hb; destruct (Hall b Hb) as [Hbone [t Ht]]; (split; [exact Hbone|]).
  - rewrite list_lookup_fmap in Ht.
    destruct (RMXModelLoader.animation_tracks json !! b) as [[tj|]|]; [|done..].
    by exists tj.
  - rewrite list_lookup_fmap, Ht. by eexists.
Qed.

End Pipeline.

(** ** The further theorems at concrete inputs *)

Section MoreInstances.
Import RMXBoneMatrixTexture RMXSkeletalAnimation Spec Props Alloc Examples MoreExamples.

#[local] Existing Instance Reference.gl.

Lemma still_empty :
  tracks_empty (RMXAnimation.tracks still) (RMXSkeleton.bones chain).
Proof.
  intros [|[|b]] Hb; simpl in Hb; [| |lia]; by exists RMXAnimationTrack.create.
Qed.

Lemma sampleAnimation_without_channels_resets_witness :
  tracks_empty (RMXAnimation.tracks still) (RMXSkeleton.bones chain) /\
  sampleAnimation still chain (of_Z 1) registers pose2 =
  (Normal (), (registers, resetPose chain pose2)).
Proof.
  split; [exact still_empty|].
  apply (sampleAnimation_without_channels_resets still chain (of_Z 1) registers pose2).
  exact still_empty.
Defined.

Lemma resetPose_writes_rest_witness :
  pose_fits pose2 (RMXSkeleton.bones chain) /\
  RMXPose.world_matrices (resetPose chain pose2) = RMXPose.world_matrices pose2 /\
  length (RMXPose.pos (resetPose chain pose2)) = length (RMXPose.pos pose2) /\
  length (RMXPose.rot (resetPose chain pose2)) = length (RMXPose.rot pose2) /\
  length (RMXPose.scl (resetPose chain pose2)) = length (RMXPose.scl pose2) /\
  forall b bone, RMXSkeleton.bones chain !! b = Some bone ->
    (forall k, (k < 3)%nat ->
       RMXPose.pos (resetPose chain pose2) !! (b * 3 + k)%nat =
       Some (vec3_get (RMXBone.pos bone) k)) /\
    (forall k, (k < 4)%nat ->
       RMXPose.rot (resetPose chain pose2) !! (b * 4 + k)%nat =
       Some (quat_get (RMXBone.rot bone) k)) /\
    (forall k, (k < 3)%nat ->
       RMXPose.scl (resetPose chain pose2) !! (b * 3 + k)%nat =
       Some (vec3_get (RMXBone.scl bone) k)).
Proof.
  split; [exact pose2_fits|].
  apply (resetPose_writes_rest chain pose2). exact pose2_fits.
Defined.

Lemma slide_covered :
  tracks_cover (RMXAnimation.tracks slide) (RMXSkeleton.bones chain).
Proof. by eapply chain_covered. Qed.

Lemma sampleAnimation_periodic_witness :
  RMXAnimation.frames slide = Fin (Qc_of_Z 2) /\
  Qclt (Qc_of_Z 0) (Qc_of_Z 2) /\ Qcle (Qc_of_Z 0) (Q2Qc (1 # 2)) /\
  sampleAnimation slide chain (Fin (Q2Qc (1 # 2) + Qc_of_Z 2)%Qc) registers pose2 =
  sampleAnimation slide chain (Fin (Q2Qc (1 # 2))) registers pose2.
Proof.
  assert (Qclt (Qc_of_Z 0) (Qc_of_Z 2)) as Hq by reflexivity.
  assert (Qcle (Qc_of_Z 0) (Q2Qc (1 # 2))) as Hx by discriminate.
  split; [reflexivity|]. split; [exact Hq|]. split; [exact Hx|].
  apply (sampleAnimation_periodic slide chain registers pose2 (Qc_of_Z 2) (Q2Qc (1 # 2)));
    [reflexivity|exact Hq|exact Hx].
Defined.

Lemma sampleAnimation_negative_frame_witness :
  RMXAnimation.frames slide = of_Z 2 /\ 0 < 2 /\ -1 < 0 /\ Z.rem (-1) 2 <> 0 /\
  tracks_cover (RMXAnimation.tracks slide) (RMXSkeleton.bones chain) /\
  pose_fits pose2 (RMXSkeleton.bones chain) /\
  exists scr' pose',
    sampleAnimation slide chain (of_Z (-1)) registers pose2 =
      (Normal (), (scr', pose')) /\
    forall b bone track,
      RMXSkeleton.bones chain !! b = Some bone ->
      RMXAnimation.tracks slide !! b = Some (Some track) ->
      (forall k, (k < 3)%nat -> RMXAnimationTrack.pos track <> None ->
         RMXPose.pos pose' !! (b * 3 + k)%nat = Some NaN) /\
      (forall k, (k < 3)%nat -> RMXAnimationTrack.scl track <> None ->
         RMXPose.scl pose' !! (b * 3 + k)%nat = Some NaN).
Proof.
  assert (Z.rem (-1) 2 <> 0) as Hrem by (vm_compute; discriminate).
  split; [reflexivity|]. split; [lia|]. split; [lia|]. split; [exact Hrem|].
  split; [exact slide_covered|]. split; [exact pose2_fits|].
  apply (sampleAnimation_negative_frame slide chain registers pose2 2 (-1));
    [reflexivity|lia|lia|exact Hrem|exact slide_covered|exact pose2_fits].
Defined.

Lemma stray_unexportable : unexportable pose2 1 stray.
Proof.
  right. split; [reflexivity|].
  intros i Hi. vm_compute in Hi. injection Hi as <-. simpl. lia.
Qed.

Lemma exportPose_unexportable_bone_throws_witness :
  RMXSkeleton.bones broken_chain !! 1%nat = Some stray /\
  unexportable pose2 1 stray /\
  exists st, exportPose broken_chain registers pose2 dest2 = (Throw "TypeError", st).
Proof.
  split; [reflexivity|]. split; [exact stray_unexportable|].
  apply (exportPose_unexportable_bone_throws broken_chain registers pose2 dest2 1 stray);
    [reflexivity|exact stray_unexportable].
Defined.

Lemma exportPose_stateless_witness :
  topological (RMXSkeleton.bones chain) /\
  RMXPose.pos pose2 = RMXPose.pos used_pose2 /\
  RMXPose.rot pose2 = RMXPose.rot used_pose2 /\
  RMXPose.scl pose2 = RMXPose.scl used_pose2 /\
  (length (RMXSkeleton.bones chain) <= length (RMXPose.world_matrices pose2))%nat /\
  (length (RMXSkeleton.bones chain) <= length (RMXPose.world_matrices used_pose2))%nat /\
  (length (RMXSkeleton.bones chain) * 16 <= length dest2)%nat /\
  (length (RMXSkeleton.bones chain) * 16 <= length used_dest)%nat /\
  exists scr1' pose1' dest1' scr2' pose2' dest2',
    exportPose chain registers pose2 dest2 = (Normal (), (scr1', pose1', dest1')) /\
    exportPose chain used_registers used_pose2 used_dest =
      (Normal (), (scr2', pose2', dest2')) /\
    forall b, (b < length (RMXSkeleton.bones chain))%nat ->
      RMXPose.world_matrices pose1' !! b = RMXPose.world_matrices pose2' !! b /\
      forall i, (i < 16)%nat ->
        dest1' !! (b * 16 + i)%nat = dest2' !! (b * 16 + i)%nat.
Proof.
  split; [exact chain_topological|].
  split; [reflexivity|]. split; [reflexivity|]. split; [reflexivity|].
  split; [simpl; lia|]. split; [simpl; lia|]. split; [simpl; lia|].
  split; [simpl; lia|].
  apply (exportPose_stateless chain registers used_registers pose2 used_pose2
           dest2 used_dest);
    [exact chain_topological|reflexivity|reflexivity|reflexivity
    |simpl; lia|simpl; lia|simpl; lia|simpl; lia].
Defined.

Lemma optimalSize_300 : optimalSize 11 (Fin (Qc_of_Z 300)) = Some (Normal (of_Z 64)).
Proof. apply (bool_decide_unpack _). by vm_compute. Qed.

Lemma optimalSize_monotone_witness :
  (11 <= 11)%nat /\ Qcle (Qc_of_Z 100) (Qc_of_Z 300) /\
  optimalSize 11 (Fin (Qc_of_Z 300)) = Some (Normal (of_Z 64)) /\
  exists s1, optimalSize 11 (Fin (Qc_of_Z 100)) = Some (Normal s1) /\ le s1 (of_Z 64).
Proof.
  assert (Qcle (Qc_of_Z 100) (Qc_of_Z 300)) as Hle by (apply Qc_of_Z_le; lia).
  split; [lia|]. split; [exact Hle|]. split; [exact optimalSize_300|].
  apply (optimalSize_monotone 11 (Qc_of_Z 100) (Qc_of_Z 300) (of_Z 64));
    [lia|exact Hle|exact optimalSize_300].
Defined.

Lemma RMXBoneMatrixTexture_new_has_room_witness :
  (11 <= 11)%nat /\ Z.of_nat 300 <= 1048576 /\
  exists k, (1 <= k <= 11)%nat /\
    RMXBoneMatrixTexture_new 11 (of_nat 300) =
      Some (Normal (mkTexture (side k)
                      (replicate (Z.to_nat (4 * 2 ^ Z.of_nat k * 2 ^ Z.of_nat k)) (of_Z 0)))) /\
    (300 * 16 <= Z.to_nat (4 * 2 ^ Z.of_nat k * 2 ^ Z.of_nat k))%nat.
Proof.
  split; [lia|]. split; [lia|].
  apply (RMXBoneMatrixTexture_new_has_room 11 300); lia.
Defined.

End MoreInstances.

(** ** The parser, the loader and the converter at concrete inputs *)

Section FurtherInstances.
Import Examples MoreExamples SourceProps.

#[local] Existing Instance Reference.gl.
#[local] Existing Instance Reference.ops.

Lemma exportPose_after_resetPose_witness :
  Spec.topological (RMXSkeleton.bones chain) /\
  Spec.pose_fits pose2 (RMXSkeleton.bones chain) /\
  (length (RMXSkeleton.bones chain) * 16 <= length dest2)%nat /\
  exists scr' pose' dest',
    RMXSkeletalAnimation.exportPose chain registers
      (RMXSkeletalAnimation.resetPose chain pose2) dest2 =
      (Normal (), (scr', pose', dest')) /\
    forall b bone, RMXSkeleton.bones chain !! b = Some bone ->
      exists w, Props.rest_world (RMXSkeleton.bones chain) b w /\
        RMXPose.world_matrices pose' !! b = Some w /\
        forall i, (i < 16)%nat ->
          dest' !! (b * 16 + i)%nat =
          Some (mat4_get (mat4_multiply w (RMXBone.inv_bind_mat bone)) i).
Proof.
  split; [exact chain_topological|]. split; [exact pose2_fits|].
  split; [simpl; lia|].
  apply (exportPose_after_resetPose chain registers pose2 dest2);
    [exact chain_topological|exact pose2_fits|simpl; lia].
Defined.

Lemma sampleAnimation_loaded_returns_iff_witness :
  RMXModelLoader.loadAnimation (list number) whole_view (Some slide_json) payload =
    Some loaded_slide /\
  ((exists st,
      Loaded.sampleAnimation loaded_slide (Some [Some root; Some child]) (of_Z 1)
        registers pose2 = (Normal (), st)) <->
   exists bones, Some [Some root; Some child] = Some bones /\
     forall b, (b < length bones)%nat ->
       (exists bone, bones !! b = Some (Some bone)) /\
       (exists t, RMXModelLoader.animation_tracks slide_json !! b = Some (Some t))).
Proof.
  split; [reflexivity|].
  apply (sampleAnimation_loaded_returns_iff whole_view slide_json payload loaded_slide
           (Some [Some root; Some child]) (of_Z 1) registers pose2).
  reflexivity.
Defined.

Lemma float_param_unnamed : unnamed_param float_param "float".
Proof.
  unfold unnamed_param. split.
  - reflexivity.
  - intros c. split_and!; try reflexivity. by exists None.
Qed.

Lemma xyz_unnamed :
  Forall2 unnamed_param (Loader.childNodes xyz_accessor) ["float"; "float"; "float"].
Proof.
  apply List.Forall2_cons; [exact float_param_unnamed|].
  apply List.Forall2_cons; [exact float_param_unnamed|].
  apply List.Forall2_cons; [exact float_param_unnamed|].
  apply List.Forall2_nil.
Qed.

Lemma parseAccessor_numbers_unnamed_params_witness :
  Loader.params Loader.Source_new = ∅ /\
  Forall2 unnamed_param (Loader.childNodes xyz_accessor) ["float"; "float"; "float"] /\
  exists source',
    Loader.parseAccessor_children xyz_accessor Loader.Source_new empty_context =
      (Normal source', empty_context) /\
    size (Loader.params source') = length ["float"; "float"; "float"] /\
    forall k, Loader.params source' !! unnamed k = ["float"; "float"; "float"] !! k.
Proof.
  split; [reflexivity|].
  split; [exact xyz_unnamed|].
  apply (parseAccessor_numbers_unnamed_params (Ops := Reference.ops) xyz_accessor ["float"; "float"; "float"]
           Loader.Source_new empty_context); [reflexivity|exact xyz_unnamed].
Defined.

Lemma technique_run :
  Loader.parseSourceTechniqueCommon technique parsed_array empty_context =
  (Normal parsed_source,
   Loader.log_write (Loader.nonlocal_message parsed_array) Loader.Error empty_context).
Proof. reflexivity. Qed.

Lemma parseSourceTechniqueCommon_keeps_array_witness :
  Loader.parseSourceTechniqueCommon technique parsed_array empty_context =
    (Normal parsed_source,
     Loader.log_write (Loader.nonlocal_message parsed_array) Loader.Error
                      empty_context) /\
  same_array parsed_array parsed_source.
Proof.
  split; [exact technique_run|].
  exact (parseSourceTechniqueCommon_keeps_array (Ops := Reference.ops) technique parsed_array empty_context
           parsed_source _ technique_run).
Defined.

Lemma scene_has_geometries : Converter.scene_geometries string unit scene <> [].
Proof. discriminate. Qed.

Lemma extractGeometries_empty_scene_witness :
  Converter.scene_geometries string unit bare_scene = [] /\
  extract_scene true false bare_scene [] =
  (Normal ["empty_geometry"],
   (bare_scene,
    [("No geometry found in the scene, returning an empty geometry",
      Loader.Warning)])).
Proof.
  split; [reflexivity|].
  apply (extractGeometries_empty_scene (GL := Reference.gl) string unit unit
           (list (string * Loader.LogLevel)) (fun _ _ => false) (fun _ m => m)
           Reference.identity (fun _ a => a) EmptyString (fun name _ => name)
           (fun _ => false) (fun g _ c => (Normal g, c))
           (fun gs c => (Normal (String.concat "+" gs), c))
           (fun msg level c => c ++ [(msg, level)])
           (fun _ => true) (fun _ => false) (fun _ => false) bare_scene []).
  reflexivity.
Defined.

Lemma extractGeometries_with_skeleton_witness :
  Converter.scene_geometries string unit scene <> [] /\
  extract_scene true false scene [] =
  (Normal (Converter.scene_geometries string unit scene),
   (map (Converter.detached string unit) scene, [])).
Proof.
  split; [exact scene_has_geometries|].
  apply (extractGeometries_with_skeleton (GL := Reference.gl) string unit unit
           (list (string * Loader.LogLevel)) (fun _ _ => false) (fun _ m => m)
           Reference.identity (fun _ a => a) EmptyString (fun name _ => name)
           (fun _ => false) (fun g _ c => (Normal g, c))
           (fun gs c => (Normal (String.concat "+" gs), c))
           (fun msg level c => c ++ [(msg, level)])
           (fun _ => true) (fun _ => false) (fun _ => false) scene []);
    [reflexivity|reflexivity|exact scene_has_geometries].
Defined.

Lemma merged_scene_run :
  extract_scene false true scene [] =
  (Normal ["torso+hand+glove+sword"],
   (map (Converter.detached string unit) scene, [])).
Proof. reflexivity. Qed.

Lemma extractGeometries_returns_all_witness :
  extract_scene false true scene [] =
    (Normal ["torso+hand+glove+sword"],
     (map (Converter.detached string unit) scene, [])) /\
  ["torso+hand+glove+sword"] <> [] /\
  ((Converter.scene_geometries string unit scene = [] /\
    ["torso+hand+glove+sword"] = ["empty_geometry"]) \/
   (Converter.scene_geometries string unit scene <> [] /\
    exists (transformed : list string) (context' : list (string * Loader.LogLevel)),
      Forall2 (fun g g' : string =>
                 if false then g' = g
                 else exists (m : list number) (c c' : list (string * Loader.LogLevel)),
                        (Normal g, c) = (Normal g', c'))
              (Converter.scene_geometries string unit scene) transformed /\
      (false = true -> context' = []) /\
      if true then
        exists g, (Normal (String.concat "+" transformed), context') =
                  (Normal g, ([] : list (string * Loader.LogLevel))) /\
                  ["torso+hand+glove+sword"] = [g]
      else ["torso+hand+glove+sword"] = transformed /\
           ([] : list (string * Loader.LogLevel)) = context')).
Proof.
  split; [exact merged_scene_run|].
  exact (extractGeometries_returns_all (GL := Reference.gl) string unit unit
           (list (string * Loader.LogLevel)) (fun _ _ => false) (fun _ m => m)
           Reference.identity (fun _ a => a) EmptyString (fun name _ => name)
           (fun _ => false) (fun g _ c => (Normal g, c))
           (fun gs c => (Normal (String.concat "+" gs), c))
           (fun msg level c => c ++ [(msg, level)])
           (fun _ => false) (fun _ => false) (fun _ => true) scene []
           ["torso+hand+glove+sword"] _ merged_scene_run).
Defined.

End FurtherInstances.
